(** * Fleet management backend: telemetry ingestion and activity reconciliation

    A shallow embedding of the two service classes of the backend,
    [app/services/telematics_service.py] and
    [app/services/activity_service.py], over a model of the relational
    store they work on, followed by the properties of the specification
    that concern them.

    Conventions of the embedding.
    - A [datetime] is an integer ([Z]), an instant on a fixed time line;
      only its order and equality are used by the services.
    - A Python [float] is a rational ([Q]).  The services store floats,
      test them for truthiness and, in the summary, divide an integer by
      60 and compare the quotient with 9 and 10; rounding to the nearest
      double is monotone and 9 and 10 are doubles, so these comparisons
      have the same outcome on the exact quotient.
    - A table is a finite map from the primary key to the row
      ([gmap Z row]); the key a flush assigns to a new row is one more
      than the largest key of the table (a serial column).
    - An f-string message is a value of [message] that keeps the
      interpolated values.
    - Server-maintained columns ([created_at], [updated_at]) are left
      out.
    - The services are embedded twice.  First over the bare tables,
      where a flush is an insertion and nothing but the services' own
      checks can fail: this is what the properties of the order of
      positions, of overlaps, of the summary and of the fusion are stated
      on.  Then, in "The session of a request", the functions that write
      are embedded over the session of the request, with the constraints
      of the tables (foreign keys, the unique card number, the lengths of
      texts), the exception a refused flush raises, the inactive session
      it leaves and every [except] branch of the code: this is what the
      properties of failures and of the endpoints are stated on.  On
      every request whose flushes the database accepts the two agree
      ([session_agrees_with_tables]).
    - A raised exception carries no store: the caller keeps the store it
      had, as after the rollback of the request's transaction. *)

From Stdlib Require Import ZArith QArith Lia.
From Stdlib Require Strings.Byte.
From stdpp Require Import gmap strings list sorting.

#[local] Open Scope Z_scope.

(** ** Python truthiness *)

(** [if x:] on an [Optional[int]]: [None] and [0] are falsy. *)
Definition truthy_int (o : option Z) : bool :=
  match o with
  | Some n => negb (n =? 0)
  | None => false
  end.

(** [if x:] on an [Optional[float]]: [None] and [0.0] are falsy. *)
Definition truthy_float (o : option Q) : bool :=
  match o with
  | Some q => negb (Qeq_bool q 0)
  | None => false
  end.

(** ** Errors *)

(** What the database layer (SQLAlchemy over PostgreSQL) raises. *)
Inductive db_error : Type :=
  | IntegrityError (table column : string)
      (* a flush refused by a foreign key or a unique index on [column] *)
  | DataError (table column : string)
      (* a flush refused for a text longer than [column] *)
  | PendingRollbackError.
      (* a statement on a session whose transaction a refused flush has
         rolled back *)

(** The messages the services format, with the values they interpolate,
    and [str(e)] of an exception of the database layer. *)
Inductive message : Type :=
  | VehicleNotFound (vehicle_id : Z)
      (* f"Vehicle {position.vehicle_id} not found" *)
  | DriverNotFound (driver_id : Z)
      (* f"Driver {position.driver_id} not found" *)
  | ActivityOverlaps (start_time end_time : Z)
      (* f"Activity overlaps with existing activity from {..} to {..}" *)
  | DatabaseErrorText (e : db_error).

Inductive exn : Type :=
  | TelematicsServiceError (msg : message)
  | ActivityServiceError (msg : message).

(** Every exception of the code: those of the services and those of the
    database layer, which the services declare no class for. *)
Inductive exception : Type :=
  | ServiceError (e : exn)
  | DatabaseError (e : db_error).

(** [str(e)] *)
Definition str_of (e : exception) : message :=
  match e with
  | ServiceError (TelematicsServiceError msg) => msg
  | ServiceError (ActivityServiceError msg) => msg
  | DatabaseError e => DatabaseErrorText e
  end.

Inductive result (A : Type) : Type :=
  | Ok (a : A)
  | Raise (e : exn).
Arguments Ok {A} a.
Arguments Raise {A} e.

#[global] Instance result_ret : MRet result := λ A a, Ok a.

#[global] Instance result_bind : MBind result := λ A B k r,
  match r with
  | Ok a => k a
  | Raise e => Raise e
  end.

(** ** Models ([app/models]) *)

(** [WKTElement(f"POINT({lon} {lat})", srid=4326)] *)
Record Point : Type := POINT { point_lon : Q; point_lat : Q }.

Inductive VehicleStatus : Type := ACTIVE | MAINTENANCE | INACTIVE.

Module Vehicle.
Record t : Type := mk {
  registration_plate : string;
  vin : string;
  brand : string;
  model : string;
  status : VehicleStatus;
  (* real-time tracking fields *)
  last_seen : option Z;
  current_position : option Point;
  current_speed : option Q;
  current_heading : option Q;
  total_odometer : option Q
}.
End Vehicle.

Module Driver.
Record t : Type := mk {
  name : string;
  license_number : string;
  rfid_tag : option string;
  card_number : option string;
  timezone : string;
  current_vehicle_id : option Z
}.
End Driver.

Module GPSPosition.
Record t : Type := mk {
  vehicle_id : Z;
  driver_id : option Z;
  timestamp : Z;
  location : Point;
  speed : option Q;
  heading : option Q;
  odometer : option Q;
  ignition_status : bool
}.
End GPSPosition.

Inductive ActivityType : Type :=
  DRIVING | REST | WORK | AVAILABILITY | BREAK | UNKNOWN.

Inductive ActivitySource : Type := TACHOGRAPH | MANUAL | GPS_INFERRED.

#[global] Instance ActivityType_eq_dec : EqDecision ActivityType.
Proof. solve_decision. Defined.

(** One entry of the JSON list kept in [DriverActivity.raw_data]:
    [{"gps_id": gps.id, "timestamp": gps.timestamp.isoformat()}]. *)
Record gps_ref : Type := GpsRef { gps_id : Z; ref_timestamp : Z }.

Module DriverActivity.
Record t : Type := mk {
  driver_id : Z;
  vehicle_id : option Z;
  activity_type : ActivityType;
  source : ActivitySource;
  start_time : Z;
  end_time : Z;
  duration_minutes : Z;
  odometer_start : option Q;
  odometer_end : option Q;
  distance_km : option Q;
  source_file : option string;
  card_number : option string;
  (* The JSON text, decoded: [None] is NULL, [Some l] the list [l].
     The services only ever write a JSON list there. *)
  raw_data : option (list gps_ref)
}.
End DriverActivity.

(** ** The store *)

Record DB : Type := mkDB {
  vehicles : gmap Z Vehicle.t;
  drivers : gmap Z Driver.t;
  gps_positions : gmap Z GPSPosition.t;
  driver_activities : gmap Z DriverActivity.t
}.

(** The key of the next inserted row. *)
Definition max_key {A} (tbl : gmap Z A) : Z :=
  foldr Z.max 0 (map_to_list tbl).*1.

Definition next_id {A} (tbl : gmap Z A) : Z := Z.succ (max_key tbl).

(** [session.add(row)] followed by a flush: the row with its new key. *)
Definition insert_row {A} (row : A) (tbl : gmap Z A) : gmap Z A :=
  <[next_id tbl := row]> tbl.

(** ** Schemas ([app/schemas/telematics.py]) *)

Module GPSPositionCreate.
Record t : Type := mk {
  vehicle_id : Z;
  driver_id : option Z;
  lat : Q;
  lon : Q;
  speed : option Q;
  heading : option Q;
  odometer : option Q;
  ignition : option bool;
  timestamp : Z
}.
End GPSPositionCreate.

(** [str(e)] and the two prefixed forms collected by [ingest_batch]. *)
Inductive error_string : Type :=
  | Str (msg : message)
  | UnexpectedError (msg : message)
  | FailedToUpdateVehicle (vehicle_id : Z) (msg : message).

Record IngestionStats : Type := mkStats {
  total_received : nat;
  successfully_processed : nat;
  failed : nat;
  errors : list error_string
}.

(** [GPSPositionBatch.positions]: [min_length=1, max_length=1000]. *)
Definition GPSPositionBatch_valid (positions : list GPSPositionCreate.t) : bool :=
  bool_decide (1 ≤ length positions ≤ 1000)%nat.

(** ** TelematicsService ([app/services/telematics_service.py])

    Over the tables: every flush is accepted, so only
    [TelematicsServiceError] is ever raised.  The same functions over the
    session, where a flush can be refused, are in [SessionTelematics]. *)

Module TelematicsService.

Definition _get_vehicle (db : DB) (vehicle_id : Z) : option Vehicle.t :=
  vehicles db !! vehicle_id.

Definition _get_driver (db : DB) (driver_id : Z) : option Driver.t :=
  drivers db !! driver_id.

(** [if vehicle.last_seen and position.timestamp <= vehicle.last_seen] *)
Definition is_stale (vehicle : Vehicle.t) (position : GPSPositionCreate.t) : bool :=
  match Vehicle.last_seen vehicle with
  | Some seen => GPSPositionCreate.timestamp position <=? seen
  | None => false
  end.

Definition _update_vehicle_position
    (vehicle : Vehicle.t) (position : GPSPositionCreate.t) : Vehicle.t :=
  if is_stale vehicle position then vehicle
  else
    Vehicle.mk
      (Vehicle.registration_plate vehicle) (Vehicle.vin vehicle)
      (Vehicle.brand vehicle) (Vehicle.model vehicle) (Vehicle.status vehicle)
      (Some (GPSPositionCreate.timestamp position))
      (Some (POINT (GPSPositionCreate.lon position) (GPSPositionCreate.lat position)))
      (GPSPositionCreate.speed position)
      (GPSPositionCreate.heading position)
      (if truthy_float (GPSPositionCreate.odometer position)
       then GPSPositionCreate.odometer position
       else Vehicle.total_odometer vehicle).

(** The row built from the incoming position. *)
Definition gps_row (position : GPSPositionCreate.t) : GPSPosition.t :=
  GPSPosition.mk
    (GPSPositionCreate.vehicle_id position)
    (GPSPositionCreate.driver_id position)
    (GPSPositionCreate.timestamp position)
    (POINT (GPSPositionCreate.lon position) (GPSPositionCreate.lat position))
    (GPSPositionCreate.speed position)
    (GPSPositionCreate.heading position)
    (GPSPositionCreate.odometer position)
    (default false (GPSPositionCreate.ignition position)).

(** The driver check: skipped when [position.driver_id] is falsy. *)
Definition check_driver (db : DB) (position : GPSPositionCreate.t) : result unit :=
  if truthy_int (GPSPositionCreate.driver_id position) then
    match GPSPositionCreate.driver_id position with
    | Some d =>
        match _get_driver db d with
        | Some _ => Ok ()
        | None => Raise (TelematicsServiceError (DriverNotFound d))
        end
    | None => Ok ()
    end
  else Ok ().

(** The result is the store after the flush and the new row with the key
    it was given ([refresh]). *)
Definition ingest_position
    (db : DB) (position : GPSPositionCreate.t) (update_vehicle : bool)
    : result (DB * (Z * GPSPosition.t)) :=
  match _get_vehicle db (GPSPositionCreate.vehicle_id position) with
  | None =>
      Raise (TelematicsServiceError
               (VehicleNotFound (GPSPositionCreate.vehicle_id position)))
  | Some vehicle =>
      _ ← check_driver db position;
      let gps_position := gps_row position in
      let id := next_id (gps_positions db) in
      let vehicles' :=
        if update_vehicle
        then <[GPSPositionCreate.vehicle_id position :=
                 _update_vehicle_position vehicle position]> (vehicles db)
        else vehicles db in
      Ok (mkDB vehicles' (drivers db)
            (insert_row gps_position (gps_positions db))
            (driver_activities db),
          (id, gps_position))
  end.

(** [vehicle_latest]: a Python dict, which keeps insertion order and
    leaves a key in place when its value is replaced. *)
Fixpoint dict_get {V} (k : Z) (d : list (Z * V)) : option V :=
  match d with
  | [] => None
  | (k', v) :: d' => if decide (k = k') then Some v else dict_get k d'
  end.

Fixpoint dict_set {V} (k : Z) (v : V) (d : list (Z * V)) : list (Z * V) :=
  match d with
  | [] => [(k, v)]
  | (k', v') :: d' =>
      if decide (k = k') then (k, v) :: d' else (k', v') :: dict_set k v d'
  end.

(** "Track latest position per vehicle": the first statement of the
    [try] block. *)
Definition track_latest
    (vehicle_latest : list (Z * GPSPositionCreate.t))
    (position : GPSPositionCreate.t) : list (Z * GPSPositionCreate.t) :=
  match dict_get (GPSPositionCreate.vehicle_id position) vehicle_latest with
  | None => dict_set (GPSPositionCreate.vehicle_id position) position vehicle_latest
  | Some current_latest =>
      if GPSPositionCreate.timestamp current_latest
           <? GPSPositionCreate.timestamp position
      then dict_set (GPSPositionCreate.vehicle_id position) position vehicle_latest
      else vehicle_latest
  end.

Record batch_state : Type := mkBatch {
  batch_db : DB;
  batch_stats : IngestionStats;
  batch_latest : list (Z * GPSPositionCreate.t)
}.

(** The body of the first loop of [ingest_batch]. *)
Definition batch_step (st : batch_state) (position : GPSPositionCreate.t)
    : batch_state :=
  let stats := batch_stats st in
  let vehicle_latest := track_latest (batch_latest st) position in
  match ingest_position (batch_db st) position false with
  | Ok (db', _) =>
      mkBatch db'
        (mkStats (total_received stats) (S (successfully_processed stats))
           (failed stats) (errors stats))
        vehicle_latest
  | Raise (TelematicsServiceError msg) =>
      mkBatch (batch_db st)
        (mkStats (total_received stats) (successfully_processed stats)
           (S (failed stats)) (errors stats ++ [Str msg]))
        vehicle_latest
  | Raise (ActivityServiceError msg) =>
      mkBatch (batch_db st)
        (mkStats (total_received stats) (successfully_processed stats)
           (S (failed stats)) (errors stats ++ [UnexpectedError msg]))
        vehicle_latest
  end.

(** The body of the second loop: one state update per tracked vehicle. *)
Definition apply_latest (db : DB) (item : Z * GPSPositionCreate.t) : DB :=
  match _get_vehicle db item.1 with
  | Some vehicle =>
      mkDB (<[item.1 := _update_vehicle_position vehicle item.2]> (vehicles db))
        (drivers db) (gps_positions db) (driver_activities db)
  | None => db
  end.

(** Over the tables nothing in the second loop raises, so its [except]
    branch adds no error string. *)
Definition ingest_batch (db : DB) (positions : list GPSPositionCreate.t)
    : DB * IngestionStats :=
  let stats := mkStats (length positions) 0 0 [] in
  let st := foldl batch_step (mkBatch db stats []) positions in
  (foldl apply_latest (batch_db st) (batch_latest st), batch_stats st).

End TelematicsService.

(** Calls of the position ingestor over the tables, as the API layer
    makes them ([app/api/telematics.py]): a failed single ingestion
    leaves the store as it was. *)
Inductive ingest_call : Type :=
  | IngestOne (position : GPSPositionCreate.t)
  | IngestBatch (positions : list GPSPositionCreate.t).

Definition run_call (db : DB) (c : ingest_call) : DB :=
  match c with
  | IngestOne position =>
      match TelematicsService.ingest_position db position true with
      | Ok (db', _) => db'
      | Raise _ => db
      end
  | IngestBatch positions => (TelematicsService.ingest_batch db positions).1
  end.

Definition run_calls (db : DB) (cs : list ingest_call) : DB :=
  foldl run_call db cs.

(** ** Schemas ([app/schemas/tachograph.py]) *)

Module ActivityRecord.
Record t : Type := mk {
  activity_type : ActivityType;
  start_time : Z;
  end_time : Z;
  duration_minutes : Z;
  odometer_start : option Q;
  odometer_end : option Q;
  distance_km : option Q
}.
End ActivityRecord.

Module TachographParseResult.
Record t : Type := mk {
  success : bool;
  card_number : option string;
  driver_name : option string;
  vehicle_registration : option string;
  activities : list ActivityRecord.t;
  total_driving_minutes : Z;
  total_rest_minutes : Z;
  total_work_minutes : Z;
  errors : list string;
  warnings : list string
}.
End TachographParseResult.

Module DriverActivityCreate.
Record t : Type := mk {
  driver_id : Z;
  vehicle_id : option Z;
  activity_type : ActivityType;
  source : ActivitySource;
  start_time : Z;
  end_time : Z;
  duration_minutes : Z;
  odometer_start : option Q;
  odometer_end : option Q;
  distance_km : option Q;
  source_file : option string;
  card_number : option string
}.
End DriverActivityCreate.

(** The two violation messages of the summary, with the hours they print
    ([{daily_driving_hours:.1f}]). *)
Inductive violation : Type :=
  | ExceededMaximumDailyDrivingLimit (hours : Q)
      (* f"Exceeded maximum daily driving limit: {h:.1f}h" *)
  | ExtendedDailyDriving (hours : Q).
      (* f"Extended daily driving: {h:.1f}h (max 2x/week)" *)

Module ActivitySummary.
Record t : Type := mk {
  driver_id : Z;
  driver_name : string;
  period_start : Z;
  period_end : Z;
  total_driving_hours : Q;
  total_rest_hours : Q;
  total_work_hours : Q;
  total_distance_km : Q;
  violations : list violation
}.
End ActivitySummary.

(** ** ActivityService ([app/services/activity_service.py])

    Over the tables, as [TelematicsService] above; the bulk storage over
    the session is in [SessionActivity]. *)

Module ActivityService.

Definition with_activities (db : DB) (tbl : gmap Z DriverActivity.t) : DB :=
  mkDB (vehicles db) (drivers db) (gps_positions db) tbl.

(** The [where] clause of [_find_overlapping_activity]. *)
Definition overlaps (driver_id start_time end_time : Z)
    (row : DriverActivity.t) : Prop :=
  DriverActivity.driver_id row = driver_id
  ∧ DriverActivity.start_time row < end_time
  ∧ start_time < DriverActivity.end_time row.

#[global] Instance overlaps_dec d s e row : Decision (overlaps d s e row).
Proof. unfold overlaps. apply _. Defined.

(** [select(...).where(...).limit(1)] has no [ORDER BY]: the row taken
    is the first the table enumerates. *)
Definition _find_overlapping_activity
    (db : DB) (driver_id start_time end_time : Z)
    : option (Z * DriverActivity.t) :=
  head (filter (λ kr, overlaps driver_id start_time end_time kr.2)
          (map_to_list (driver_activities db))).

(** The row made from the dumped fields of [activity_data]. *)
Definition activity_of_create (data : DriverActivityCreate.t) : DriverActivity.t :=
  DriverActivity.mk
    (DriverActivityCreate.driver_id data)
    (DriverActivityCreate.vehicle_id data)
    (DriverActivityCreate.activity_type data)
    (DriverActivityCreate.source data)
    (DriverActivityCreate.start_time data)
    (DriverActivityCreate.end_time data)
    (DriverActivityCreate.duration_minutes data)
    (DriverActivityCreate.odometer_start data)
    (DriverActivityCreate.odometer_end data)
    (DriverActivityCreate.distance_km data)
    (DriverActivityCreate.source_file data)
    (DriverActivityCreate.card_number data)
    None.

Definition create_activity (db : DB) (activity_data : DriverActivityCreate.t)
    : result (DB * (Z * DriverActivity.t)) :=
  match _find_overlapping_activity db
          (DriverActivityCreate.driver_id activity_data)
          (DriverActivityCreate.start_time activity_data)
          (DriverActivityCreate.end_time activity_data) with
  | Some existing =>
      Raise (ActivityServiceError
               (ActivityOverlaps (DriverActivity.start_time existing.2)
                  (DriverActivity.end_time existing.2)))
  | None =>
      let activity := activity_of_create activity_data in
      Ok (with_activities db (insert_row activity (driver_activities db)),
          (next_id (driver_activities db), activity))
  end.

(** *** Bulk storage of extracted records *)

(** The row [store_activities_from_tachograph] builds for a record. *)
Definition new_activity
    (driver_id : Z) (vehicle_id : option Z) (source_file : string)
    (card_number : option string) (activity : ActivityRecord.t)
    : DriverActivity.t :=
  DriverActivity.mk driver_id vehicle_id
    (ActivityRecord.activity_type activity)
    TACHOGRAPH
    (ActivityRecord.start_time activity)
    (ActivityRecord.end_time activity)
    (ActivityRecord.duration_minutes activity)
    (ActivityRecord.odometer_start activity)
    (ActivityRecord.odometer_end activity)
    (ActivityRecord.distance_km activity)
    (Some source_file)
    card_number
    None.

(** [existing.start_time == activity.start_time and ...] *)
Definition is_exact_duplicate
    (existing : DriverActivity.t) (activity : ActivityRecord.t) : bool :=
  bool_decide (DriverActivity.start_time existing = ActivityRecord.start_time activity)
  && bool_decide (DriverActivity.end_time existing = ActivityRecord.end_time activity)
  && bool_decide (DriverActivity.activity_type existing
                  = ActivityRecord.activity_type activity).

(** Rows added to the session reach the table at a flush. *)
Definition flush_pending
    (tbl : gmap Z DriverActivity.t) (pending : list DriverActivity.t)
    : gmap Z DriverActivity.t :=
  foldl (λ t row, insert_row row t) tbl pending.

Record store_state : Type := mkStore {
  store_db : DB;
  store_pending : list DriverActivity.t;   (* added, not yet flushed *)
  created : nat;
  skipped : nat
}.

Section store.
(** The session factory ([app/database.py]) is not part of the
    sources at hand; whether its sessions flush pending rows before
    each query is taken as a parameter.  (The test sessions of
    [app/tests/conftest.py] are made with [autoflush=False].) *)
Variable autoflush : bool.

Variables (driver_id : Z) (vehicle_id : option Z)
          (source_file : string) (card_number : option string).

(** What the overlap query of the next iteration runs on. *)
Definition before_query (st : store_state) : DB * list DriverActivity.t :=
  if autoflush
  then (with_activities (store_db st)
          (flush_pending (driver_activities (store_db st)) (store_pending st)),
        [])
  else (store_db st, store_pending st).

(** The body of the loop over [parse_result.activities]. *)
Definition store_step (st : store_state) (activity : ActivityRecord.t)
    : store_state :=
  let '(db, pending) := before_query st in
  match _find_overlapping_activity db driver_id
          (ActivityRecord.start_time activity)
          (ActivityRecord.end_time activity) with
  | Some existing =>
      if is_exact_duplicate existing.2 activity
      then mkStore db pending (created st) (S (skipped st))
      else mkStore db pending (created st) (S (skipped st))
  | None =>
      mkStore db
        (pending ++ [new_activity driver_id vehicle_id source_file
                       card_number activity])
        (S (created st)) (skipped st)
  end.

Definition store_loop (db : DB) (records : list ActivityRecord.t)
    : store_state :=
  foldl store_step (mkStore db [] 0 0) records.

Definition finish_store (st : store_state) : DB * (nat * nat) :=
  (if bool_decide (0 < created st)%nat
   then with_activities (store_db st)
          (flush_pending (driver_activities (store_db st)) (store_pending st))
   else store_db st,
   (created st, skipped st)).
End store.

Definition store_activities_from_tachograph
    (autoflush : bool) (db : DB) (driver_id : Z)
    (parse_result : TachographParseResult.t) (source_file : string)
    (vehicle_id : option Z) : DB * (nat * nat) :=
  finish_store
    (store_loop autoflush driver_id vehicle_id source_file
       (TachographParseResult.card_number parse_result)
       db (TachographParseResult.activities parse_result)).

(** *** Queries *)

(** [order_by(DriverActivity.start_time.desc())] *)
Definition start_desc (x y : Z * DriverActivity.t) : Prop :=
  DriverActivity.start_time y.2 ≤ DriverActivity.start_time x.2.

#[global] Instance start_desc_dec x y : Decision (start_desc x y).
Proof. unfold start_desc. apply _. Defined.

Definition get_driver_activities
    (db : DB) (driver_id : Z) (start_date end_date : option Z)
    (activity_type : option ActivityType) : list (Z * DriverActivity.t) :=
  let query :=
    filter (λ kr, DriverActivity.driver_id kr.2 = driver_id)
      (map_to_list (driver_activities db)) in
  let query :=
    match start_date with
    | Some s => filter (λ kr, s ≤ DriverActivity.start_time kr.2) query
    | None => query
    end in
  let query :=
    match end_date with
    | Some e => filter (λ kr, DriverActivity.end_time kr.2 ≤ e) query
    | None => query
    end in
  let query :=
    match activity_type with
    | Some ty => filter (λ kr, DriverActivity.activity_type kr.2 = ty) query
    | None => query
    end in
  merge_sort start_desc query.

(** *** Summary *)

Definition sum_minutes (P : ActivityType → bool)
    (activities : list (Z * DriverActivity.t)) : Z :=
  foldl Z.add 0
    (DriverActivity.duration_minutes <$>
       filter (λ a, P (DriverActivity.activity_type a) = true) activities.*2).

Definition is_driving (ty : ActivityType) : bool :=
  match ty with DRIVING => true | _ => false end.
Definition is_rest_or_break (ty : ActivityType) : bool :=
  match ty with REST | BREAK => true | _ => false end.
Definition is_work (ty : ActivityType) : bool :=
  match ty with WORK => true | _ => false end.

(** [driving_minutes / 60] *)
Definition hours (minutes : Z) : Q := (inject_Z minutes / 60)%Q.

(** [x > y] on the quotient *)
Definition Qgtb (x y : Q) : bool := negb (Qle_bool x y).

Definition check_violations (driving_minutes : Z) : list violation :=
  let daily_driving_hours := hours driving_minutes in
  if Qgtb daily_driving_hours 10
  then [ExceededMaximumDailyDrivingLimit daily_driving_hours]
  else if Qgtb daily_driving_hours 9
  then [ExtendedDailyDriving daily_driving_hours]
  else [].

Definition get_activity_summary (db : DB) (driver_id start_date end_date : Z)
    : result ActivitySummary.t :=
  match drivers db !! driver_id with
  | None => Raise (ActivityServiceError (DriverNotFound driver_id))
  | Some driver =>
      let activities :=
        get_driver_activities db driver_id (Some start_date) (Some end_date) None in
      let driving_minutes := sum_minutes is_driving activities in
      let rest_minutes := sum_minutes is_rest_or_break activities in
      let work_minutes := sum_minutes is_work activities in
      let distance :=
        foldl Qplus 0%Q
          ((λ a, if truthy_float (DriverActivity.distance_km a)
                 then default 0%Q (DriverActivity.distance_km a) else 0%Q)
             <$> activities.*2) in
      Ok (ActivitySummary.mk driver_id (Driver.name driver) start_date end_date
            (hours driving_minutes) (hours rest_minutes) (hours work_minutes)
            distance (check_violations driving_minutes))
  end.

(** *** Fusion of GPS positions with activities *)

(** [activity.start_time <= gps.timestamp <= activity.end_time] *)
Definition contains (ts : Z) (activity : DriverActivity.t) : Prop :=
  DriverActivity.start_time activity ≤ ts ≤ DriverActivity.end_time activity.

#[global] Instance contains_dec ts activity : Decision (contains ts activity).
Proof. unfold contains. apply _. Defined.

Definition ref_of (gps : Z * GPSPosition.t) : gps_ref :=
  GpsRef gps.1 (GPSPosition.timestamp gps.2).

Definition set_raw_data (activity : DriverActivity.t)
    (raw : option (list gps_ref)) : DriverActivity.t :=
  DriverActivity.mk
    (DriverActivity.driver_id activity) (DriverActivity.vehicle_id activity)
    (DriverActivity.activity_type activity) (DriverActivity.source activity)
    (DriverActivity.start_time activity) (DriverActivity.end_time activity)
    (DriverActivity.duration_minutes activity)
    (DriverActivity.odometer_start activity)
    (DriverActivity.odometer_end activity)
    (DriverActivity.distance_km activity)
    (DriverActivity.source_file activity)
    (DriverActivity.card_number activity)
    raw.

(** The body of the [if]: load the list (an absent one is [[]]),
    append the reference, store it back. *)
Definition append_ref (activity : DriverActivity.t) (gps : Z * GPSPosition.t)
    : DriverActivity.t :=
  set_raw_data activity
    (Some (default [] (DriverActivity.raw_data activity) ++ [ref_of gps])).

(** The inner loop: the loaded activities are objects of the session,
    modified in place; the scan stops at the first match ([break]).
    [None] when no activity matches. *)
Fixpoint attach (gps : Z * GPSPosition.t)
    (activities : list (Z * DriverActivity.t))
    : option (list (Z * DriverActivity.t)) :=
  match activities with
  | [] => None
  | activity :: rest =>
      if decide (contains (GPSPosition.timestamp gps.2) activity.2)
      then Some ((activity.1, append_ref activity.2 gps) :: rest)
      else cons activity <$> attach gps rest
  end.

(** The body of the outer loop. *)
Definition fuse_step (st : list (Z * DriverActivity.t) * nat)
    (gps : Z * GPSPosition.t) : list (Z * DriverActivity.t) * nat :=
  match attach gps st.1 with
  | Some activities => (activities, S st.2)
  | None => st
  end.

(** The flush writes the loaded objects back under their keys. *)
Definition flush_loaded (tbl : gmap Z DriverActivity.t)
    (activities : list (Z * DriverActivity.t)) : gmap Z DriverActivity.t :=
  foldl (λ t kr, <[kr.1 := kr.2]> t) tbl activities.

(** The GPS query of [fuse_gps_with_activities]. *)
Definition select_gps_positions (db : DB) (driver_id start_time end_time : Z)
    : list (Z * GPSPosition.t) :=
  filter (λ kr, GPSPosition.driver_id kr.2 = Some driver_id
                ∧ start_time ≤ GPSPosition.timestamp kr.2
                ∧ GPSPosition.timestamp kr.2 ≤ end_time)
    (map_to_list (gps_positions db)).

(** The two loops and the final flush, on what was loaded. *)
Definition associate (db : DB) (activities : list (Z * DriverActivity.t))
    (gps_positions : list (Z * GPSPosition.t)) : DB * nat :=
  let '(activities', associated_count) :=
    foldl fuse_step (activities, 0%nat) gps_positions in
  (if bool_decide (0 < associated_count)%nat
   then with_activities db (flush_loaded (driver_activities db) activities')
   else db,
   associated_count).

Definition fuse_gps_with_activities (db : DB) (driver_id start_time end_time : Z)
    : DB * nat :=
  let activities :=
    get_driver_activities db driver_id (Some start_time) (Some end_time) None in
  match activities with
  | [] => (db, 0%nat)
  | _ =>
      associate db activities
        (select_gps_positions db driver_id start_time end_time)
  end.

End ActivityService.

(** * Vocabulary of the properties

    Predicates and functions the statements below are written with; none
    of them is part of the code. *)

(** ** Position ingestor *)

(** [last_seen] of every vehicle of [m] is still set, and no smaller,
    in [m']. *)
Definition seen_le (m m' : gmap Z Vehicle.t) : Prop :=
  ∀ v veh t, m !! v = Some veh → Vehicle.last_seen veh = Some t →
    ∃ veh' t', m' !! v = Some veh' ∧ Vehicle.last_seen veh' = Some t' ∧ t ≤ t'.

(** The store after a successful [ingest_position] for vehicle row [veh]. *)
Definition after_ingest (db : DB) (p : GPSPositionCreate.t)
    (update_vehicle : bool) (veh : Vehicle.t) : DB :=
  mkDB
    (if update_vehicle
     then <[GPSPositionCreate.vehicle_id p :=
              TelematicsService._update_vehicle_position veh p]> (vehicles db)
     else vehicles db)
    (drivers db)
    (insert_row (TelematicsService.gps_row p) (gps_positions db))
    (driver_activities db).

(** Whether a position passes the two checks of [ingest_position]; it
    depends on the keys of the vehicle and driver tables only. *)
Definition accepted (db : DB) (p : GPSPositionCreate.t) : bool :=
  match TelematicsService.ingest_position db p false with
  | Ok _ => true
  | Raise _ => false
  end.

(** The table after the rows of the positions [ps] have been inserted, in
    order. *)
Definition insert_positions (tbl : gmap Z GPSPosition.t)
    (ps : list GPSPositionCreate.t) : gmap Z GPSPosition.t :=
  foldl (λ t p, insert_row (TelematicsService.gps_row p) t) tbl ps.

(** The error string a rejected position leaves in the statistics. *)
Definition batch_error (db : DB) (p : GPSPositionCreate.t) : option error_string :=
  match TelematicsService.ingest_position db p false with
  | Ok _ => None
  | Raise (TelematicsServiceError msg) => Some (Str msg)
  | Raise (ActivityServiceError msg) => Some (UnexpectedError msg)
  end.

(** What the first loop of [ingest_batch] keeps for vehicle [v]: the first
    position of greatest timestamp among those received for [v]. *)
Definition later_of (v : Z) (cur : option GPSPositionCreate.t)
    (p : GPSPositionCreate.t) : option GPSPositionCreate.t :=
  if decide (GPSPositionCreate.vehicle_id p = v) then
    match cur with
    | None => Some p
    | Some c =>
        if GPSPositionCreate.timestamp c <? GPSPositionCreate.timestamp p
        then Some p else Some c
    end
  else cur.

(** ** Activity store *)

(** The rows a query over the table sees, as a list. *)
Definition rows_of (tbl : gmap Z DriverActivity.t) : list DriverActivity.t :=
  (map_to_list tbl).*2.

(** The overlap test of the data model between two stored rows. *)
Definition rows_overlap (existing candidate : DriverActivity.t) : Prop :=
  ActivityService.overlaps (DriverActivity.driver_id candidate)
    (DriverActivity.start_time candidate) (DriverActivity.end_time candidate)
    existing.

(** No two rows of the same driver overlap. *)
Definition no_overlap (tbl : gmap Z DriverActivity.t) : Prop :=
  ∀ k1 k2 r1 r2, k1 ≠ k2 → tbl !! k1 = Some r1 → tbl !! k2 = Some r2 →
    ¬ rows_overlap r1 r2.

(** A call of [create_activity]; when it raises, the store stays as it
    was. *)
Definition run_create (db : DB) (data : DriverActivityCreate.t) : DB :=
  match ActivityService.create_activity db data with
  | Ok (db', _) => db'
  | Raise _ => db
  end.

Definition run_creates (db : DB) (datas : list DriverActivityCreate.t) : DB :=
  foldl run_create db datas.

(** A record overlaps one of the rows [vis], for the driver. *)
Definition overlaps_any (driver_id : Z) (vis : list DriverActivity.t)
    (r : ActivityRecord.t) : Prop :=
  Exists (ActivityService.overlaps driver_id
            (ActivityRecord.start_time r) (ActivityRecord.end_time r))
    vis.

(** The rule of the bulk path, record by record: a record that overlaps a
    visible row is skipped, another one is kept; with [autoflush] the rows
    kept earlier in the call are visible too. *)
Fixpoint kept_records (autoflush : bool) (driver_id : Z) (vehicle_id : option Z)
    (source_file : string) (card_number : option string)
    (vis : list DriverActivity.t) (records : list ActivityRecord.t)
    : list ActivityRecord.t :=
  match records with
  | [] => []
  | r :: records' =>
      if decide (overlaps_any driver_id vis r)
      then kept_records autoflush driver_id vehicle_id source_file card_number
             vis records'
      else
        r :: kept_records autoflush driver_id vehicle_id source_file card_number
               (if autoflush
                then vis ++ [ActivityService.new_activity driver_id vehicle_id
                               source_file card_number r]
                else vis)
               records'
  end.

(** [vis] lists the rows of [tbl]. *)
Definition lists_rows (vis : list DriverActivity.t)
    (tbl : gmap Z DriverActivity.t) : Prop :=
  ∀ row, row ∈ vis ↔ ∃ k, tbl !! k = Some row.

(** The table the overlap query of the next iteration runs on. *)
Definition queried (autoflush : bool) (st : ActivityService.store_state)
    : gmap Z DriverActivity.t :=
  driver_activities (ActivityService.before_query autoflush st).1.

(** The table a flush of the state gives. *)
Definition flushed (st : ActivityService.store_state) : gmap Z DriverActivity.t :=
  ActivityService.flush_pending
    (driver_activities (ActivityService.store_db st))
    (ActivityService.store_pending st).

(** The rows that count as the stored form of a record. *)
Definition matches (d : Z) (r : ActivityRecord.t) (row : DriverActivity.t) : Prop :=
  DriverActivity.driver_id row = d
  ∧ DriverActivity.activity_type row = ActivityRecord.activity_type r
  ∧ DriverActivity.start_time row = ActivityRecord.start_time r
  ∧ DriverActivity.end_time row = ActivityRecord.end_time r.

#[global] Instance matches_dec d r row : Decision (matches d r row).
Proof. unfold matches. apply _. Defined.

(** ** Compliance summary *)

Definition is_hard (v : violation) : Prop :=
  match v with ExceededMaximumDailyDrivingLimit _ => True | _ => False end.

Definition is_soft (v : violation) : Prop :=
  match v with ExtendedDailyDriving _ => True | _ => False end.

(** The stored activity belongs to the driver and lies within the
    period. *)
Definition within_period (driver_id start_date end_date : Z)
    (row : DriverActivity.t) : Prop :=
  DriverActivity.driver_id row = driver_id
  ∧ start_date ≤ DriverActivity.start_time row
  ∧ DriverActivity.end_time row ≤ end_date.

#[global] Instance within_period_dec d s e row : Decision (within_period d s e row).
Proof. unfold within_period. apply _. Defined.

(** The total driving minutes as the specification words them: over the
    stored activities of the driver within the period, the sum of the
    durations of those of type DRIVING. *)
Definition spec_driving_minutes (db : DB) (driver_id start_date end_date : Z) : Z :=
  foldr Z.add 0
    (DriverActivity.duration_minutes <$>
       filter (λ row, within_period driver_id start_date end_date row
                      ∧ DriverActivity.activity_type row = DRIVING)
         (rows_of (driver_activities db))).

(** ** Fusion *)

#[global] Instance start_desc_trans : Transitive ActivityService.start_desc.
Proof. unfold ActivityService.start_desc. intros x y z ??. lia. Qed.

#[global] Instance start_desc_total : Total ActivityService.start_desc.
Proof. unfold ActivityService.start_desc. intros x y. lia. Qed.

(** The key of the first scanned activity whose bounds contain [ts]. *)
Definition first_match (ts : Z) (acts : list (Z * DriverActivity.t)) : option Z :=
  fst <$> head (filter (λ kr, ActivityService.contains ts kr.2) acts).

(** The references of the positions of [gpss] whose first match is [k]. *)
Definition refs_for (acts : list (Z * DriverActivity.t)) (k : Z)
    (gpss : list (Z * GPSPosition.t)) : list gps_ref :=
  ActivityService.ref_of <$>
    filter (λ g, first_match (GPSPosition.timestamp g.2) acts = Some k) gpss.

(** A row with references appended to its annotation list; without any,
    the row as it is. *)
Definition add_refs (refs : list gps_ref) (row : DriverActivity.t)
    : DriverActivity.t :=
  match refs with
  | [] => row
  | _ =>
      ActivityService.set_raw_data row
        (Some (default [] (DriverActivity.raw_data row) ++ refs))
  end.

(** The loaded activities after the positions [gpss] have been scanned. *)
Definition annotated (acts : list (Z * DriverActivity.t))
    (gpss : list (Z * GPSPosition.t)) : list (Z * DriverActivity.t) :=
  (λ kr, (kr.1, add_refs (refs_for acts kr.1 gpss) kr.2)) <$> acts.

(** The positions of [gpss] that some loaded activity contains. *)
Definition matched (acts : list (Z * DriverActivity.t))
    (gpss : list (Z * GPSPosition.t)) : list (Z * GPSPosition.t) :=
  filter (λ g, is_Some (first_match (GPSPosition.timestamp g.2) acts)) gpss.

(** The interval of the row meets the window [[s, e]]. *)
Definition intersects (s e : Z) (row : DriverActivity.t) : Prop :=
  DriverActivity.start_time row ≤ e ∧ s ≤ DriverActivity.end_time row.

(** Two records overlap, by the test of the store. *)
Definition records_overlap (r1 r2 : ActivityRecord.t) : Prop :=
  ActivityRecord.start_time r1 < ActivityRecord.end_time r2
  ∧ ActivityRecord.start_time r2 < ActivityRecord.end_time r1.

(** * Around the services

    The functions of the service files that read the vehicle state, the
    schema checks, the role checks and the endpoints that call the
    services, the retention task and the schedule the parser produces.

    From here on the clock matters: an instant is counted in microseconds
    (the resolution of [datetime]), so the difference of two instants is
    the [timedelta] between them, and [datetime.now] is a parameter [now]
    of whatever reads the clock. *)

(** [timedelta(minutes=m)] and [timedelta(days=d)] *)
Definition timedelta_minutes (m : Z) : Z := m * 60000000.
Definition timedelta_days (d : Z) : Z := d * 86400000000.

(** ** [Vehicle.is_online] ([app/models/vehicle.py]) *)

Module VehicleModel.
Definition is_online (now : Z) (vehicle : Vehicle.t) : bool :=
  match Vehicle.last_seen vehicle with
  | None => false
  | Some seen => bool_decide (now - seen < timedelta_minutes 5)
  end.
End VehicleModel.

(** ** The status queries of TelematicsService *)

(** The dictionary a status query builds.  The one of
    [get_all_vehicles_status] has no ["current_heading"] key:
    [current_heading] is [None] there, and [Some h] when the key is
    present with value [h]. *)
Module VehicleStatusDict.
Record t : Type := mk {
  id : Z;
  registration_plate : string;
  brand : string;
  model : string;
  status : VehicleStatus;
  is_online : bool;
  last_seen : option Z;
  current_speed : option Q;
  current_heading : option (option Q)
}.
End VehicleStatusDict.

Record OnlineCount : Type := mkOnlineCount {
  count_total : Z;
  count_online : Z;
  count_offline : Z
}.

Module TelematicsStatus.

Definition get_vehicle_status (db : DB) (now : Z) (vehicle_id : Z)
    : option VehicleStatusDict.t :=
  match TelematicsService._get_vehicle db vehicle_id with
  | None => None
  | Some vehicle =>
      Some (VehicleStatusDict.mk vehicle_id
              (Vehicle.registration_plate vehicle) (Vehicle.brand vehicle)
              (Vehicle.model vehicle) (Vehicle.status vehicle)
              (VehicleModel.is_online now vehicle)
              (Vehicle.last_seen vehicle) (Vehicle.current_speed vehicle)
              (Some (Vehicle.current_heading vehicle)))
  end.

(** [select(Vehicle)] has no [ORDER BY]: the rows come as the table
    enumerates them. *)
Definition get_all_vehicles_status (db : DB) (now : Z)
    : list VehicleStatusDict.t :=
  (λ kv : Z * Vehicle.t,
     VehicleStatusDict.mk kv.1
       (Vehicle.registration_plate kv.2) (Vehicle.brand kv.2)
       (Vehicle.model kv.2) (Vehicle.status kv.2)
       (VehicleModel.is_online now kv.2)
       (Vehicle.last_seen kv.2) (Vehicle.current_speed kv.2)
       None)
  <$> map_to_list (vehicles db).

Definition get_online_vehicles_count (db : DB) (now : Z) : OnlineCount :=
  let vehicles := (map_to_list (vehicles db)).*2 in
  let online :=
    Z.of_nat (length (filter (λ v, VehicleModel.is_online now v = true) vehicles)) in
  let offline := Z.of_nat (length vehicles) - online in
  mkOnlineCount (Z.of_nat (length vehicles)) online offline.

End TelematicsStatus.

(** ** The checks of [GPSPositionCreate] ([app/schemas/telematics.py]) *)

Module GPSPositionSchema.

(** [Field(..., ge=lo, le=hi)] on a float *)
Definition ge_le (lo hi : Z) (q : Q) : bool :=
  Qle_bool (inject_Z lo) q && Qle_bool q (inject_Z hi).

(** [Field(None, ge=0)] and [Field(None, ge=0, le=360)]: [None] passes *)
Definition opt_ge (lo : Z) (o : option Q) : bool :=
  match o with
  | None => true
  | Some q => Qle_bool (inject_Z lo) q
  end.

Definition opt_ge_le (lo hi : Z) (o : option Q) : bool :=
  match o with
  | None => true
  | Some q => ge_le lo hi q
  end.

(** [validate_timestamp]: raises when [v > now + timedelta(minutes=1)] *)
Definition validate_timestamp (now v : Z) : bool :=
  negb (now + timedelta_minutes 1 <? v).

(** Whether the model accepts the values: every field constraint and the
    timestamp validator. *)
Definition validate (now : Z) (p : GPSPositionCreate.t) : bool :=
  ge_le (-90) 90 (GPSPositionCreate.lat p)
  && ge_le (-180) 180 (GPSPositionCreate.lon p)
  && opt_ge 0 (GPSPositionCreate.speed p)
  && opt_ge_le 0 360 (GPSPositionCreate.heading p)
  && opt_ge 0 (GPSPositionCreate.odometer p)
  && validate_timestamp now (GPSPositionCreate.timestamp p).

End GPSPositionSchema.

(** ** Roles ([app/models/user.py], [app/core/rbac.py], [app/api/deps.py]) *)

Inductive UserRole : Type := ADMIN | RH | VIEWER.

#[global] Instance UserRole_eq_dec : EqDecision UserRole.
Proof. solve_decision. Defined.

Module User.
Record t : Type := mk {
  email : string;
  role : UserRole;
  is_active : bool
}.
End User.

(** What an endpoint answers with when it does not return. *)
Inductive http_detail : Type :=
  | InsufficientPermissions (required_permission : string) (role : UserRole)
      (* f"Insufficient permissions. Required: {..}. Your role: {..}" *)
  | AccessDenied (allowed_roles : list UserRole)
      (* f"Access denied. Required roles: {..}" *)
  | AuthenticationRequired
  | CouldNotValidateCredentials
  | UserAccountDisabled
  | Detail (msg : message).
      (* str(e) of a service error *)

Inductive api_error : Type :=
  | HTTPException (status_code : Z) (detail : http_detail)
  | FieldRequired (field : string)
      (* pydantic's ValidationError for a missing required field *)
  | Unhandled (e : exception).
      (* an exception no handler of the endpoint catches *)

Inductive response (A : Type) : Type :=
  | Returns (a : A)
  | Fails (e : api_error).
Arguments Returns {A} a.
Arguments Fails {A} e.

Module Rbac.

Definition ROLE_PERMISSIONS (role : UserRole) : list string :=
  match role with
  | ADMIN => ["read"; "write"; "delete"; "admin"]
  | RH => ["read"; "write"]
  | VIEWER => ["read"]
  end.

Definition has_permission (user : User.t) (required_permission : string) : bool :=
  bool_decide (required_permission ∈ ROLE_PERMISSIONS (User.role user)).

Definition check_role_permission (user : User.t) (required_permission : string)
    : response unit :=
  if has_permission user required_permission then Returns ()
  else Fails (HTTPException 403
                (InsufficientPermissions required_permission (User.role user))).

(** The wrapper [require_role] puts around an endpoint, for its roles:
    what it does before calling it. *)
Definition require_role (allowed_roles : list UserRole)
    (current_user : option User.t) : response unit :=
  match current_user with
  | None => Fails (HTTPException 401 AuthenticationRequired)
  | Some user =>
      if bool_decide (User.role user ∈ allowed_roles) then Returns ()
      else Fails (HTTPException 403 (AccessDenied allowed_roles))
  end.

(** [RoleChecker(allowed_roles)(current_user)] *)
Definition RoleChecker (allowed_roles : list UserRole) (current_user : User.t)
    : response User.t :=
  if bool_decide (User.role current_user ∈ allowed_roles) then Returns current_user
  else Fails (HTTPException 403 (AccessDenied allowed_roles)).

End Rbac.

(** ** The dependencies of the endpoints ([app/api/deps.py])

    [decode_token] checks the signature of the token and gives its
    claims, or [None]; the claims are the parameter [payload].  The
    subject is the number the server wrote into the token as a decimal;
    [int(user_id)] reads it back. *)

Module Payload.
Record t : Type := mk {
  sub : option Z;
  role : option string;
  type : option string
}.
End Payload.

Module Deps.

Definition get_current_user (users : gmap Z User.t) (payload : option Payload.t)
    : response User.t :=
  let credentials_exception := HTTPException 401 CouldNotValidateCredentials in
  match payload with
  | None => Fails credentials_exception
  | Some payload =>
      if bool_decide (Payload.type payload ≠ Some "access")
      then Fails credentials_exception
      else
        match Payload.sub payload with
        | None => Fails credentials_exception
        | Some user_id =>
            match users !! user_id with
            | None => Fails credentials_exception
            | Some user =>
                if negb (User.is_active user)
                then Fails (HTTPException 403 UserAccountDisabled)
                else Returns user
            end
        end
  end.

Definition require_read_permission (current_user : User.t) : response User.t :=
  match Rbac.check_role_permission current_user "read" with
  | Returns _ => Returns current_user
  | Fails e => Fails e
  end.

Definition require_write_permission (current_user : User.t) : response User.t :=
  match Rbac.check_role_permission current_user "write" with
  | Returns _ => Returns current_user
  | Fails e => Fails e
  end.

Definition require_admin_permission (current_user : User.t) : response User.t :=
  match Rbac.check_role_permission current_user "admin" with
  | Returns _ => Returns current_user
  | Fails e => Fails e
  end.

(** [Depends(require_..._permission)], itself depending on
    [get_current_user]. *)
Definition depends (require : User.t → response User.t)
    (users : gmap Z User.t) (payload : option Payload.t) : response User.t :=
  match get_current_user users payload with
  | Returns current_user => require current_user
  | Fails e => Fails e
  end.

Definition ReadUser := depends require_read_permission.
Definition WriteUser := depends require_write_permission.
Definition AdminUser := depends require_admin_permission.

End Deps.

(** ** The session of a request and the constraints of the tables
    ([alembic/versions], [app/models])

    [TelematicsService] and [ActivityService] above are written over the
    bare tables, where every flush is accepted.  Here the functions that
    write are embedded again over the session they work through, with
    what the database answers to a flush and every [except] branch of
    the code; on the requests whose flushes the database accepts the two
    embeddings agree.

    A flush sends the pending rows to the database, which checks them
    against the constraints of their table.  When it refuses one, the
    flush raises, the transaction of the session is rolled back, so that
    nothing written through the session remains, and the session is left
    inactive: every later statement on it raises [PendingRollbackError]
    until a rollback is issued, which nothing in the services and the
    endpoints does.  A flush with nothing pending does nothing, also on
    an inactive session.  Keys and numbers are taken to fit their
    columns. *)

Inductive session : Type :=
  | Active (db : DB)
      (* the store as the transaction of the session sees it *)
  | Inactive.

Inductive outcome (A : Type) : Type :=
  | Return (a : A)
  | Throw (e : exception).
Arguments Return {A} a.
Arguments Throw {A} e.

Module Schema.

(** A text longer than its column [String(n)]. *)
Definition too_long (n : nat) (text : option string) : bool :=
  match text with
  | Some s => (n <? String.length s)%nat
  | None => false
  end.

(** What the database answers to the insertion of a row of
    [gps_positions]: the foreign keys [vehicle_id] to [vehicles.id] and
    [driver_id], when not null, to [drivers.id]
    ([001_initial_migration.py]).  [None] when it accepts the row. *)
Definition insert_gps_position (db : DB) (row : GPSPosition.t) : option db_error :=
  match vehicles db !! GPSPosition.vehicle_id row with
  | None => Some (IntegrityError "gps_positions" "vehicle_id")
  | Some _ =>
      match GPSPosition.driver_id row with
      | Some d =>
          match drivers db !! d with
          | None => Some (IntegrityError "gps_positions" "driver_id")
          | Some _ => None
          end
      | None => None
      end
  end.

(** The same for a row of [driver_activities], by the columns the
    constraints bear on: [source_file] is a [String(255)] and
    [card_number] a [String(50)]; the foreign keys are [driver_id] to
    [drivers.id] and [vehicle_id], when not null, to [vehicles.id]
    ([002_add_telematics_and_activities.py]). *)
Definition check_driver_activity (db : DB) (driver_id : Z) (vehicle_id : option Z)
    (source_file card_number : option string) : option db_error :=
  if too_long 255 source_file
  then Some (DataError "driver_activities" "source_file")
  else if too_long 50 card_number
  then Some (DataError "driver_activities" "card_number")
  else
    match drivers db !! driver_id with
    | None => Some (IntegrityError "driver_activities" "driver_id")
    | Some _ =>
        match vehicle_id with
        | Some v =>
            match vehicles db !! v with
            | None => Some (IntegrityError "driver_activities" "vehicle_id")
            | Some _ => None
            end
        | None => None
        end
    end.

Definition insert_driver_activity (db : DB) (row : DriverActivity.t)
    : option db_error :=
  check_driver_activity db
    (DriverActivity.driver_id row) (DriverActivity.vehicle_id row)
    (DriverActivity.source_file row) (DriverActivity.card_number row).

(** The same for a new [card_number] of driver [driver_id]: a
    [String(50)] under the unique index [ix_drivers_card_number], which
    no two rows may share a value of. *)
Definition update_driver_card_number (db : DB) (driver_id : Z)
    (card_number : option string) : option db_error :=
  if too_long 50 card_number
  then Some (DataError "drivers" "card_number")
  else
    match card_number with
    | Some c =>
        if bool_decide
             (Exists (λ kd : Z * Driver.t,
                        kd.1 ≠ driver_id ∧ Driver.card_number kd.2 = Some c)
                (map_to_list (drivers db)))
        then Some (IntegrityError "drivers" "card_number")
        else None
    | None => None
    end.

End Schema.

(** Modelled from the spec: "each public operation executes within one
    request-scoped transaction" ([get_db] of [app/database.py], which
    opens and ends the session of a request, is not among the sources).
    What a request that began on [db] leaves in the store: what its
    session holds at the end, and [db] itself once its transaction was
    rolled back. *)
Definition committed (db : DB) (s : session) : DB :=
  match s with
  | Active db' => db'
  | Inactive => db
  end.

(** *** TelematicsService on the session *)

Module SessionTelematics.

(** The first statement is a query, which an inactive session refuses.
    The checks are those of [TelematicsService]; then the row is added,
    the vehicle updated when asked for, and the flush sends both: the
    vehicle row passes, none of its constrained columns being touched,
    and the position is checked. *)
Definition ingest_position
    (s : session) (position : GPSPositionCreate.t) (update_vehicle : bool)
    : session * outcome (Z * GPSPosition.t) :=
  match s with
  | Inactive => (Inactive, Throw (DatabaseError PendingRollbackError))
  | Active db =>
      match TelematicsService._get_vehicle db
              (GPSPositionCreate.vehicle_id position) with
      | None =>
          (Active db,
           Throw (ServiceError
                    (TelematicsServiceError
                       (VehicleNotFound (GPSPositionCreate.vehicle_id position)))))
      | Some vehicle =>
          match TelematicsService.check_driver db position with
          | Raise e => (Active db, Throw (ServiceError e))
          | Ok _ =>
              let gps_position := TelematicsService.gps_row position in
              let vehicles' :=
                if update_vehicle
                then <[GPSPositionCreate.vehicle_id position :=
                         TelematicsService._update_vehicle_position vehicle position]>
                       (vehicles db)
                else vehicles db in
              (* await self.db.flush() *)
              match Schema.insert_gps_position db gps_position with
              | Some e => (Inactive, Throw (DatabaseError e))
              | None =>
                  (Active (mkDB vehicles' (drivers db)
                             (insert_row gps_position (gps_positions db))
                             (driver_activities db)),
                   Return (next_id (gps_positions db), gps_position))
              end
          end
      end
  end.

Record batch_state : Type := mkBatch {
  batch_session : session;
  batch_stats : IngestionStats;
  batch_latest : list (Z * GPSPositionCreate.t)
}.

(** The body of the first loop of [ingest_batch], with its two [except]
    branches. *)
Definition batch_step (st : batch_state) (position : GPSPositionCreate.t)
    : batch_state :=
  let stats := batch_stats st in
  let vehicle_latest := TelematicsService.track_latest (batch_latest st) position in
  match ingest_position (batch_session st) position false with
  | (s, Return _) =>
      mkBatch s
        (mkStats (total_received stats) (S (successfully_processed stats))
           (failed stats) (errors stats))
        vehicle_latest
  | (s, Throw (ServiceError (TelematicsServiceError msg))) =>
      (* except TelematicsServiceError as e *)
      mkBatch s
        (mkStats (total_received stats) (successfully_processed stats)
           (S (failed stats)) (errors stats ++ [Str msg]))
        vehicle_latest
  | (s, Throw e) =>
      (* except Exception as e *)
      mkBatch s
        (mkStats (total_received stats) (successfully_processed stats)
           (S (failed stats)) (errors stats ++ [UnexpectedError (str_of e)]))
        vehicle_latest
  end.

(** The body of the second loop, on the session and the error strings:
    the query of the vehicle raises on an inactive session, which the
    [except] branch turns into an error string. *)
Definition apply_latest (st : session * list error_string)
    (item : Z * GPSPositionCreate.t) : session * list error_string :=
  match st.1 with
  | Inactive =>
      (Inactive,
       st.2 ++ [FailedToUpdateVehicle item.1 (DatabaseErrorText PendingRollbackError)])
  | Active db =>
      match TelematicsService._get_vehicle db item.1 with
      | Some vehicle =>
          (Active (mkDB (<[item.1 :=
                             TelematicsService._update_vehicle_position vehicle item.2]>
                           (vehicles db))
                     (drivers db) (gps_positions db) (driver_activities db)),
           st.2)
      | None => st
      end
  end.

(** The flush that ends the function sends the vehicle rows, which pass;
    on an inactive session nothing is pending. *)
Definition ingest_batch (s : session) (positions : list GPSPositionCreate.t)
    : session * IngestionStats :=
  let stats := mkStats (length positions) 0 0 [] in
  let st := foldl batch_step (mkBatch s stats []) positions in
  let stats := batch_stats st in
  let updated :=
    foldl apply_latest (batch_session st, errors stats) (batch_latest st) in
  (updated.1,
   mkStats (total_received stats) (successfully_processed stats) (failed stats)
     updated.2).

End SessionTelematics.

(** *** The bulk storage of ActivityService on the session *)

Module SessionActivity.
Import ActivityService.

(** A flush of pending activities: the first row the database refuses
    makes it raise. *)
Definition flush (db : DB) (pending : list DriverActivity.t) : outcome DB :=
  match omap (Schema.insert_driver_activity db) pending with
  | e :: _ => Throw (DatabaseError e)
  | [] =>
      Return (with_activities db (flush_pending (driver_activities db) pending))
  end.

Section store.
Variable autoflush : bool.
Variables (driver_id : Z) (vehicle_id : option Z)
          (source_file : string) (card_number : option string).

(** What the overlap query of the next iteration runs on, when the
    flush before it, if any, is accepted. *)
Definition before_query (st : store_state)
    : outcome (DB * list DriverActivity.t) :=
  if autoflush
  then
    match flush (store_db st) (store_pending st) with
    | Return db => Return (db, [])
    | Throw e => Throw e
    end
  else Return (store_db st, store_pending st).

(** The body of the loop over [parse_result.activities]; an exception
    ends the loop. *)
Definition store_step (st : outcome store_state) (activity : ActivityRecord.t)
    : outcome store_state :=
  match st with
  | Throw e => Throw e
  | Return st =>
      match before_query st with
      | Throw e => Throw e
      | Return (db, pending) =>
          match _find_overlapping_activity db driver_id
                  (ActivityRecord.start_time activity)
                  (ActivityRecord.end_time activity) with
          | Some existing =>
              if is_exact_duplicate existing.2 activity
              then Return (mkStore db pending (created st) (S (skipped st)))
              else Return (mkStore db pending (created st) (S (skipped st)))
          | None =>
              Return (mkStore db
                        (pending ++ [new_activity driver_id vehicle_id source_file
                                       card_number activity])
                        (S (created st)) (skipped st))
          end
      end
  end.

Definition store_loop (db : DB) (records : list ActivityRecord.t)
    : outcome store_state :=
  foldl store_step (Return (mkStore db [] 0 0)) records.

(** [if created > 0: await self.db.flush()] and the result. *)
Definition finish_store (st : outcome store_state)
    : session * outcome (nat * nat) :=
  match st with
  | Throw e => (Inactive, Throw e)
  | Return st =>
      if bool_decide (0 < created st)%nat
      then
        match flush (store_db st) (store_pending st) with
        | Return db => (Active db, Return (created st, skipped st))
        | Throw e => (Inactive, Throw e)
        end
      else (Active (store_db st), Return (created st, skipped st))
  end.
End store.

(** The function on an active session: the endpoint has just queried the
    driver through it. *)
Definition store_activities_from_tachograph
    (autoflush : bool) (db : DB) (driver_id : Z)
    (parse_result : TachographParseResult.t) (source_file : string)
    (vehicle_id : option Z) : session * outcome (nat * nat) :=
  finish_store
    (store_loop autoflush driver_id vehicle_id source_file
       (TachographParseResult.card_number parse_result)
       db (TachographParseResult.activities parse_result)).

End SessionActivity.

(** ** The telematics endpoints ([app/api/telematics.py])

    An endpoint takes the store, the user its dependency resolved
    ([WriteUser], [ReadUser]) and the parsed body; the dependency runs
    before the body of the endpoint.  The endpoints that write work on
    the session of the request and give the store the request leaves;
    a failed request leaves the store as it was. *)

Module GPSPositionResponse.
Record t : Type := mk {
  id : Z;
  vehicle_id : Z;
  driver_id : option Z;
  lat : Q;
  lon : Q;
  speed : option Q;
  heading : option Q;
  timestamp : Z
}.
End GPSPositionResponse.

Module VehicleStatusResponse.
Record t : Type := mk {
  id : Z;
  registration_plate : string;
  brand : string;
  model : string;
  status : VehicleStatus;
  is_online : bool;
  last_seen : option Z;
  current_speed : option Q;
  current_heading : option Q
}.
End VehicleStatusResponse.

(** The answer of [/ping]: ["status": "ok"] with the id, or
    ["status": "error"] with the message. *)
Inductive ping_error : Type :=
  | PingMessage (msg : message)
  | InternalError.

Inductive PingResponse : Type :=
  | PingOk (id : Z) (timestamp : Z)
  | PingFailed (error : ping_error) (timestamp : Z).

Module TelematicsAPI.

(** [VehicleStatusResponse] built from the keys of [status_data].  No field of the schema has a
    default, so each one is required, [current_heading] too: a dictionary
    without that key is refused. *)
Definition VehicleStatusResponse_of (d : VehicleStatusDict.t)
    : response VehicleStatusResponse.t :=
  match VehicleStatusDict.current_heading d with
  | None => Fails (FieldRequired "current_heading")
  | Some heading =>
      Returns (VehicleStatusResponse.mk
                 (VehicleStatusDict.id d) (VehicleStatusDict.registration_plate d)
                 (VehicleStatusDict.brand d) (VehicleStatusDict.model d)
                 (VehicleStatusDict.status d) (VehicleStatusDict.is_online d)
                 (VehicleStatusDict.last_seen d) (VehicleStatusDict.current_speed d)
                 heading)
  end.

Definition ingest_position (db : DB) (current_user : User.t)
    (position : GPSPositionCreate.t) : response (DB * GPSPositionResponse.t) :=
  match Deps.require_write_permission current_user with
  | Fails e => Fails e
  | Returns _ =>
      match SessionTelematics.ingest_position (Active db) position true with
      | (s, Return (id, gps_position)) =>
          Returns (committed db s,
                   GPSPositionResponse.mk id
                     (GPSPosition.vehicle_id gps_position)
                     (GPSPosition.driver_id gps_position)
                     (GPSPositionCreate.lat position)
                     (GPSPositionCreate.lon position)
                     (GPSPosition.speed gps_position)
                     (GPSPosition.heading gps_position)
                     (GPSPosition.timestamp gps_position))
      | (_, Throw (ServiceError (TelematicsServiceError msg))) =>
          (* except TelematicsServiceError as e *)
          Fails (HTTPException 400 (Detail msg))
      | (_, Throw e) => Fails (Unhandled e)
      end
  end.

Definition ingest_positions_batch (db : DB) (current_user : User.t)
    (positions : list GPSPositionCreate.t) : response (DB * IngestionStats) :=
  match Deps.require_write_permission current_user with
  | Fails e => Fails e
  | Returns _ =>
      let '(s, stats) := SessionTelematics.ingest_batch (Active db) positions in
      Returns (committed db s, stats)
  end.

Definition get_vehicle_status (db : DB) (now : Z) (current_user : User.t)
    (vehicle_id : Z) : response VehicleStatusResponse.t :=
  match Deps.require_read_permission current_user with
  | Fails e => Fails e
  | Returns _ =>
      match TelematicsStatus.get_vehicle_status db now vehicle_id with
      | None => Fails (HTTPException 404 (Detail (VehicleNotFound vehicle_id)))
      | Some status_data => VehicleStatusResponse_of status_data
      end
  end.

(** The list comprehension: the first dictionary refused ends it. *)
Fixpoint responses_of (vehicles : list VehicleStatusDict.t)
    : response (list VehicleStatusResponse.t) :=
  match vehicles with
  | [] => Returns []
  | v :: rest =>
      match VehicleStatusResponse_of v with
      | Fails e => Fails e
      | Returns r =>
          match responses_of rest with
          | Fails e => Fails e
          | Returns rs => Returns (r :: rs)
          end
      end
  end.

Definition get_all_vehicles_status (db : DB) (now : Z) (current_user : User.t)
    : response (list VehicleStatusResponse.t) :=
  match Deps.require_read_permission current_user with
  | Fails e => Fails e
  | Returns _ => responses_of (TelematicsStatus.get_all_vehicles_status db now)
  end.

Definition get_online_stats (db : DB) (now : Z) (current_user : User.t)
    : response OnlineCount :=
  match Deps.require_read_permission current_user with
  | Fails e => Fails e
  | Returns _ => Returns (TelematicsStatus.get_online_vehicles_count db now)
  end.

(** No dependency on a user: "no auth required for devices". *)
Definition device_ping (db : DB) (now : Z) (position : GPSPositionCreate.t)
    : DB * PingResponse :=
  match SessionTelematics.ingest_position (Active db) position true with
  | (s, Return (id, _)) => (committed db s, PingOk id now)
  | (s, Throw (ServiceError (TelematicsServiceError msg))) =>
      (* except TelematicsServiceError as e *)
      (committed db s, PingFailed (PingMessage msg) now)
  | (s, Throw _) =>
      (* except Exception as e *)
      (committed db s, PingFailed InternalError now)
  end.

End TelematicsAPI.

(** ** The activity endpoints ([app/api/tachograph.py]), but the upload *)

Record FuseResponse : Type := mkFuseResponse {
  fuse_driver_id : Z;
  gps_positions_associated : nat
}.

Module TachographAPI.

Definition get_driver_activities (db : DB) (current_user : User.t) (driver_id : Z)
    (start_date end_date : option Z) (activity_type : option ActivityType)
    : response (list (Z * DriverActivity.t)) :=
  match Deps.require_read_permission current_user with
  | Fails e => Fails e
  | Returns _ =>
      Returns (ActivityService.get_driver_activities db driver_id
                 start_date end_date activity_type)
  end.

Definition get_activity_summary (db : DB) (current_user : User.t)
    (driver_id start_date end_date : Z) : response ActivitySummary.t :=
  match Deps.require_read_permission current_user with
  | Fails e => Fails e
  | Returns _ =>
      match ActivityService.get_activity_summary db driver_id start_date end_date with
      | Ok summary => Returns summary
      | Raise (ActivityServiceError msg) => Fails (HTTPException 404 (Detail msg))
      | Raise e => Fails (Unhandled (ServiceError e))
      end
  end.

Definition fuse_gps_with_activities (db : DB) (current_user : User.t)
    (driver_id start_time end_time : Z) : response (DB * FuseResponse) :=
  match Deps.require_write_permission current_user with
  | Fails e => Fails e
  | Returns _ =>
      let '(db', count) :=
        ActivityService.fuse_gps_with_activities db driver_id start_time end_time in
      Returns (db', mkFuseResponse driver_id count)
  end.

End TachographAPI.

(** ** The retention task ([app/celery_worker/tasks.py]) *)

Module CeleryTasks.

(** [delete(GPSPosition).where(GPSPosition.timestamp < cutoff_date)]; the
    number returned is the [rowcount] of the statement. *)
Definition cleanup_old_positions (now : Z) (days : Z) (db : DB) : DB * Z :=
  let cutoff_date := now - timedelta_days days in
  let deleted :=
    filter (λ kr : Z * GPSPosition.t, GPSPosition.timestamp kr.2 < cutoff_date)
      (gps_positions db) in
  let kept :=
    filter (λ kr : Z * GPSPosition.t, ¬ GPSPosition.timestamp kr.2 < cutoff_date)
      (gps_positions db) in
  (mkDB (vehicles db) (drivers db) kept (driver_activities db),
   Z.of_nat (size deleted)).

End CeleryTasks.

(** ** The schedule of the parser ([app/services/tachograph_parser.py])

    [_extract_activities] derives two values from outside, a seed from
    the MD5 digest of the data and yesterday 06:00 from the clock; they
    are the parameters [seed] and [base_time]. *)

Module TachographParser.

Definition schedule : list (ActivityType * Z) :=
  [(WORK, 30); (DRIVING, 180); (BREAK, 45); (DRIVING, 120); (REST, 60);
   (DRIVING, 150); (BREAK, 30); (DRIVING, 90); (WORK, 20)].

(** The body of the loop: the record appended, the next [current_time]
    and the next [odometer]. *)
Definition schedule_step (st : list ActivityRecord.t * Z * Q)
    (item : ActivityType * Z) : list ActivityRecord.t * Z * Q :=
  let '(activities, current_time, odometer) := st in
  let '(activity_type, duration_minutes) := item in
  let start := current_time in
  let end_ := start + timedelta_minutes duration_minutes in
  let odo_start := odometer in
  let distance :=
    match activity_type with
    | DRIVING => (inject_Z duration_minutes / 60 * 60)%Q
    | _ => 0%Q
    end in
  let odometer :=
    match activity_type with
    | DRIVING => (odometer + distance)%Q
    | _ => odometer
    end in
  (activities ++
     [ActivityRecord.mk activity_type start end_ duration_minutes
        (Some odo_start) (Some odometer)
        (if Qle_bool distance 0 then None else Some distance)],
   end_, odometer).

Definition _extract_activities (seed : Z) (base_time : Z) : list ActivityRecord.t :=
  (foldl schedule_step ([], base_time, (100000 + inject_Z (seed `mod` 50000))%Q)
     schedule).1.1.

Definition sum_durations (P : ActivityType → bool)
    (activities : list ActivityRecord.t) : Z :=
  foldl Z.add 0
    (ActivityRecord.duration_minutes <$>
       filter (λ a, P (ActivityRecord.activity_type a) = true) activities).

Definition _create_result (errors warnings : list string) (success : bool)
    (card_number driver_name vehicle_registration : option string)
    (activities : list ActivityRecord.t) : TachographParseResult.t :=
  TachographParseResult.mk success card_number driver_name vehicle_registration
    activities
    (sum_durations ActivityService.is_driving activities)
    (sum_durations ActivityService.is_rest_or_break activities)
    (sum_durations ActivityService.is_work activities)
    errors warnings.

End TachographParser.

(** ** Parsing an uploaded file ([app/services/tachograph_parser.py])

    A file name is a [string]; [lower] changes the letters A to Z, which
    is what [str.lower] does to the characters that can make up [".ddd"]
    and [".tgd"].  The content of a file is a list of bytes.  The clock
    gives the parser the text of the fallback card number,
    [card_fallback]. *)

Module Str.
Import Stdlib.Strings.Ascii.

Definition lower_char (c : Ascii.ascii) : Ascii.ascii :=
  let n := Ascii.N_of_ascii c in
  if ((65 <=? n) && (n <=? 90))%N then Ascii.ascii_of_N (n + 32) else c.

Fixpoint lower (s : string) : string :=
  match s with
  | EmptyString => EmptyString
  | String c s' => String (lower_char c) (lower s')
  end.

(** [s.endswith(suffix)] *)
Definition endswith (suffix s : string) : bool :=
  bool_decide (String.list_ascii_of_string suffix
                 `suffix_of` String.list_ascii_of_string s).

(** ["." in s] *)
Definition has_dot (s : string) : bool :=
  bool_decide ("."%char ∈ String.list_ascii_of_string s).

(** [s.split(".")] *)
Fixpoint split_dot (s : string) : list string :=
  match s with
  | EmptyString => [EmptyString]
  | String c s' =>
      if decide (c = "."%char) then EmptyString :: split_dot s'
      else
        match split_dot s' with
        | seg :: rest => String c seg :: rest
        | [] => [String c EmptyString]
        end
  end.

(** [if s:] on a string *)
Definition truthy (o : option string) : bool :=
  match o with
  | Some s => negb (bool_decide (s = EmptyString))
  | None => false
  end.

End Str.

Module Bytes.

(** [chunk.isalnum()]: not empty, and ASCII letters and digits only *)
Definition isalnum_byte (b : Byte.byte) : bool :=
  let n := Stdlib.Strings.Byte.to_N b in
  (((48 <=? n) && (n <=? 57)) || ((65 <=? n) && (n <=? 90))
   || ((97 <=? n) && (n <=? 122)))%N.

Definition isalnum (chunk : list Byte.byte) : bool :=
  negb (bool_decide (chunk = [])) && forallb isalnum_byte chunk.

(** [chunk.decode('ascii', errors='ignore')] *)
Definition decode_ascii (chunk : list Byte.byte) : string :=
  String.string_of_list_byte
    (filter (λ b, (Stdlib.Strings.Byte.to_N b < 128)%N) chunk).

(** [data[i:i+16]] *)
Definition window (data : list Byte.byte) (i : nat) : list Byte.byte :=
  take 16 (drop i data).

End Bytes.

Module ParseFile.
Import TachographParser.

(** The first [i] of [range(len(data) - 16)] whose window passes, or
    the fallback. *)
Definition _extract_card_number (card_fallback : string) (data : list Byte.byte)
    : option string :=
  match head (filter (λ i, Bytes.isalnum (Bytes.window data i) = true)
                (seq 0 (length data - 16))) with
  | Some i => Some (Bytes.decode_ascii (Bytes.window data i))
  | None => Some card_fallback
  end.

Definition _extract_driver_name (data : list Byte.byte) : option string := None.

Definition _extract_vehicle_reg (data : list Byte.byte) : option string := None.

(** The tuples [(card_number, driver_name, vehicle_registration,
    activities)]; nothing in the bodies raises, so none is [None]. *)
Definition parsed : Type :=
  option string * option string * option string * list ActivityRecord.t.

Definition _parse_ddd (seed base_time : Z) (card_fallback : string)
    (data : list Byte.byte) : option parsed :=
  let card_number := _extract_card_number card_fallback data in
  let driver_name := _extract_driver_name data in
  let activities := _extract_activities seed base_time in
  Some (card_number, driver_name, None, activities).

Definition _parse_tgd (seed base_time : Z) (data : list Byte.byte) : option parsed :=
  let vehicle_registration := _extract_vehicle_reg data in
  let activities := _extract_activities seed base_time in
  Some (None, None, vehicle_registration, activities).

Definition _parse_auto (seed base_time : Z) (card_fallback : string)
    (data : list Byte.byte) : option parsed :=
  match _parse_ddd seed base_time card_fallback data with
  | Some (card_number, driver_name, registration, (_ :: _) as activities) =>
      Some (card_number, driver_name, registration, activities)
  | _ => _parse_tgd seed base_time data
  end.

Definition _parse_binary (seed base_time : Z) (card_fallback : string)
    (data : list Byte.byte) (filename : string) : TachographParseResult.t :=
  if (length data <? 100)%nat
  then _create_result ["File too small to be a valid tachograph file"] []
         false None None None []
  else
    let result :=
      if Str.endswith ".ddd" (Str.lower filename)
      then _parse_ddd seed base_time card_fallback data
      else if Str.endswith ".tgd" (Str.lower filename)
      then _parse_tgd seed base_time data
      else _parse_auto seed base_time card_fallback data in
    let '(card_number, driver_name, vehicle_registration, activities) :=
      default (None, None, None, []) result in
    let warnings :=
      match activities with
      | [] => ["No activities found in file"]
      | _ => []
      end in
    _create_result [] warnings true
      card_number driver_name vehicle_registration activities.

(** [parse_bytes], and [parse_tachograph_bytes] on the global parser:
    [_parse_binary] raises nothing here. *)
Definition parse_tachograph_bytes (seed base_time : Z) (card_fallback : string)
    (data : list Byte.byte) (filename : string) : TachographParseResult.t :=
  _parse_binary seed base_time card_fallback data filename.

End ParseFile.

(** ** The upload endpoint ([app/api/tachograph.py])

    [TachographUploadResponse] has a field [parse_result] without a
    default: building a response without it is refused.  The endpoint
    works on the session of the request. *)

(** The texts of [TachographUploadResponse.errors]. *)
Inductive upload_error : Type :=
  | ParseError (text : string)
      (* an entry of [parse_result.errors] *)
  | ErrorText (msg : message)
      (* str(e) *)
  | FailedToStoreActivities (msg : message).
      (* f"Failed to store activities: {str(e)}" *)

Module TachographUploadResponse.
Record t : Type := mk {
  success : bool;
  filename : string;
  driver_id : option Z;
  activities_created : nat;
  activities_skipped : nat;
  parse_result : TachographParseResult.t;
  errors : list upload_error
}.
End TachographUploadResponse.

Module UploadAPI.
Import Stdlib.Strings.Ascii.

Definition MAX_FILE_SIZE : Z := 10 * 1024 * 1024.

(** ["." + filename.split(".")[-1] if "." in filename else ""] *)
Definition extension_of (filename : string) : string :=
  if Str.has_dot filename
  then String "."%char (default EmptyString (last (Str.split_dot filename)))
  else EmptyString.

(** A response built without [parse_result]. *)
Definition refused {A} : response A :=
  Fails (FieldRequired "parse_result").

Definition with_drivers (db : DB) (tbl : gmap Z Driver.t) : DB :=
  mkDB (vehicles db) tbl (gps_positions db) (driver_activities db).

Definition set_card_number (driver : Driver.t) (card_number : option string)
    : Driver.t :=
  Driver.mk (Driver.name driver) (Driver.license_number driver)
    (Driver.rfid_tag driver) card_number (Driver.timezone driver)
    (Driver.current_vehicle_id driver).

(** The statements of the last [try] block before its [return]: the
    bulk storage, then the card number of the driver and its flush. *)
Definition store_and_update (autoflush : bool) (db : DB)
    (driver : Driver.t) (driver_id : Z)
    (parse_result : TachographParseResult.t) (filename : string)
    (vehicle_id : option Z) : session * outcome (nat * nat) :=
  match SessionActivity.store_activities_from_tachograph autoflush
          db driver_id parse_result filename vehicle_id with
  | (Active db', Return (created, skipped)) =>
      if Str.truthy (TachographParseResult.card_number parse_result)
         && negb (Str.truthy (Driver.card_number driver))
      then
        (* await db.flush() *)
        match Schema.update_driver_card_number db' driver_id
                (TachographParseResult.card_number parse_result) with
        | Some e => (Inactive, Throw (DatabaseError e))
        | None =>
            (Active (with_drivers db'
                       (<[driver_id :=
                            set_card_number driver
                              (TachographParseResult.card_number parse_result)]>
                          (drivers db'))),
             Return (created, skipped))
        end
      else (Active db', Return (created, skipped))
  | (Inactive, Return _) => (Inactive, Throw (DatabaseError PendingRollbackError))
  | (s, Throw e) => (s, Throw e)
  end.

Definition upload_tachograph_file (autoflush : bool)
    (seed base_time : Z) (card_fallback : string)
    (db : DB) (current_user : User.t)
    (file_filename : option string) (content : list Byte.byte)
    (driver_id : Z) (vehicle_id : option Z)
    : response (DB * TachographUploadResponse.t) :=
  match Deps.require_write_permission current_user with
  | Fails e => Fails e
  | Returns _ =>
      let filename :=
        if Str.truthy file_filename then default EmptyString file_filename
        else "unknown" in
      let extension := extension_of filename in
      if negb (bool_decide (Str.lower extension ∈ [".ddd"; ".tgd"]))
      then refused
      else
        (* The size checks are in a [try] block whose [except Exception]
           branch builds a response without [parse_result] as well: the
           refusal of the first is caught and that of the second is
           not. *)
        match
          (if MAX_FILE_SIZE <? Z.of_nat (length content) then refused
           else if bool_decide (length content = 0%nat) then refused
           else Returns ())
        with
        | Fails _ => refused
        | Returns _ =>
            match drivers db !! driver_id with
            | None => refused
            | Some driver =>
                let parse_result :=
                  ParseFile.parse_tachograph_bytes seed base_time card_fallback
                    content filename in
                if negb (TachographParseResult.success parse_result)
                then
                  Returns (db,
                           TachographUploadResponse.mk false filename (Some driver_id)
                             0 0 parse_result
                             (ParseError <$> TachographParseResult.errors parse_result))
                else
                  match store_and_update autoflush db driver driver_id
                          parse_result filename vehicle_id with
                  | (s, Return (created, skipped)) =>
                      Returns (committed db s,
                               TachographUploadResponse.mk true filename
                                 (Some driver_id) created skipped parse_result [])
                  | (s, Throw (ServiceError (ActivityServiceError msg))) =>
                      (* except ActivityServiceError as e *)
                      Returns (committed db s,
                               TachographUploadResponse.mk false filename
                                 (Some driver_id) 0 0 parse_result [ErrorText msg])
                  | (s, Throw e) =>
                      (* except Exception as e *)
                      Returns (committed db s,
                               TachographUploadResponse.mk false filename
                                 (Some driver_id) 0 0 parse_result
                                 [FailedToStoreActivities (str_of e)])
                  end
            end
        end
  end.

End UploadAPI.

(** ** Vocabulary of the properties around the services *)

(** The positions a call submits. *)
Definition positions_of (c : ingest_call) : list GPSPositionCreate.t :=
  match c with
  | IngestOne position => [position]
  | IngestBatch positions => positions
  end.

(** The database refuses the row of the position: the position passes
    the checks of the service and its flush raises. *)
Definition flush_refused (db : DB) (p : GPSPositionCreate.t) : bool :=
  match SessionTelematics.ingest_position (Active db) p false with
  | (Inactive, _) => true
  | (Active _, _) => false
  end.

(** What the loop of the bulk storage keeps true of its state: the
    tables of vehicles and drivers are those of [db], and the pending
    rows are rows of the call. *)
Definition call_state (driver_id : Z) (vehicle_id : option Z)
    (source_file : string) (card_number : option string) (db : DB)
    (st : ActivityService.store_state) : Prop :=
  vehicles (ActivityService.store_db st) = vehicles db
  ∧ drivers (ActivityService.store_db st) = drivers db
  ∧ Forall (λ row, ∃ r, row = ActivityService.new_activity driver_id vehicle_id
                                source_file card_number r)
      (ActivityService.store_pending st).

(** What the database refuses in an upload for [driver], if anything: the
    rows of the call when one at least is kept, or else the card number
    of the file when the driver is to take it. *)
Definition upload_refusal (autoflush : bool) (db : DB) (driver_id : Z)
    (driver : Driver.t) (vehicle_id : option Z) (filename : string)
    (parse_result : TachographParseResult.t) : option db_error :=
  let card_number := TachographParseResult.card_number parse_result in
  let kept :=
    kept_records autoflush driver_id vehicle_id filename card_number
      (rows_of (driver_activities db))
      (TachographParseResult.activities parse_result) in
  match kept,
        Schema.check_driver_activity db driver_id vehicle_id (Some filename)
          card_number with
  | _ :: _, Some e => Some e
  | _, _ =>
      if Str.truthy card_number && negb (Str.truthy (Driver.card_number driver))
      then Schema.update_driver_card_number db driver_id card_number
      else None
  end.

(** No other driver has the card number. *)
Definition card_number_free (db : DB) (driver_id : Z) (card_number : option string)
    : Prop :=
  ∀ k other, drivers db !! k = Some other → k ≠ driver_id →
    card_number ≠ None → Driver.card_number other ≠ card_number.

(** The error strings the second loop of [ingest_batch] collects on an
    inactive session: one for each tracked vehicle. *)
Definition update_failures (vehicle_latest : list (Z * GPSPositionCreate.t))
    : list error_string :=
  (λ item, FailedToUpdateVehicle item.1 (DatabaseErrorText PendingRollbackError))
    <$> vehicle_latest.

(** A call as a request with a session of its own, and what it leaves
    in the store. *)
Definition run_request (db : DB) (c : ingest_call) : DB :=
  match c with
  | IngestOne position =>
      committed db (SessionTelematics.ingest_position (Active db) position true).1
  | IngestBatch positions =>
      committed db (SessionTelematics.ingest_batch (Active db) positions).1
  end.

Definition run_requests (db : DB) (cs : list ingest_call) : DB :=
  foldl run_request db cs.

(** The vehicles of a table that are online at [now]. *)
Definition online_vehicles (now : Z) (m : gmap Z Vehicle.t) : gmap Z Vehicle.t :=
  filter (λ kv : Z * Vehicle.t, VehicleModel.is_online now kv.2 = true) m.

(** A status dictionary with its ["current_heading"] key removed. *)
Definition without_heading (d : VehicleStatusDict.t) : VehicleStatusDict.t :=
  VehicleStatusDict.mk
    (VehicleStatusDict.id d) (VehicleStatusDict.registration_plate d)
    (VehicleStatusDict.brand d) (VehicleStatusDict.model d)
    (VehicleStatusDict.status d) (VehicleStatusDict.is_online d)
    (VehicleStatusDict.last_seen d) (VehicleStatusDict.current_speed d) None.

(** Whether a request failed with the given status code. *)
Definition fails_with {A} (code : Z) (r : response A) : Prop :=
  ∃ detail, r = Fails (HTTPException code detail).

(** Whether a request returned. *)
Definition returns {A} (r : response A) : Prop := ∃ a, r = Returns a.

(** The claims of a token of type [ty] for user [user_id]. *)
Definition token (ty : string) (user_id : Z) (role : option string) : Payload.t :=
  Payload.mk (Some user_id) role (Some ty).

(** The status query reports vehicle [k] online at [now]. *)
Definition reported_online (db : DB) (now : Z) (k : Z) : Prop :=
  ∃ d, TelematicsStatus.get_vehicle_status db now k = Some d
       ∧ VehicleStatusDict.is_online d = true.

(** An optional value satisfies [P] when it is there. *)
Definition when_set {A} (P : A → Prop) (o : option A) : Prop :=
  match o with
  | Some a => P a
  | None => True
  end.

(** The state of a vehicle is within the bounds [GPSPositionCreate] puts
    on a position received by [now]. *)
Definition vehicle_within (now : Z) (veh : Vehicle.t) : Prop :=
  when_set (λ t, t ≤ now + timedelta_minutes 1) (Vehicle.last_seen veh)
  ∧ when_set (λ pt, (-90 <= point_lat pt)%Q ∧ (point_lat pt <= 90)%Q
                    ∧ (-180 <= point_lon pt)%Q ∧ (point_lon pt <= 180)%Q)
      (Vehicle.current_position veh)
  ∧ when_set (λ s, (0 <= s)%Q) (Vehicle.current_speed veh)
  ∧ when_set (λ h, (0 <= h)%Q ∧ (h <= 360)%Q) (Vehicle.current_heading veh)
  ∧ when_set (λ o, (0 <= o)%Q) (Vehicle.total_odometer veh).

(** The position passed the checks of its schema at some instant no
    later than [now]. *)
Definition validated_by (now : Z) (p : GPSPositionCreate.t) : Prop :=
  ∃ received, received ≤ now ∧ GPSPositionSchema.validate received p = true.

(** The token names an active user of the table: what [get_current_user]
    accepts. *)
Definition authenticated (users : gmap Z User.t) (payload : option Payload.t)
    (user : User.t) : Prop :=
  ∃ claims user_id,
    payload = Some claims
    ∧ Payload.type claims = Some "access"
    ∧ Payload.sub claims = Some user_id
    ∧ users !! user_id = Some user
    ∧ User.is_active user = true.
(** The conditions of [get_driver_activities] on one row. *)
Definition admits (d : Z) (sd ed : option Z) (ty : option ActivityType)
    (row : DriverActivity.t) : Prop :=
  DriverActivity.driver_id row = d
  ∧ from_option (λ s, s ≤ DriverActivity.start_time row) True sd
  ∧ from_option (λ e, DriverActivity.end_time row ≤ e) True ed
  ∧ from_option (λ t, DriverActivity.activity_type row = t) True ty.

#[global] Instance admits_dec d sd ed ty row : Decision (admits d sd ed ty row).
Proof. unfold admits. destruct sd, ed, ty; simpl; apply _. Defined.

(** [file.filename or "unknown"] *)
Definition file_name_of (file_filename : option string) : string :=
  if Str.truthy file_filename then default EmptyString file_filename
  else "unknown".

(** * Sample data

    A store with one vehicle and one driver, and a few positions and
    activities.  Instants are small integers (minutes after midnight);
    their unit plays no role. *)

Definition sample_vehicle : Vehicle.t :=
  Vehicle.mk "AB-123-CD" "YV2A4C3A5HB000001" "Volvo" "FH" ACTIVE
    None None None None None.

Definition sample_driver : Driver.t :=
  Driver.mk "Ada" "LIC-0001" None None "UTC" None.

Definition sample_db : DB :=
  mkDB {[1 := sample_vehicle]} {[1 := sample_driver]} ∅ ∅.

Definition sample_position (vehicle_id : Z) (driver_id : option Z)
    (timestamp : Z) : GPSPositionCreate.t :=
  GPSPositionCreate.mk vehicle_id driver_id (4885 # 100) (235 # 100)
    (Some (50 # 1)) (Some (90 # 1)) (Some (120000 # 1)) (Some true) timestamp.

Definition sample_activity (driver_id : Z) (ty : ActivityType)
    (start_time end_time : Z) : DriverActivityCreate.t :=
  DriverActivityCreate.mk driver_id None ty MANUAL start_time end_time
    (end_time - start_time) None None None None None.

Definition sample_record (ty : ActivityType) (start_time end_time : Z)
    : ActivityRecord.t :=
  ActivityRecord.mk ty start_time end_time (end_time - start_time) None None None.

Definition sample_parse (records : list ActivityRecord.t)
    : TachographParseResult.t :=
  TachographParseResult.mk true (Some "DF000000123456") None None records
    0 0 0 [] [].

(** Driving from 09:00 to 10:00. *)
Definition sample_db_driving : DB :=
  run_create sample_db (sample_activity 1 DRIVING 540 600).

(** Driving from 09:00 to 10:00, a break from 10:00 to 10:30, and
    positions at 09:45 and at 10:00. *)
Definition sample_db_day : DB :=
  run_calls
    (run_creates sample_db
       [sample_activity 1 DRIVING 540 600; sample_activity 1 BREAK 600 630])
    [IngestOne (sample_position 1 (Some 1) 585);
     IngestOne (sample_position 1 (Some 1) 600)].

(** Driving from 08:00 to 10:00 and a position at 09:30. *)
Definition sample_db_long : DB :=
  run_calls
    (run_creates sample_db [sample_activity 1 DRIVING 480 600])
    [IngestOne (sample_position 1 (Some 1) 570)].

(** Nine hours of driving in one activity. *)
Definition sample_db_nine_hours : DB :=
  run_create sample_db (sample_activity 1 DRIVING 0 540).

(** A day of driver 1 with [minutes] of driving in two activities around
    a rest of an hour, a drive of the day after, and a drive of driver 2
    on the same day. *)
Definition sample_db_drives (minutes : Z) : DB :=
  run_creates sample_db
    [sample_activity 1 DRIVING 0 300;
     sample_activity 1 REST 300 360;
     sample_activity 1 DRIVING 360 (60 + minutes);
     sample_activity 1 DRIVING 1500 1800;
     sample_activity 2 DRIVING 0 600].

(** An instant shortly after the positions of the samples, and users of
    each role. *)
Definition sample_now : Z := 1000.

Definition sample_user (role : UserRole) : User.t :=
  User.mk "ada@example.org" role true.

(** A file of 120 bytes, all the letter A. *)
Definition sample_content : list Byte.byte := replicate 120 Byte.x41.

(** * Properties *)

(** ** The store *)

Section store_facts.
Context {A : Type}.
Implicit Types tbl : gmap Z A.

Lemma max_list_ge (l : list Z) k : k ∈ l → k ≤ foldr Z.max 0 l.
Proof.
  induction l as [|x l IH]; intros Hk.
  - by apply elem_of_nil in Hk.
  - apply elem_of_cons in Hk as [->|Hk]; simpl; [lia|].
    specialize (IH Hk). lia.
Qed.

Lemma max_key_ge tbl k a : tbl !! k = Some a → k ≤ max_key tbl.
Proof.
  intros Hk. apply max_list_ge, list_elem_of_fmap.
  exists (k, a). split; [done|]. by apply elem_of_map_to_list.
Qed.

Lemma next_id_fresh tbl : tbl !! next_id tbl = None.
Proof.
  destruct (tbl !! next_id tbl) as [a|] eqn:Hk; [|done].
  apply max_key_ge in Hk. unfold next_id in Hk. lia.
Qed.

Lemma insert_row_lookup_new tbl row :
  insert_row row tbl !! next_id tbl = Some row.
Proof. apply lookup_insert_eq. Qed.

Lemma insert_row_lookup_old tbl row k a :
  tbl !! k = Some a → insert_row row tbl !! k = Some a.
Proof.
  intros Hk. unfold insert_row. rewrite lookup_insert_ne; [done|].
  intros <-. by rewrite next_id_fresh in Hk.
Qed.

Lemma insert_row_subseteq tbl row : tbl ⊆ insert_row row tbl.
Proof. apply insert_subseteq, next_id_fresh. Qed.

Lemma insert_row_size tbl row : size (insert_row row tbl) = S (size tbl).
Proof. apply map_size_insert_None, next_id_fresh. Qed.

Lemma insert_row_lookup_inv tbl row k a :
  insert_row row tbl !! k = Some a →
  (k = next_id tbl ∧ a = row) ∨ tbl !! k = Some a.
Proof.
  unfold insert_row. intros Hk.
  destruct (decide (next_id tbl = k)) as [<-|Hne].
  - rewrite lookup_insert_eq in Hk. left. by inversion Hk.
  - rewrite lookup_insert_ne in Hk by done. by right.
Qed.
End store_facts.

(** ** Position ingestor *)

Section ingest_facts.
Import TelematicsService.
Implicit Types (db : DB) (p q : GPSPositionCreate.t) (veh : Vehicle.t).

(** *** The monotonicity guard *)



Lemma update_last_seen_mono veh p t :
  Vehicle.last_seen veh = Some t →
  ∃ t', Vehicle.last_seen (_update_vehicle_position veh p) = Some t' ∧ t ≤ t'.
Proof.
  intros Hseen. unfold _update_vehicle_position.
  destruct (is_stale veh p) eqn:Hstale.
  - exists t. split; [done|lia].
  - exists (GPSPositionCreate.timestamp p). split; [done|].
    unfold is_stale in Hstale. rewrite Hseen in Hstale. lia.
Qed.

Lemma seen_le_refl m : seen_le m m.
Proof. intros v veh t ??. exists veh, t. repeat split; [done..|lia]. Qed.

Lemma seen_le_trans m1 m2 m3 : seen_le m1 m2 → seen_le m2 m3 → seen_le m1 m3.
Proof.
  intros H12 H23 v veh t Hv Ht.
  destruct (H12 _ _ _ Hv Ht) as (veh2 & t2 & Hv2 & Ht2 & Hle).
  destruct (H23 _ _ _ Hv2 Ht2) as (veh3 & t3 & Hv3 & Ht3 & Hle').
  exists veh3, t3. repeat split; [done..|lia].
Qed.

Lemma seen_le_update m v veh p :
  m !! v = Some veh →
  seen_le m (<[v := _update_vehicle_position veh p]> m).
Proof.
  intros Hv w veh0 t Hw Ht. destruct (decide (v = w)) as [<-|Hne].
  - rewrite Hv in Hw. inversion Hw; subst veh0.
    destruct (update_last_seen_mono veh p t Ht) as (t' & Ht' & Hle).
    exists (_update_vehicle_position veh p), t'.
    by rewrite lookup_insert_eq.
  - exists veh0, t. rewrite lookup_insert_ne by done.
    repeat split; [done..|lia].
Qed.

(** *** [ingest_position] *)

Lemma check_driver_cases db p :
  (check_driver db p = Ok ()
   ∧ (truthy_int (GPSPositionCreate.driver_id p) = false
      ∨ ∃ d, GPSPositionCreate.driver_id p = Some d ∧ is_Some (drivers db !! d)))
  ∨ (∃ d, GPSPositionCreate.driver_id p = Some d ∧ d ≠ 0
          ∧ drivers db !! d = None
          ∧ check_driver db p = Raise (TelematicsServiceError (DriverNotFound d))).
Proof.
  unfold check_driver, _get_driver.
  destruct (GPSPositionCreate.driver_id p) as [d|] eqn:Hd; simpl.
  - destruct (Z.eqb_spec d 0) as [->|Hne]; simpl; [left; eauto|].
    destruct (drivers db !! d) as [drv|] eqn:Hdrv.
    + left. split; [done|]. right. exists d. eauto.
    + right. exists d. eauto.
  - left. eauto.
Qed.

Lemma check_driver_same_drivers db db' p :
  drivers db' = drivers db → check_driver db' p = check_driver db p.
Proof. unfold check_driver, _get_driver. by intros ->. Qed.

Lemma ingest_position_ok db p u veh :
  vehicles db !! GPSPositionCreate.vehicle_id p = Some veh →
  check_driver db p = Ok () →
  ingest_position db p u
  = Ok (after_ingest db p u veh, (next_id (gps_positions db), gps_row p)).
Proof. unfold ingest_position, _get_vehicle. by intros -> ->. Qed.

Lemma ingest_position_no_vehicle db p u :
  vehicles db !! GPSPositionCreate.vehicle_id p = None →
  ingest_position db p u
  = Raise (TelematicsServiceError
             (VehicleNotFound (GPSPositionCreate.vehicle_id p))).
Proof. unfold ingest_position, _get_vehicle. by intros ->. Qed.

Lemma ingest_position_no_driver db p u veh d :
  vehicles db !! GPSPositionCreate.vehicle_id p = Some veh →
  GPSPositionCreate.driver_id p = Some d → d ≠ 0 → drivers db !! d = None →
  ingest_position db p u = Raise (TelematicsServiceError (DriverNotFound d)).
Proof.
  intros Hv Hd Hne Hdrv. unfold ingest_position, _get_vehicle. rewrite Hv.
  unfold check_driver, _get_driver. rewrite Hd. simpl.
  destruct (Z.eqb_spec d 0); [done|]. by rewrite Hdrv.
Qed.

Lemma ingest_position_inv db p u db' r :
  ingest_position db p u = Ok (db', r) →
  ∃ veh, vehicles db !! GPSPositionCreate.vehicle_id p = Some veh
         ∧ check_driver db p = Ok ()
         ∧ db' = after_ingest db p u veh
         ∧ r = (next_id (gps_positions db), gps_row p).
Proof.
  unfold ingest_position, _get_vehicle.
  destruct (vehicles db !! GPSPositionCreate.vehicle_id p) as [veh|]; [|done].
  destruct (check_driver db p) as [[]|e]; simpl; [|done].
  intros [= <- <-]. by exists veh.
Qed.

Lemma accepted_same db db' p :
  vehicles db' = vehicles db → drivers db' = drivers db →
  accepted db' p = accepted db p.
Proof.
  intros Hv Hd. unfold accepted, ingest_position, _get_vehicle. rewrite Hv.
  destruct (vehicles db !! _); [|done].
  rewrite (check_driver_same_drivers db db' p Hd).
  by destruct (check_driver db p).
Qed.

Lemma accepted_true db p :
  accepted db p = true →
  ∃ veh, ingest_position db p false
         = Ok (after_ingest db p false veh, (next_id (gps_positions db), gps_row p)).
Proof.
  unfold accepted. destruct (ingest_position db p false) as [[db' r]|] eqn:H; [|done].
  intros _. apply ingest_position_inv in H as (veh & _ & _ & -> & ->). by exists veh.
Qed.

Lemma seen_le_run_one db p db' r :
  ingest_position db p true = Ok (db', r) → seen_le (vehicles db) (vehicles db').
Proof.
  intros H. apply ingest_position_inv in H as (veh & Hv & _ & -> & _).
  by apply seen_le_update.
Qed.
End ingest_facts.

(** *** The first loop of [ingest_batch] *)

Section batch_loop.
Import TelematicsService.
Implicit Types (db : DB) (p q : GPSPositionCreate.t) (st : batch_state).

Lemma batch_step_accept st p :
  accepted (batch_db st) p = true →
  batch_step st p
  = mkBatch
      (mkDB (vehicles (batch_db st)) (drivers (batch_db st))
         (insert_row (gps_row p) (gps_positions (batch_db st)))
         (driver_activities (batch_db st)))
      (mkStats (total_received (batch_stats st))
         (S (successfully_processed (batch_stats st)))
         (failed (batch_stats st)) (errors (batch_stats st)))
      (track_latest (batch_latest st) p).
Proof.
  intros Hacc. apply accepted_true in Hacc as (veh & Hok).
  unfold batch_step. by rewrite Hok.
Qed.

Lemma batch_step_reject st p :
  accepted (batch_db st) p = false →
  ∃ err,
    batch_step st p
    = mkBatch (batch_db st)
        (mkStats (total_received (batch_stats st))
           (successfully_processed (batch_stats st))
           (S (failed (batch_stats st))) (errors (batch_stats st) ++ [err]))
        (track_latest (batch_latest st) p)
    ∧ ∀ msg, ingest_position (batch_db st) p false
             = Raise (TelematicsServiceError msg) → err = Str msg.
Proof.
  unfold accepted, batch_step.
  destruct (ingest_position (batch_db st) p false) as [[db' r]|[msg|msg]]; [done|..];
    intros _; eexists; (split; [reflexivity|]); by intros ? [= ->].
Qed.

(** The loop leaves the vehicle, driver and activity tables alone,
    inserts one row per accepted position, in order, counts each position
    once and tracks the latest position of every position received. *)
Lemma batch_loop_spec ps st :
  let st' := foldl batch_step st ps in
  let ok := filter (λ p, accepted (batch_db st) p = true) ps in
  vehicles (batch_db st') = vehicles (batch_db st)
  ∧ drivers (batch_db st') = drivers (batch_db st)
  ∧ driver_activities (batch_db st') = driver_activities (batch_db st)
  ∧ gps_positions (batch_db st')
    = insert_positions (gps_positions (batch_db st)) ok
  ∧ total_received (batch_stats st') = total_received (batch_stats st)
  ∧ successfully_processed (batch_stats st')
    = (successfully_processed (batch_stats st) + length ok)%nat
  ∧ (failed (batch_stats st') + length ok
     = failed (batch_stats st) + length ps)%nat
  ∧ (length (errors (batch_stats st')) + length ok
     = length (errors (batch_stats st)) + length ps)%nat
  ∧ batch_latest st' = foldl track_latest (batch_latest st) ps.
Proof.
  revert st. induction ps as [|p ps IH]; intros st; simpl.
  { repeat split; lia. }
  specialize (IH (batch_step st p)). simpl in IH.
  destruct IH as (Hv & Hd & Ha & Hg & Ht & Hs & Hf & He & Hl).
  destruct (accepted (batch_db st) p) eqn:Hacc.
  - rewrite (batch_step_accept st p Hacc) in *. simpl in *.
    rewrite filter_cons_True by done.
    erewrite (list_filter_iff _ (λ p, accepted (batch_db st) p = true)) in Hg, Hs, Hf, He
      by (intros q; by rewrite (accepted_same (batch_db st))).
    simpl. repeat split; try done; lia.
  - destruct (batch_step_reject st p Hacc) as (err & Hstep & _).
    rewrite Hstep in *. simpl in *.
    rewrite filter_cons_False by (by rewrite Hacc).
    rewrite length_app in He. simpl in He.
    repeat split; try done; lia.
Qed.

Lemma batch_error_same db db' p :
  vehicles db' = vehicles db → drivers db' = drivers db →
  batch_error db' p = batch_error db p.
Proof.
  intros Hv Hd. unfold batch_error, ingest_position, _get_vehicle. rewrite Hv.
  destruct (vehicles db !! _); [|done].
  rewrite (check_driver_same_drivers db db' p Hd).
  by destruct (check_driver db p).
Qed.

Lemma batch_step_tables st p :
  vehicles (batch_db (batch_step st p)) = vehicles (batch_db st)
  ∧ drivers (batch_db (batch_step st p)) = drivers (batch_db st)
  ∧ errors (batch_stats (batch_step st p))
    = errors (batch_stats st) ++ option_list (batch_error (batch_db st) p).
Proof.
  unfold batch_step, batch_error.
  destruct (ingest_position (batch_db st) p false) as [[db' r]|[msg|msg]] eqn:H;
    simpl; [|done..].
  apply ingest_position_inv in H as (veh & _ & _ & -> & _). simpl.
  by rewrite app_nil_r.
Qed.

Lemma batch_loop_errors ps st :
  errors (batch_stats (foldl batch_step st ps))
  = errors (batch_stats st) ++ omap (batch_error (batch_db st)) ps.
Proof.
  revert st. induction ps as [|p ps IH]; intros st; simpl.
  { by rewrite app_nil_r. }
  destruct (batch_step_tables st p) as (Hv & Hd & He).
  rewrite IH, He, <- app_assoc. f_equal.
  rewrite (list_omap_ext (batch_error (batch_db (batch_step st p)))
             (batch_error (batch_db st)) ps ps).
  - by destruct (batch_error (batch_db st) p).
  - apply Forall2_same_length_lookup_2; [done|].
    intros i q q' Hq Hq'. rewrite Hq in Hq'. inversion Hq'; subst.
    by apply batch_error_same.
Qed.
End batch_loop.

(** *** The dictionary of latest positions and the second loop *)

Section latest.
Import TelematicsService.
Implicit Types (db : DB) (p q : GPSPositionCreate.t).
Implicit Types d : list (Z * GPSPositionCreate.t).

Lemma dict_get_set {V} (k k' : Z) (v : V) (d : list (Z * V)) :
  dict_get k (dict_set k' v d) = if decide (k = k') then Some v else dict_get k d.
Proof.
  induction d as [|[k0 v0] d IH]; simpl.
  - by destruct (decide (k = k')).
  - destruct (decide (k' = k0)) as [->|Hne]; simpl.
    + by destruct (decide (k = k0)).
    + destruct (decide (k = k0)) as [->|Hne'].
      * destruct (decide (k0 = k')); [congruence|done].
      * apply IH.
Qed.

Lemma dict_get_None {V} (k : Z) (d : list (Z * V)) :
  k ∉ d.*1 → dict_get k d = None.
Proof.
  induction d as [|[k0 v0] d IH]; simpl; [done|].
  intros Hk. apply not_elem_of_cons in Hk as [Hne Hk].
  destruct (decide (k = k0)); [done|]. by apply IH.
Qed.

Lemma dict_set_keys {V} (k k0 : Z) (v : V) (d : list (Z * V)) :
  k0 ∈ (dict_set k v d).*1 → k0 = k ∨ k0 ∈ d.*1.
Proof.
  induction d as [|[k1 v1] d IH]; simpl.
  - intros H. apply list_elem_of_singleton in H. by left.
  - destruct (decide (k = k1)) as [->|Hne]; simpl; intros H.
    + by right.
    + apply elem_of_cons in H as [->|H]; [right; left|].
      destruct (IH H) as [->|?]; [by left|right; by right].
Qed.

Lemma dict_set_NoDup {V} (k : Z) (v : V) (d : list (Z * V)) :
  NoDup d.*1 → NoDup (dict_set k v d).*1.
Proof.
  induction d as [|[k1 v1] d IH]; simpl; intros Hnd.
  - apply NoDup_singleton.
  - apply NoDup_cons in Hnd as [Hk1 Hnd].
    destruct (decide (k = k1)) as [->|Hne]; simpl.
    + by apply NoDup_cons.
    + apply NoDup_cons. split; [|by apply IH].
      intros Hin. apply dict_set_keys in Hin as [?|?]; [congruence|done].
Qed.

Lemma track_latest_NoDup d p : NoDup d.*1 → NoDup (track_latest d p).*1.
Proof.
  intros Hnd. unfold track_latest.
  destruct (dict_get _ d) as [cur|]; [destruct (_ <? _)|];
    auto using dict_set_NoDup.
Qed.

Lemma foldl_track_latest_NoDup ps d :
  NoDup d.*1 → NoDup (foldl track_latest d ps).*1.
Proof.
  revert d. induction ps as [|p ps IH]; intros d Hnd; simpl; [done|].
  by apply IH, track_latest_NoDup.
Qed.

Lemma dict_get_track v d p :
  dict_get v (track_latest d p) = later_of v (dict_get v d) p.
Proof.
  unfold track_latest, later_of.
  destruct (decide (GPSPositionCreate.vehicle_id p = v)) as [<-|Hne].
  - destruct (dict_get _ d) as [c|] eqn:Hget.
    + destruct (_ <? _); [|done]. rewrite dict_get_set. by rewrite decide_True.
    + rewrite dict_get_set. by rewrite decide_True.
  - destruct (dict_get (GPSPositionCreate.vehicle_id p) d) as [c|];
      [destruct (_ <? _)|]; rewrite ?dict_get_set;
      try done; by rewrite decide_False.
Qed.

Lemma dict_get_foldl_track v ps d :
  dict_get v (foldl track_latest d ps) = foldl (later_of v) (dict_get v d) ps.
Proof.
  revert d. induction ps as [|p ps IH]; intros d; simpl; [done|].
  by rewrite IH, dict_get_track.
Qed.

Lemma later_of_origin v ps cur p :
  foldl (later_of v) cur ps = Some p →
  cur = Some p ∨ (p ∈ ps ∧ GPSPositionCreate.vehicle_id p = v).
Proof.
  revert cur. induction ps as [|q ps IH]; intros cur; simpl; [by left|].
  intros H. destruct (IH _ H) as [Hq|[Hin Hv]].
  - unfold later_of in Hq.
    destruct (decide (GPSPositionCreate.vehicle_id q = v)) as [Hqv|]; [|by left].
    destruct cur as [c|].
    + destruct (_ <? _); [|by left]. inversion Hq; subst. right. split; [left|done].
    + inversion Hq; subst. right. split; [left|done].
  - right. split; [by right|done].
Qed.

Lemma later_of_keeps v ps p :
  GPSPositionCreate.vehicle_id p = v →
  Forall (λ q, GPSPositionCreate.vehicle_id q = v →
               GPSPositionCreate.timestamp q ≤ GPSPositionCreate.timestamp p) ps →
  foldl (later_of v) (Some p) ps = Some p.
Proof.
  intros Hv. induction 1 as [|q ps Hq _ IH]; simpl; [done|].
  rewrite <- IH at 2. f_equal. unfold later_of.
  destruct (decide _) as [Hqv|]; [|done].
  specialize (Hq Hqv). destruct (Z.ltb_spec (GPSPositionCreate.timestamp p)
    (GPSPositionCreate.timestamp q)); [lia|done].
Qed.

Lemma later_of_takes v ps cur p :
  GPSPositionCreate.vehicle_id p = v →
  Forall (λ q, GPSPositionCreate.vehicle_id q = v →
               GPSPositionCreate.timestamp q < GPSPositionCreate.timestamp p) ps →
  match cur with
  | Some c => GPSPositionCreate.timestamp c < GPSPositionCreate.timestamp p
  | None => True
  end →
  later_of v (foldl (later_of v) cur ps) p = Some p.
Proof.
  intros Hv Hps. revert cur. induction Hps as [|q ps Hq _ IH]; intros cur Hcur; simpl.
  - unfold later_of. rewrite decide_True by done.
    destruct cur as [c|]; [|done].
    by destruct (Z.ltb_spec (GPSPositionCreate.timestamp c)
                   (GPSPositionCreate.timestamp p)); [|lia].
  - apply IH. unfold later_of. destruct (decide _) as [Hqv|]; [|done].
    specialize (Hq Hqv). destruct cur as [c|]; [|done].
    by destruct (_ <? _).
Qed.

(** The first position of greatest timestamp for its vehicle is the one
    kept. *)
Lemma latest_of_batch ps1 p ps2 :
  Forall (λ q, GPSPositionCreate.vehicle_id q = GPSPositionCreate.vehicle_id p →
               GPSPositionCreate.timestamp q < GPSPositionCreate.timestamp p) ps1 →
  Forall (λ q, GPSPositionCreate.vehicle_id q = GPSPositionCreate.vehicle_id p →
               GPSPositionCreate.timestamp q ≤ GPSPositionCreate.timestamp p) ps2 →
  dict_get (GPSPositionCreate.vehicle_id p)
    (foldl track_latest [] (ps1 ++ p :: ps2)) = Some p.
Proof.
  intros H1 H2. rewrite dict_get_foldl_track, foldl_app. simpl.
  rewrite (later_of_takes _ ps1 None p); [|done..].
  by apply later_of_keeps.
Qed.

Lemma apply_latest_other_tables d db :
  drivers (foldl apply_latest db d) = drivers db
  ∧ gps_positions (foldl apply_latest db d) = gps_positions db
  ∧ driver_activities (foldl apply_latest db d) = driver_activities db.
Proof.
  revert db. induction d as [|item d IH]; intros db; simpl; [done|].
  destruct (IH (apply_latest db item)) as (-> & -> & ->).
  unfold apply_latest. by destruct (_get_vehicle db item.1).
Qed.

Lemma apply_latest_lookup d db v :
  NoDup d.*1 →
  vehicles (foldl apply_latest db d) !! v
  = match dict_get v d with
    | Some p => (λ veh, _update_vehicle_position veh p) <$> vehicles db !! v
    | None => vehicles db !! v
    end.
Proof.
  revert db. induction d as [|[k p] d IH]; intros db Hnd; simpl; [done|].
  apply NoDup_cons in Hnd as [Hk Hnd]. rewrite IH by done.
  unfold apply_latest, _get_vehicle. simpl.
  destruct (decide (v = k)) as [->|Hne].
  - rewrite (dict_get_None k d Hk).
    destruct (vehicles db !! k) as [veh|] eqn:Hveh; simpl.
    + by rewrite lookup_insert_eq.
    + by rewrite Hveh.
  - assert (vehicles (match vehicles db !! k with
                      | Some vehicle =>
                          mkDB (<[k := _update_vehicle_position vehicle p]> (vehicles db))
                            (drivers db) (gps_positions db) (driver_activities db)
                      | None => db
                      end) !! v = vehicles db !! v) as ->; [|done].
    destruct (vehicles db !! k); simpl; [|done]. by rewrite lookup_insert_ne.
Qed.

Lemma apply_latest_seen_le d db :
  seen_le (vehicles db) (vehicles (foldl apply_latest db d)).
Proof.
  revert db. induction d as [|[k p] d IH]; intros db; simpl; [apply seen_le_refl|].
  eapply seen_le_trans; [|apply IH].
  unfold apply_latest, _get_vehicle. simpl.
  destruct (vehicles db !! k) as [veh|] eqn:Hveh; simpl;
    [by apply seen_le_update|apply seen_le_refl].
Qed.
End latest.

(** *** [ingest_batch] as a whole *)

Section batch_facts.
Import TelematicsService.
Implicit Types (db : DB) (p q : GPSPositionCreate.t).

Lemma ingest_batch_vehicles db ps v :
  vehicles (ingest_batch db ps).1 !! v
  = match dict_get v (foldl track_latest [] ps) with
    | Some p => (λ veh, _update_vehicle_position veh p) <$> vehicles db !! v
    | None => vehicles db !! v
    end.
Proof.
  unfold ingest_batch. simpl.
  destruct (batch_loop_spec ps (mkBatch db (mkStats (length ps) 0 0 []) []))
    as (Hv & _ & _ & _ & _ & _ & _ & _ & Hl). simpl in Hv, Hl.
  rewrite apply_latest_lookup, Hv, Hl; [done|].
  rewrite Hl. apply foldl_track_latest_NoDup, NoDup_nil_2.
Qed.

Lemma ingest_batch_gps db ps :
  gps_positions (ingest_batch db ps).1
  = insert_positions (gps_positions db) (filter (λ p, accepted db p = true) ps).
Proof.
  unfold ingest_batch. simpl.
  destruct (batch_loop_spec ps (mkBatch db (mkStats (length ps) 0 0 []) []))
    as (_ & _ & _ & Hg & _). simpl in Hg.
  by destruct (apply_latest_other_tables
       (batch_latest (foldl batch_step (mkBatch db (mkStats (length ps) 0 0 []) []) ps))
       (batch_db (foldl batch_step (mkBatch db (mkStats (length ps) 0 0 []) []) ps)))
    as (_ & -> & _).
Qed.

Lemma ingest_batch_stats db ps :
  let stats := (ingest_batch db ps).2 in
  let ok := filter (λ p, accepted db p = true) ps in
  total_received stats = length ps
  ∧ successfully_processed stats = length ok
  ∧ (failed stats + length ok = length ps)%nat
  ∧ length (errors stats) = failed stats.
Proof.
  unfold ingest_batch. simpl.
  destruct (batch_loop_spec ps (mkBatch db (mkStats (length ps) 0 0 []) []))
    as (_ & _ & _ & _ & Ht & Hs & Hf & He & _). simpl in *.
  repeat split; [done|done|lia|lia].
Qed.

Lemma ingest_batch_seen_le db ps :
  seen_le (vehicles db) (vehicles (ingest_batch db ps).1).
Proof.
  unfold ingest_batch. simpl.
  destruct (batch_loop_spec ps (mkBatch db (mkStats (length ps) 0 0 []) []))
    as (Hv & _). simpl in Hv. rewrite <- Hv at 1. apply apply_latest_seen_le.
Qed.

Lemma run_call_seen_le db c : seen_le (vehicles db) (vehicles (run_call db c)).
Proof.
  destruct c as [p|ps]; simpl.
  - destruct (ingest_position db p true) as [[db' r]|e] eqn:H.
    + by eapply seen_le_run_one.
    + apply seen_le_refl.
  - apply ingest_batch_seen_le.
Qed.

Lemma run_calls_seen_le cs db : seen_le (vehicles db) (vehicles (run_calls db cs)).
Proof.
  revert db. induction cs as [|c cs IH]; intros db; simpl; [apply seen_le_refl|].
  eapply seen_le_trans; [apply run_call_seen_le|apply IH].
Qed.

Lemma insert_positions_subseteq ps (tbl : gmap Z GPSPosition.t) :
  tbl ⊆ insert_positions tbl ps.
Proof.
  revert tbl. induction ps as [|p ps IH]; intros tbl; simpl; [done|].
  etrans; [apply (insert_row_subseteq tbl (gps_row p))|apply IH].
Qed.

(** Every position of the list has a row of its own among the new ones. *)
Lemma insert_positions_elem ps (tbl : gmap Z GPSPosition.t) p :
  p ∈ ps →
  ∃ id, tbl !! id = None ∧ insert_positions tbl ps !! id = Some (gps_row p).
Proof.
  revert tbl. induction ps as [|q ps IH]; intros tbl Hin.
  { by apply elem_of_nil in Hin. }
  apply elem_of_cons in Hin as [->|Hin]; simpl.
  - exists (next_id tbl). split; [apply next_id_fresh|].
    eapply lookup_weaken; [apply insert_row_lookup_new|apply insert_positions_subseteq].
  - destruct (IH (insert_row (gps_row q) tbl) Hin) as (id & Hnone & Hsome).
    exists id. split; [|done].
    destruct (tbl !! id) as [row|] eqn:Hid; [|done].
    by rewrite (insert_row_lookup_old tbl (gps_row q) id row Hid) in Hnone.
Qed.

Lemma insert_positions_new ps (tbl : gmap Z GPSPosition.t) id row :
  insert_positions tbl ps !! id = Some row →
  tbl !! id = Some row ∨ ∃ p, p ∈ ps ∧ row = gps_row p.
Proof.
  revert tbl. induction ps as [|q ps IH]; intros tbl; simpl; [by left|].
  intros H. destruct (IH _ H) as [Hq|(p & Hp & ->)].
  - apply insert_row_lookup_inv in Hq as [[_ ->]|?]; [right|by left].
    exists q. split; [left|done].
  - right. exists p. split; [by right|done].
Qed.

Lemma insert_positions_size ps (tbl : gmap Z GPSPosition.t) :
  size (insert_positions tbl ps) = (size tbl + length ps)%nat.
Proof.
  revert tbl. induction ps as [|q ps IH]; intros tbl; simpl; [lia|].
  rewrite IH, insert_row_size. lia.
Qed.
End batch_facts.

(** ** The position ingestor: monotonicity and batches *)

Section ingest_properties.
Import TelematicsService.
Implicit Types (db : DB) (p q : GPSPositionCreate.t) (veh : Vehicle.t).




End ingest_properties.

Section batch_properties.
Import TelematicsService.
Implicit Types (db : DB) (p q : GPSPositionCreate.t) (veh : Vehicle.t).

Lemma ingest_batch_errors db ps :
  errors (ingest_batch db ps).2 = omap (batch_error db) ps.
Proof. unfold ingest_batch. simpl. by rewrite batch_loop_errors. Qed.

Lemma batch_of_three db p1 p2 p3 :
  accepted db p1 = true →
  vehicles db !! GPSPositionCreate.vehicle_id p2 = None →
  accepted db p3 = true →
  (ingest_batch db [p1; p2; p3]).2
  = mkStats 3 2 1 [Str (VehicleNotFound (GPSPositionCreate.vehicle_id p2))]
  ∧ gps_positions (ingest_batch db [p1; p2; p3]).1
    = insert_row (gps_row p3) (insert_row (gps_row p1) (gps_positions db)).
Proof.
  intros H1 H2 H3.
  assert (accepted db p2 = false) as H2'.
  { unfold accepted. by rewrite ingest_position_no_vehicle. }
  assert (filter (λ p, accepted db p = true) [p1; p2; p3] = [p1; p3]) as Hok.
  { rewrite filter_cons_True, filter_cons_False, filter_cons_True by congruence.
    done. }
  split.
  - pose proof (ingest_batch_stats db [p1; p2; p3]) as (Ht & Hs & Hf & _).
    pose proof (ingest_batch_errors db [p1; p2; p3]) as He.
    rewrite Hok in Hs, Hf.
    destruct (ingest_batch db [p1; p2; p3]).2 as [t s f e].
    cbn [total_received successfully_processed failed errors length] in *.
    assert (f = 1%nat) as -> by lia. subst t s e. f_equal. simpl.
    unfold batch_error. unfold accepted in H1, H3.
    destruct (ingest_position db p1 false); [|done].
    destruct (ingest_position db p3 false); [|done].
    by rewrite ingest_position_no_vehicle.
  - by rewrite ingest_batch_gps, Hok.
Qed.

(** C9. The latest position of a vehicle is chosen among all the
    positions received: one that fails the driver check, and is therefore
    not stored, still overwrites the vehicle's state when it is the first
    of greatest timestamp. *)
Theorem failed_position_updates_state db ps1 p ps2 veh d :
  vehicles db !! GPSPositionCreate.vehicle_id p = Some veh →
  GPSPositionCreate.driver_id p = Some d → d ≠ 0 → drivers db !! d = None →
  Forall (λ q, GPSPositionCreate.vehicle_id q = GPSPositionCreate.vehicle_id p →
               GPSPositionCreate.timestamp q < GPSPositionCreate.timestamp p) ps1 →
  Forall (λ q, GPSPositionCreate.vehicle_id q = GPSPositionCreate.vehicle_id p →
               GPSPositionCreate.timestamp q ≤ GPSPositionCreate.timestamp p) ps2 →
  is_stale veh p = false →
  let db' := (ingest_batch db (ps1 ++ p :: ps2)).1 in
  let stats := (ingest_batch db (ps1 ++ p :: ps2)).2 in
  (∃ veh',
     vehicles db' !! GPSPositionCreate.vehicle_id p = Some veh'
     ∧ Vehicle.last_seen veh' = Some (GPSPositionCreate.timestamp p)
     ∧ Vehicle.current_position veh'
       = Some (POINT (GPSPositionCreate.lon p) (GPSPositionCreate.lat p))
     ∧ Vehicle.current_speed veh' = GPSPositionCreate.speed p
     ∧ Vehicle.current_heading veh' = GPSPositionCreate.heading p)
  ∧ ingest_position db p false = Raise (TelematicsServiceError (DriverNotFound d))
  ∧ Str (DriverNotFound d) ∈ errors stats
  ∧ (0 < failed stats)%nat
  ∧ (successfully_processed stats < total_received stats)%nat
  ∧ ∀ id, gps_positions db' !! id = Some (gps_row p) →
          gps_positions db !! id = Some (gps_row p).
Proof.
  intros Hv Hd Hne Hdrv H1 H2 Hfresh. cbv zeta.
  pose proof (ingest_position_no_driver db p false veh d Hv Hd Hne Hdrv) as Hraise.
  assert (Str (DriverNotFound d) ∈ errors (ingest_batch db (ps1 ++ p :: ps2)).2) as Herr.
  { rewrite ingest_batch_errors. apply list_elem_of_omap. exists p.
    split; [set_solver|]. unfold batch_error. by rewrite Hraise. }
  pose proof (ingest_batch_stats db (ps1 ++ p :: ps2)) as (Ht & Hs & Hf & He).
  cbv zeta in Ht, Hs, Hf, He.
  assert (0 < failed (ingest_batch db (ps1 ++ p :: ps2)).2)%nat as Hfailed.
  { rewrite <- He. destruct (errors _); [by apply elem_of_nil in Herr|simpl; lia]. }
  repeat split; try done.
  - exists (_update_vehicle_position veh p).
    rewrite ingest_batch_vehicles, latest_of_batch, Hv by done.
    split; [done|]. unfold _update_vehicle_position. rewrite Hfresh. simpl.
    by repeat split.
  - lia.
  - intros id Hid. rewrite ingest_batch_gps in Hid.
    apply insert_positions_new in Hid as [?|(q & Hq & Heq)]; [done|].
    apply list_elem_of_filter in Hq as [Hacc _].
    apply accepted_true in Hacc as (veh' & Hok).
    apply ingest_position_inv in Hok as (_ & _ & Hchk & _).
    assert (GPSPositionCreate.driver_id q = Some d) as Hqd.
    { apply (f_equal GPSPosition.driver_id) in Heq. simpl in Heq. congruence. }
    unfold check_driver, _get_driver in Hchk. rewrite Hqd in Hchk. simpl in Hchk.
    destruct (Z.eqb_spec d 0); [done|]. by rewrite Hdrv in Hchk.
Qed.
End batch_properties.

(** ** Activity store *)

Section overlap_facts.
Import ActivityService.
Implicit Types (db : DB) (tbl : gmap Z DriverActivity.t) (row : DriverActivity.t).

Lemma elem_of_rows_of tbl row : row ∈ rows_of tbl ↔ ∃ k, tbl !! k = Some row.
Proof.
  unfold rows_of. rewrite list_elem_of_fmap. split.
  - intros ([k r] & -> & Hin). exists k. by apply elem_of_map_to_list.
  - intros (k & Hk). exists (k, row). split; [done|]. by apply elem_of_map_to_list.
Qed.


Lemma find_overlapping_None db d s e :
  _find_overlapping_activity db d s e = None ↔
  ∀ k row, driver_activities db !! k = Some row → ¬ overlaps d s e row.
Proof.
  unfold _find_overlapping_activity. rewrite head_None. split.
  - intros Hnil k row Hk Hov.
    assert ((k, row) ∈ filter (λ kr, overlaps d s e kr.2)
                         (map_to_list (driver_activities db))) as Hin.
    { apply list_elem_of_filter. split; [done|]. by apply elem_of_map_to_list. }
    rewrite Hnil in Hin. by apply elem_of_nil in Hin.
  - intros Hno.
    destruct (filter _ _) as [|[k row] l] eqn:Hf; [done|].
    assert ((k, row) ∈ filter (λ kr, overlaps d s e kr.2)
                         (map_to_list (driver_activities db))) as Hin
      by (rewrite Hf; left).
    apply list_elem_of_filter in Hin as [Hov Hin].
    apply elem_of_map_to_list in Hin. by destruct (Hno k row).
Qed.

Lemma find_overlapping_is_Some db d s e k row :
  driver_activities db !! k = Some row → overlaps d s e row →
  ∃ kr, _find_overlapping_activity db d s e = Some kr.
Proof.
  intros Hk Hov.
  destruct (_find_overlapping_activity db d s e) as [kr|] eqn:H; [by exists kr|].
  rewrite find_overlapping_None in H. by destruct (H k row).
Qed.
End overlap_facts.

Section create_properties.
Import ActivityService.
Implicit Types (db : DB) (tbl : gmap Z DriverActivity.t) (row : DriverActivity.t).
Implicit Types data : DriverActivityCreate.t.

Lemma rows_overlap_sym r1 r2 : rows_overlap r1 r2 → rows_overlap r2 r1.
Proof. unfold rows_overlap, overlaps. intros (-> & ? & ?). done. Qed.



Lemma run_create_no_overlap db data :
  no_overlap (driver_activities db) →
  no_overlap (driver_activities (run_create db data)).
Proof.
  intros Hinv. unfold run_create, create_activity.
  destruct (_find_overlapping_activity _ _ _ _) as [kr|] eqn:Hfind; [done|].
  rewrite find_overlapping_None in Hfind. simpl.
  pose proof (next_id_fresh (driver_activities db)) as Hfresh.
  intros k1 k2 r1 r2 Hne H1 H2.
  apply insert_row_lookup_inv in H1 as [[-> ->]|H1];
    apply insert_row_lookup_inv in H2 as [[-> ->]|H2].
  - done.
  - intros Hov. apply rows_overlap_sym in Hov. by apply (Hfind k2 r2).
  - by apply (Hfind k1 r1).
  - by apply (Hinv k1 k2).
Qed.

Lemma run_creates_no_overlap datas db :
  no_overlap (driver_activities db) →
  no_overlap (driver_activities (run_creates db datas)).
Proof.
  revert db. induction datas as [|data datas IH]; intros db Hinv; simpl; [done|].
  by apply IH, run_create_no_overlap.
Qed.

End create_properties.

(** ** Bulk storage *)

Section store_loop_facts.
Import ActivityService.
Implicit Types (db : DB) (tbl : gmap Z DriverActivity.t) (row : DriverActivity.t).
Implicit Types (r : ActivityRecord.t) (vis : list DriverActivity.t).

Variable autoflush : bool.
Variables (driver_id : Z) (vehicle_id : option Z)
          (source_file : string) (card_number : option string).

#[local] Abbreviation mk_row := (new_activity driver_id vehicle_id source_file card_number).
#[local] Abbreviation kept_of :=
  (kept_records autoflush driver_id vehicle_id source_file card_number).
#[local] Abbreviation step := (store_step autoflush driver_id vehicle_id source_file card_number).

Lemma lists_rows_of tbl : lists_rows (rows_of tbl) tbl.
Proof. intros row. apply elem_of_rows_of. Qed.

Lemma lists_rows_insert vis tbl row :
  lists_rows vis tbl → lists_rows (vis ++ [row]) (insert_row row tbl).
Proof.
  intros Hvis row'. rewrite elem_of_app, list_elem_of_singleton. split.
  - intros [Hin| ->].
    + apply Hvis in Hin as (k & Hk). exists k. by apply insert_row_lookup_old.
    + exists (next_id tbl). apply insert_row_lookup_new.
  - intros (k & Hk). apply insert_row_lookup_inv in Hk as [[_ ->]|Hk]; [by right|].
    left. apply Hvis. eauto.
Qed.

Lemma find_overlapping_vis db vis r :
  lists_rows vis (driver_activities db) →
  (overlaps_any driver_id vis r →
   ∃ kr, _find_overlapping_activity db driver_id
           (ActivityRecord.start_time r) (ActivityRecord.end_time r) = Some kr)
  ∧ (¬ overlaps_any driver_id vis r →
     _find_overlapping_activity db driver_id
       (ActivityRecord.start_time r) (ActivityRecord.end_time r) = None).
Proof.
  intros Hvis. unfold overlaps_any. rewrite Exists_exists. split.
  - intros (row & Hin & Hov). apply Hvis in Hin as (k & Hk).
    by eapply find_overlapping_is_Some.
  - intros Hno. apply find_overlapping_None. intros k row Hk Hov.
    apply Hno. exists row. split; [|done]. apply Hvis. eauto.
Qed.

Lemma flush_pending_app tbl l1 l2 :
  flush_pending tbl (l1 ++ l2) = flush_pending (flush_pending tbl l1) l2.
Proof. apply foldl_app. Qed.

Lemma step_skip st vis r :
  lists_rows vis (queried autoflush st) → overlaps_any driver_id vis r →
  let st' := step st r in
  lists_rows vis (queried autoflush st')
  ∧ flushed st' = flushed st
  ∧ created st' = created st ∧ skipped st' = S (skipped st)
  ∧ vehicles (store_db st') = vehicles (store_db st)
  ∧ drivers (store_db st') = drivers (store_db st)
  ∧ gps_positions (store_db st') = gps_positions (store_db st)
  ∧ (length (store_pending st') ≤ length (store_pending st))%nat
  ∧ (store_pending st = [] →
     driver_activities (store_db st') = driver_activities (store_db st)).
Proof.
  unfold queried, flushed, store_step. intros Hvis Hov.
  destruct (find_overlapping_vis (before_query autoflush st).1 vis r Hvis)
    as [Hsome _].
  destruct (Hsome Hov) as (kr & Hfind). clear Hsome.
  unfold before_query in *. destruct autoflush; simpl in *; rewrite Hfind.
  - destruct (is_exact_duplicate _ _); simpl;
      (repeat split; [apply Hvis|apply Hvis|lia|by intros ->]).
  - destruct (is_exact_duplicate _ _); simpl;
      (repeat split; [apply Hvis|apply Hvis|lia]).
Qed.

Lemma step_keep st vis r :
  lists_rows vis (queried autoflush st) → ¬ overlaps_any driver_id vis r →
  let st' := step st r in
  lists_rows (if autoflush then vis ++ [mk_row r] else vis) (queried autoflush st')
  ∧ flushed st' = flush_pending (flushed st) [mk_row r]
  ∧ created st' = S (created st) ∧ skipped st' = skipped st
  ∧ vehicles (store_db st') = vehicles (store_db st)
  ∧ drivers (store_db st') = drivers (store_db st)
  ∧ gps_positions (store_db st') = gps_positions (store_db st).
Proof.
  unfold queried, flushed, store_step. intros Hvis Hno.
  destruct (find_overlapping_vis (before_query autoflush st).1 vis r Hvis)
    as [_ Hnone].
  specialize (Hnone Hno).
  unfold before_query in *. destruct autoflush; simpl in *; rewrite Hnone; simpl.
  - split; [|done]. by apply lists_rows_insert.
  - split; [done|]. split; [apply flush_pending_app|done].
Qed.

Lemma store_loop_spec records st vis :
  lists_rows vis (queried autoflush st) →
  let st' := foldl step st records in
  let kept := kept_of vis records in
  flushed st' = flush_pending (flushed st) (mk_row <$> kept)
  ∧ created st' = (created st + length kept)%nat
  ∧ (skipped st' + length kept = skipped st + length records)%nat
  ∧ vehicles (store_db st') = vehicles (store_db st)
  ∧ drivers (store_db st') = drivers (store_db st)
  ∧ gps_positions (store_db st') = gps_positions (store_db st)
  ∧ (store_pending st = [] → kept = [] →
     driver_activities (store_db st') = driver_activities (store_db st)).
Proof.
  revert st vis. induction records as [|r records IH]; intros st vis Hvis; simpl.
  { repeat split; lia. }
  destruct (decide (overlaps_any driver_id vis r)) as [Hov|Hno].
  - destruct (step_skip st vis r Hvis Hov)
      as (Hvis' & Hfl & Hc & Hs & Hv & Hd & Hg & Hlen & Htbl).
    destruct (IH _ _ Hvis') as (Hfl' & Hc' & Hs' & Hv' & Hd' & Hg' & Htbl').
    rewrite Hfl', Hc', Hv', Hd', Hg', Hfl, Hc, Hv, Hd, Hg.
    repeat split; [lia|].
    intros Hnil Hkept. rewrite Htbl'; [by apply Htbl| |done].
    rewrite Hnil in Hlen. destruct (store_pending (step st r)); [done|].
    simpl in Hlen. lia.
  - destruct (step_keep st vis r Hvis Hno) as (Hvis' & Hfl & Hc & Hs & Hv & Hd & Hg).
    destruct (IH _ _ Hvis') as (Hfl' & Hc' & Hs' & Hv' & Hd' & Hg' & _).
    rewrite Hfl', Hc', Hv', Hd', Hg', Hfl, Hc, Hv, Hd, Hg. simpl.
    repeat split; [lia|lia|done].
Qed.

Lemma overlaps_any_app vis vis' r :
  overlaps_any driver_id (vis ++ vis') r ↔ overlaps_any driver_id vis r ∨ overlaps_any driver_id vis' r.
Proof. apply Exists_app. Qed.

Lemma kept_records_sound records vis r :
  r ∈ kept_of vis records → r ∈ records ∧ ¬ overlaps_any driver_id vis r.
Proof.
  revert vis. induction records as [|r0 records IH]; intros vis; simpl.
  { intros H. by apply elem_of_nil in H. }
  destruct (decide (overlaps_any driver_id vis r0)) as [Hov|Hno].
  - intros H. destruct (IH _ H). split; [by right|done].
  - intros H. apply elem_of_cons in H as [->|H]; [split; [left|done]|].
    destruct (IH _ H) as [Hin Hnor]. split; [by right|].
    destruct autoflush; [|done].
    intros Hov. apply Hnor, overlaps_any_app. by left.
Qed.


Lemma kept_records_length records vis :
  (length (kept_of vis records) ≤ length records)%nat.
Proof.
  revert vis. induction records as [|r records IH]; intros vis; simpl; [lia|].
  destruct (decide _); simpl.
  - specialize (IH vis). lia.
  - specialize (IH (if autoflush then vis ++ [mk_row r] else vis)). lia.
Qed.
End store_loop_facts.

Section flush_facts.
Import ActivityService.
Implicit Types (tbl : gmap Z DriverActivity.t) (rows : list DriverActivity.t).

Lemma flush_pending_subseteq rows tbl : tbl ⊆ flush_pending tbl rows.
Proof.
  revert tbl. induction rows as [|row rows IH]; intros tbl; simpl; [done|].
  etrans; [apply (insert_row_subseteq tbl row)|apply IH].
Qed.

Lemma flush_pending_size rows tbl :
  size (flush_pending tbl rows) = (size tbl + length rows)%nat.
Proof.
  revert tbl. induction rows as [|row rows IH]; intros tbl; simpl; [lia|].
  unfold flush_pending in IH. rewrite IH, insert_row_size. lia.
Qed.

Lemma flush_pending_elem rows tbl row :
  row ∈ rows → ∃ k, tbl !! k = None ∧ flush_pending tbl rows !! k = Some row.
Proof.
  revert tbl. induction rows as [|row0 rows IH]; intros tbl Hin.
  { by apply elem_of_nil in Hin. }
  apply elem_of_cons in Hin as [->|Hin]; simpl.
  - exists (next_id tbl). split; [apply next_id_fresh|].
    eapply lookup_weaken; [apply insert_row_lookup_new|].
    apply (flush_pending_subseteq rows).
  - destruct (IH (insert_row row0 tbl) Hin) as (k & Hnone & Hsome).
    exists k. split; [|done].
    destruct (tbl !! k) as [row'|] eqn:Hk; [|done].
    by rewrite (insert_row_lookup_old tbl row0 k row' Hk) in Hnone.
Qed.

Lemma flush_pending_new rows tbl k row :
  flush_pending tbl rows !! k = Some row → tbl !! k = Some row ∨ row ∈ rows.
Proof.
  revert tbl. induction rows as [|row0 rows IH]; intros tbl; simpl; [by left|].
  intros H. destruct (IH _ H) as [Hk|Hin]; [|right; by right].
  apply insert_row_lookup_inv in Hk as [[_ ->]|?]; [right; left|by left].
Qed.
End flush_facts.

Section store_result.
Import ActivityService.
Implicit Types (db : DB) (r : ActivityRecord.t) (pr : TachographParseResult.t).

Lemma with_activities_id db : with_activities db (driver_activities db) = db.
Proof. by destruct db. Qed.

Lemma store_result af db d pr sf vid :
  let kept :=
    kept_records af d vid sf (TachographParseResult.card_number pr)
      (rows_of (driver_activities db)) (TachographParseResult.activities pr) in
  store_activities_from_tachograph af db d pr sf vid
  = (with_activities db
       (flush_pending (driver_activities db)
          (new_activity d vid sf (TachographParseResult.card_number pr) <$> kept)),
     (length kept,
      (length (TachographParseResult.activities pr) - length kept)%nat)).
Proof.
  intros kept. unfold store_activities_from_tachograph, store_loop.
  set (cn := TachographParseResult.card_number pr) in *.
  set (records := TachographParseResult.activities pr) in *.
  set (st0 := mkStore db [] 0 0).
  assert (lists_rows (rows_of (driver_activities db)) (queried af st0)) as Hvis.
  { unfold queried, before_query. destruct af; apply lists_rows_of. }
  destruct (store_loop_spec af d vid sf cn records st0 _ Hvis)
    as (Hfl & Hc & Hs & Hv & Hd & Hg & Htbl).
  fold kept in Hfl, Hc, Hs, Htbl. simpl in Hfl, Hc, Hs, Hv, Hd, Hg, Htbl.
  unfold flushed in Hfl. simpl in Hfl.
  set (st' := foldl (store_step af d vid sf cn) st0 records) in *.
  unfold finish_store. f_equal; [|f_equal; lia].
  case_bool_decide as Hpos.
  - unfold with_activities. by rewrite Hv, Hd, Hg, Hfl.
  - assert (kept = []) as Hnil by (apply nil_length_inv; lia).
    rewrite Hnil. simpl. rewrite with_activities_id.
    specialize (Htbl eq_refl Hnil).
    destruct (store_db st'), db. simpl in *. by subst.
Qed.

End store_result.

Section store_theorem.
Import ActivityService.
Implicit Types (db : DB) (r : ActivityRecord.t) (pr : TachographParseResult.t).


End store_theorem.

(** ** Compliance summary *)

Section summary_properties.
Import ActivityService.

Lemma Qgtb_true x y : Qgtb x y = true ↔ (y < x)%Q.
Proof.
  unfold Qgtb. rewrite negb_true_iff. split.
  - intros H. apply Qnot_le_lt. intros Hle.
    apply Qle_bool_iff in Hle. congruence.
  - intros H. destruct (Qle_bool x y) eqn:Hle; [|done].
    apply Qle_bool_iff in Hle. by apply Qlt_not_le in H.
Qed.

Lemma Qgtb_false x y : Qgtb x y = false ↔ (x <= y)%Q.
Proof.
  unfold Qgtb. rewrite negb_false_iff. apply Qle_bool_iff.
Qed.

Lemma check_violations_cases m :
  ((10 < hours m)%Q
   ∧ check_violations m = [ExceededMaximumDailyDrivingLimit (hours m)])
  ∨ ((9 < hours m)%Q ∧ (hours m <= 10)%Q
     ∧ check_violations m = [ExtendedDailyDriving (hours m)])
  ∨ ((hours m <= 9)%Q ∧ check_violations m = []).
Proof.
  unfold check_violations.
  destruct (Qgtb (hours m) 10) eqn:H10.
  - left. by apply Qgtb_true in H10.
  - apply Qgtb_false in H10. destruct (Qgtb (hours m) 9) eqn:H9.
    + right; left. by apply Qgtb_true in H9.
    + right; right. by apply Qgtb_false in H9.
Qed.

(** The driving hours exceed [n] hours exactly when the minutes exceed
    [60 * n]. *)
Lemma hours_gt m n : (inject_Z n < hours m)%Q ↔ 60 * n < m.
Proof.
  unfold hours, Qlt, Qdiv, Qmult, Qinv, inject_Z. simpl. lia.
Qed.

Lemma foldl_Zadd_foldr (l : list Z) a : foldl Z.add a l = a + foldr Z.add 0 l.
Proof.
  revert a. induction l as [|x l IH]; intros a; simpl; [lia|]. rewrite IH. lia.
Qed.

Lemma foldr_Zadd_Permutation (l k : list Z) :
  l ≡ₚ k → foldr Z.add 0 l = foldr Z.add 0 k.
Proof. induction 1; simpl; lia. Qed.

Lemma filter_fmap_comm {A B} (f : A → B) (P : B → Prop) `{!∀ y, Decision (P y)}
    (l : list A) :
  filter P (f <$> l) = f <$> filter (λ x, P (f x)) l.
Proof.
  induction l as [|x l IH]; [done|]. rewrite fmap_cons, !filter_cons, IH.
  by destruct (decide (P (f x))).
Qed.

Lemma is_driving_true ty : is_driving ty = true ↔ ty = DRIVING.
Proof. by destruct ty. Qed.

(** The minutes the summary adds up are those of the stored DRIVING
    activities of the driver within the period. *)
Lemma sum_minutes_driving db d s e :
  sum_minutes is_driving (get_driver_activities db d (Some s) (Some e) None)
  = spec_driving_minutes db d s e.
Proof.
  unfold sum_minutes, spec_driving_minutes, get_driver_activities, rows_of.
  rewrite foldl_Zadd_foldr, Z.add_0_l. apply foldr_Zadd_Permutation.
  rewrite merge_sort_Permutation.
  rewrite !filter_fmap_comm, !list_filter_filter.
  f_equiv. f_equiv. erewrite list_filter_iff; [done|]. intros [k row]. simpl.
  unfold within_period. rewrite is_driving_true. tauto.
Qed.

Lemma hours_times_60 m : (hours m * 60 == inject_Z m)%Q.
Proof. unfold hours. field. Qed.

Lemma hours_eq m n : (hours m == inject_Z n)%Q ↔ m = 60 * n.
Proof.
  unfold hours, Qeq, Qdiv, Qmult, Qinv, inject_Z. simpl. lia.
Qed.

Lemma hours_le m n : (hours m <= inject_Z n)%Q ↔ m ≤ 60 * n.
Proof.
  unfold hours, Qle, Qdiv, Qmult, Qinv, inject_Z. simpl. lia.
Qed.


(** C4. The summary of an existing driver reports, as driving hours, the
    sixtieth of the minutes of the driver's stored DRIVING activities
    within the period, and carries the hard violation exactly when these
    hours exceed 10, that is, the minutes exceed 600, and the soft warning
    exactly when they exceed 9 without exceeding 10; 9 hours give no
    violation and 10 hours give the warning only. *)
Theorem summary_violation_thresholds db driver_id start_date end_date driver :
  drivers db !! driver_id = Some driver →
  ∃ summary,
    get_activity_summary db driver_id start_date end_date = Ok summary
    ∧ let m := spec_driving_minutes db driver_id start_date end_date in
      let h := ActivitySummary.total_driving_hours summary in
      let vs := ActivitySummary.violations summary in
      (h * 60 == inject_Z m)%Q
      ∧ (Exists is_hard vs ↔ (10 < h)%Q)
      ∧ (Exists is_soft vs ↔ (9 < h)%Q ∧ (h <= 10)%Q)
      ∧ ((h == 9)%Q → vs = [])
      ∧ ((h == 10)%Q → vs = [ExtendedDailyDriving h])
      ∧ (Exists is_hard vs ↔ 600 < m)
      ∧ (Exists is_soft vs ↔ 540 < m ≤ 600)
      ∧ (600 < m → vs = [ExceededMaximumDailyDrivingLimit h])
      ∧ (540 < m ≤ 600 → vs = [ExtendedDailyDriving h])
      ∧ (m ≤ 540 → vs = []).
Proof.
  intros Hdrv. unfold get_activity_summary. rewrite Hdrv.
  eexists. split; [reflexivity|]. cbv zeta.
  cbn [ActivitySummary.total_driving_hours ActivitySummary.violations].
  rewrite sum_minutes_driving.
  set (m := spec_driving_minutes db driver_id start_date end_date).
  split; [apply hours_times_60|].
  pose proof (hours_gt m 10) as H10. pose proof (hours_gt m 9) as H9.
  pose proof (hours_le m 10) as L10. pose proof (hours_le m 9) as L9.
  change (inject_Z 10) with 10%Q in *. change (inject_Z 9) with 9%Q in *.
  pose proof (hours_eq m 9) as E9. pose proof (hours_eq m 10) as E10.
  change (inject_Z 10) with 10%Q in *. change (inject_Z 9) with 9%Q in *.
  destruct (check_violations_cases m)
    as [(G10 & ->)|[(G9 & G10 & ->)|(G9 & ->)]];
    rewrite ?Exists_cons, ?Exists_nil; simpl.
  - apply H10 in G10. rewrite H10, H9, L10, E9, E10.
    repeat split; intros; first [done | tauto | lia | exfalso; lia].
  - apply H9 in G9. apply L10 in G10. rewrite H10, H9, L10, E9, E10.
    repeat split; intros; first [done | tauto | lia | exfalso; lia].
  - apply L9 in G9. rewrite H10, H9, L10, E9, E10.
    repeat split; intros; first [done | tauto | lia | exfalso; lia].
Qed.
End summary_properties.

(** ** Fusion of GPS positions with activities *)

Section query_facts.
Import ActivityService.
Implicit Types (db : DB) (kr : Z * DriverActivity.t).

Lemma elem_of_get_driver_activities db d sd ed ty kr :
  kr ∈ get_driver_activities db d sd ed ty ↔
  driver_activities db !! kr.1 = Some kr.2
  ∧ DriverActivity.driver_id kr.2 = d
  ∧ from_option (λ s, s ≤ DriverActivity.start_time kr.2) True sd
  ∧ from_option (λ e, DriverActivity.end_time kr.2 ≤ e) True ed
  ∧ from_option (λ t, DriverActivity.activity_type kr.2 = t) True ty.
Proof.
  unfold get_driver_activities. rewrite merge_sort_Permutation.
  destruct kr as [k row].
  destruct sd, ed, ty; simpl; rewrite ?list_elem_of_filter, elem_of_map_to_list;
    simpl; tauto.
Qed.

Lemma get_driver_activities_NoDup db d sd ed ty :
  NoDup (get_driver_activities db d sd ed ty).*1.
Proof.
  unfold get_driver_activities. rewrite merge_sort_Permutation.
  apply (sublist_NoDup _ (map_to_list (driver_activities db)).*1);
    [apply NoDup_fst_map_to_list|].
  apply fmap_sublist.
  destruct sd, ed, ty; repeat (etrans; [apply sublist_filter|]); done.
Qed.

Lemma get_driver_activities_sorted db d sd ed ty :
  StronglySorted start_desc (get_driver_activities db d sd ed ty).
Proof. apply (StronglySorted_merge_sort start_desc). Qed.

Lemma elem_of_select_gps_positions db d s e (g : Z * GPSPosition.t) :
  g ∈ select_gps_positions db d s e ↔
  gps_positions db !! g.1 = Some g.2
  ∧ GPSPosition.driver_id g.2 = Some d
  ∧ s ≤ GPSPosition.timestamp g.2 ≤ e.
Proof.
  unfold select_gps_positions. destruct g as [k row].
  rewrite list_elem_of_filter, elem_of_map_to_list. simpl. tauto.
Qed.

Lemma select_gps_positions_NoDup db d s e :
  NoDup (select_gps_positions db d s e).*1.
Proof.
  apply (sublist_NoDup _ (map_to_list (gps_positions db)).*1);
    [apply NoDup_fst_map_to_list|].
  apply fmap_sublist, sublist_filter.
Qed.
End query_facts.

Section fuse_loop.
Import ActivityService.
Implicit Types (acts : list (Z * DriverActivity.t)) (row : DriverActivity.t).
Implicit Types (g : Z * GPSPosition.t) (gpss : list (Z * GPSPosition.t)).

Lemma contains_add_refs ts refs row :
  contains ts (add_refs refs row) ↔ contains ts row.
Proof. by destruct refs. Qed.

Lemma add_refs_snoc refs row g :
  append_ref (add_refs refs row) g = add_refs (refs ++ [ref_of g]) row.
Proof.
  destruct refs as [|x refs]; [done|].
  unfold append_ref, add_refs, set_raw_data. simpl. by rewrite <- app_assoc.
Qed.

Lemma first_match_cons_True ts kr acts :
  contains ts kr.2 → first_match ts (kr :: acts) = Some kr.1.
Proof. intros H. unfold first_match. by rewrite filter_cons_True. Qed.

Lemma first_match_cons_False ts kr acts :
  ¬ contains ts kr.2 → first_match ts (kr :: acts) = first_match ts acts.
Proof. intros H. unfold first_match. by rewrite filter_cons_False. Qed.

Lemma first_match_Some ts acts k :
  first_match ts acts = Some k → ∃ row, (k, row) ∈ acts ∧ contains ts row.
Proof.
  unfold first_match. destruct (head _) as [[k' row]|] eqn:Hh; [|done].
  intros [= <-]. apply head_Some_elem_of, list_elem_of_filter in Hh as [Hc Hin].
  by exists row.
Qed.

Lemma first_match_None ts acts :
  first_match ts acts = None → ∀ kr, kr ∈ acts → ¬ contains ts kr.2.
Proof.
  unfold first_match. destruct (head _) as [kr0|] eqn:Hh; [done|].
  intros _ kr Hin Hc. apply head_None in Hh.
  assert (kr ∈ filter (λ kr, contains ts kr.2) acts) as Hf
    by (by apply list_elem_of_filter).
  rewrite Hh in Hf. by apply elem_of_nil in Hf.
Qed.

Lemma attach_spec g acts (h : Z → DriverActivity.t → DriverActivity.t) :
  (∀ k row, contains (GPSPosition.timestamp g.2) (h k row)
            ↔ contains (GPSPosition.timestamp g.2) row) →
  NoDup acts.*1 →
  attach g ((λ kr, (kr.1, h kr.1 kr.2)) <$> acts)
  = (λ k0, (λ kr, (kr.1, if decide (kr.1 = k0)
                         then append_ref (h kr.1 kr.2) g
                         else h kr.1 kr.2)) <$> acts)
    <$> first_match (GPSPosition.timestamp g.2) acts.
Proof.
  intros Hh. induction acts as [|kr acts IH]; intros Hnd; [done|].
  rewrite fmap_cons in Hnd. apply NoDup_cons in Hnd as [Hk Hnd].
  rewrite fmap_cons. simpl.
  destruct (decide (contains (GPSPosition.timestamp g.2) (h kr.1 kr.2)))
    as [Hc|Hc]; rewrite Hh in Hc.
  - rewrite first_match_cons_True by done. simpl.
    rewrite decide_True by done. do 2 f_equal.
    apply list_fmap_ext. intros i kr' Hi.
    rewrite decide_False; [done|]. intros Heq. apply Hk.
    rewrite <- Heq. apply list_elem_of_fmap. exists kr'.
    split; [done|]. by eapply list_elem_of_lookup_2.
  - rewrite first_match_cons_False by done. rewrite IH by done.
    destruct (first_match _ acts) as [k0|] eqn:Hfm; [|done]. simpl.
    rewrite decide_False; [done|]. intros Heq.
    apply first_match_Some in Hfm as (row & Hin & _). apply Hk.
    rewrite Heq. apply list_elem_of_fmap. by exists (k0, row).
Qed.

Lemma refs_for_snoc acts k gpss g :
  refs_for acts k (gpss ++ [g])
  = refs_for acts k gpss
    ++ (if decide (first_match (GPSPosition.timestamp g.2) acts = Some k)
        then [ref_of g] else []).
Proof.
  unfold refs_for. rewrite filter_app, fmap_app. f_equal.
  destruct (decide _) as [H|H].
  - by rewrite filter_cons_True.
  - by rewrite filter_cons_False.
Qed.

Lemma annotated_nil acts : annotated acts [] = acts.
Proof.
  unfold annotated. rewrite <- (list_fmap_id acts) at 2.
  apply list_fmap_ext. by intros i [k row] _.
Qed.

Lemma fuse_loop_spec acts todo seen n :
  NoDup acts.*1 →
  foldl fuse_step (annotated acts seen, n) todo
  = (annotated acts (seen ++ todo), (n + length (matched acts todo))%nat).
Proof.
  intros Hnd. revert seen n. induction todo as [|g todo IH]; intros seen n; simpl.
  { by rewrite app_nil_r, Nat.add_0_r. }
  replace (seen ++ g :: todo) with ((seen ++ [g]) ++ todo)
    by (by rewrite <- app_assoc).
  unfold fuse_step at 2. simpl. unfold annotated at 1.
  rewrite (attach_spec g acts (λ k row, add_refs (refs_for acts k seen) row))
    by (try done; intros; apply contains_add_refs).
  unfold matched. destruct (first_match _ acts) as [k0|] eqn:Hfm; simpl.
  - rewrite filter_cons_True by (by rewrite Hfm). simpl.
    rewrite <- Nat.add_succ_comm. rewrite <- IH. do 2 f_equal.
    unfold annotated. apply list_fmap_ext. intros i kr _. f_equal.
    rewrite refs_for_snoc, Hfm. destruct (decide (kr.1 = k0)) as [->|Hne].
    + rewrite decide_True by done. apply add_refs_snoc.
    + rewrite decide_False by congruence. by rewrite app_nil_r.
  - rewrite filter_cons_False by (rewrite Hfm; by intros [? ?]).
    rewrite <- IH. do 2 f_equal.
    unfold annotated. apply list_fmap_ext. intros i kr _. f_equal.
    rewrite refs_for_snoc, Hfm. rewrite decide_False by done.
    by rewrite app_nil_r.
Qed.

Lemma flush_loaded_lookup_notin acts tbl k :
  k ∉ acts.*1 → flush_loaded tbl acts !! k = tbl !! k.
Proof.
  unfold flush_loaded. revert tbl.
  induction acts as [|kr acts IH]; intros tbl Hk; simpl; [done|].
  rewrite fmap_cons in Hk. apply not_elem_of_cons in Hk as [Hne Hk].
  rewrite IH by done. by rewrite lookup_insert_ne.
Qed.

Lemma flush_loaded_lookup_in acts tbl k row :
  NoDup acts.*1 → (k, row) ∈ acts → flush_loaded tbl acts !! k = Some row.
Proof.
  revert tbl. induction acts as [|kr acts IH]; intros tbl Hnd Hin.
  { by apply elem_of_nil in Hin. }
  rewrite fmap_cons in Hnd. apply NoDup_cons in Hnd as [Hk Hnd].
  apply elem_of_cons in Hin as [<-|Hin].
  - change (flush_loaded (<[k:=row]> tbl) acts !! k = Some row).
    rewrite flush_loaded_lookup_notin by done. apply lookup_insert_eq.
  - change (flush_loaded (<[kr.1:=kr.2]> tbl) acts !! k = Some row).
    by apply IH.
Qed.
End fuse_loop.

Section fuse_facts.
Import ActivityService.
Implicit Types (db : DB) (acts : list (Z * DriverActivity.t)).
Implicit Types (g : Z * GPSPosition.t) (gpss : list (Z * GPSPosition.t)).

Lemma refs_for_nil_notin acts k gpss : k ∉ acts.*1 → refs_for acts k gpss = [].
Proof.
  intros Hk. unfold refs_for.
  destruct (filter _ gpss) as [|g l] eqn:Hf; [done|].
  assert (g ∈ filter (λ g, first_match (GPSPosition.timestamp g.2) acts = Some k) gpss)
    as Hin by (rewrite Hf; left).
  apply list_elem_of_filter in Hin as [Hfm _].
  apply first_match_Some in Hfm as (row & Hin & _). destruct Hk.
  apply list_elem_of_fmap. by exists (k, row).
Qed.

Lemma refs_for_nil_matched acts k gpss :
  matched acts gpss = [] → refs_for acts k gpss = [].
Proof.
  intros Hm. unfold refs_for.
  destruct (filter _ gpss) as [|g l] eqn:Hf; [done|].
  assert (g ∈ filter (λ g, first_match (GPSPosition.timestamp g.2) acts = Some k) gpss)
    as Hin by (rewrite Hf; left).
  apply list_elem_of_filter in Hin as [Hfm Hin].
  assert (g ∈ matched acts gpss) as Hg.
  { apply list_elem_of_filter. split; [by rewrite Hfm|done]. }
  rewrite Hm in Hg. by apply elem_of_nil in Hg.
Qed.

Lemma matched_nil gpss : matched [] gpss = [].
Proof.
  unfold matched. induction gpss as [|g gpss IH]; [done|].
  rewrite filter_cons_False; [done|]. by intros [? ?].
Qed.

Lemma add_refs_nil_fmap (o : option DriverActivity.t) : add_refs [] <$> o = o.
Proof. by destruct o. Qed.

Lemma associate_spec db acts gpss :
  NoDup acts.*1 →
  (∀ kr, kr ∈ acts → driver_activities db !! kr.1 = Some kr.2) →
  (associate db acts gpss).2 = length (matched acts gpss)
  ∧ (∀ k, driver_activities (associate db acts gpss).1 !! k
          = add_refs (refs_for acts k gpss) <$> driver_activities db !! k)
  ∧ vehicles (associate db acts gpss).1 = vehicles db
  ∧ drivers (associate db acts gpss).1 = drivers db
  ∧ gps_positions (associate db acts gpss).1 = gps_positions db.
Proof.
  intros Hnd Hacts.
  assert (foldl fuse_step (acts, 0%nat) gpss
          = (annotated acts gpss, length (matched acts gpss))) as Hloop.
  { pose proof (fuse_loop_spec acts gpss [] 0%nat Hnd) as H.
    by rewrite annotated_nil in H. }
  unfold associate. rewrite Hloop. simpl.
  split; [done|]. case_bool_decide as Hpos; simpl; [|split; [|done]].
  - split; [|done]. intros k.
    destruct (decide (k ∈ acts.*1)) as [Hin|Hnot].
    + apply list_elem_of_fmap in Hin as ([k' row] & -> & Hin). simpl.
      pose proof (Hacts _ Hin) as Hk. simpl in Hk. rewrite Hk. simpl.
      apply flush_loaded_lookup_in.
      * unfold annotated. rewrite <- list_fmap_compose.
        by rewrite (list_fmap_ext _ fst acts) by done.
      * unfold annotated. apply list_elem_of_fmap. by exists (k', row).
    + rewrite flush_loaded_lookup_notin.
      * by rewrite refs_for_nil_notin, add_refs_nil_fmap.
      * unfold annotated. rewrite <- list_fmap_compose.
        by rewrite (list_fmap_ext _ fst acts) by done.
  - intros k. rewrite refs_for_nil_matched, add_refs_nil_fmap; [done|].
    apply nil_length_inv. lia.
Qed.

Lemma fuse_spec db d s e :
  let acts := get_driver_activities db d (Some s) (Some e) None in
  let gpss := select_gps_positions db d s e in
  let out := fuse_gps_with_activities db d s e in
  out.2 = length (matched acts gpss)
  ∧ (∀ k, driver_activities out.1 !! k
          = add_refs (refs_for acts k gpss) <$> driver_activities db !! k)
  ∧ vehicles out.1 = vehicles db
  ∧ drivers out.1 = drivers db
  ∧ gps_positions out.1 = gps_positions db.
Proof.
  cbv zeta. unfold fuse_gps_with_activities.
  pose proof (get_driver_activities_NoDup db d (Some s) (Some e) None) as Hnd.
  assert (∀ kr, kr ∈ get_driver_activities db d (Some s) (Some e) None →
                driver_activities db !! kr.1 = Some kr.2) as Hacts.
  { intros kr Hin. by apply elem_of_get_driver_activities in Hin as [? _]. }
  destruct (get_driver_activities db d (Some s) (Some e) None) as [|kr acts] eqn:Hq.
  - simpl. split; [by rewrite matched_nil|]. split; [|done].
    intros k. rewrite refs_for_nil_notin, add_refs_nil_fmap; [done|].
    apply not_elem_of_nil.
  - by apply associate_spec.
Qed.
End fuse_facts.

Section fuse_theorems.
Import ActivityService.
Implicit Types (db : DB) (acts : list (Z * DriverActivity.t)).
Implicit Types (g : Z * GPSPosition.t) (gpss : list (Z * GPSPosition.t)).

(** C6, as the code has it. The activities [fuse_gps_with_activities]
    works on are exactly the driver's activities that lie within
    [[start, end]], each once; when there is one, the positions are exactly
    the driver's positions with a timestamp in [[start, end]], bounds
    included, each once; when there is none, nothing is done. *)
Theorem fuse_loads_contained db d s e :
  (∀ kr, kr ∈ get_driver_activities db d (Some s) (Some e) None ↔
     driver_activities db !! kr.1 = Some kr.2
     ∧ DriverActivity.driver_id kr.2 = d
     ∧ s ≤ DriverActivity.start_time kr.2
     ∧ DriverActivity.end_time kr.2 ≤ e)
  ∧ NoDup (get_driver_activities db d (Some s) (Some e) None).*1
  ∧ (∀ g, g ∈ select_gps_positions db d s e ↔
       gps_positions db !! g.1 = Some g.2
       ∧ GPSPosition.driver_id g.2 = Some d
       ∧ s ≤ GPSPosition.timestamp g.2 ≤ e)
  ∧ NoDup (select_gps_positions db d s e).*1
  ∧ fuse_gps_with_activities db d s e
    = match get_driver_activities db d (Some s) (Some e) None with
      | [] => (db, 0%nat)
      | _ :: _ =>
          associate db (get_driver_activities db d (Some s) (Some e) None)
            (select_gps_positions db d s e)
      end.
Proof.
  split; [|split; [|split; [|split]]].
  - intros kr. rewrite elem_of_get_driver_activities. simpl. tauto.
  - apply get_driver_activities_NoDup.
  - apply elem_of_select_gps_positions.
  - apply select_gps_positions_NoDup.
  - unfold fuse_gps_with_activities. by destruct (get_driver_activities _ _ _ _ _).
Qed.

Lemma elem_of_refs_for acts k gpss g :
  g ∈ gpss →
  ref_of g ∈ refs_for acts k gpss ↔
  first_match (GPSPosition.timestamp g.2) acts = Some k.
Proof.
  intros Hg. unfold refs_for. rewrite list_elem_of_fmap. split.
  - intros (g' & Heq & Hin). apply list_elem_of_filter in Hin as [Hfm _].
    apply (f_equal ref_timestamp) in Heq. simpl in Heq. by rewrite Heq.
  - intros Hfm. exists g. split; [done|]. by apply list_elem_of_filter.
Qed.

Lemma add_refs_fields refs row :
  DriverActivity.driver_id (add_refs refs row) = DriverActivity.driver_id row
  ∧ DriverActivity.activity_type (add_refs refs row) = DriverActivity.activity_type row
  ∧ DriverActivity.start_time (add_refs refs row) = DriverActivity.start_time row
  ∧ DriverActivity.end_time (add_refs refs row) = DriverActivity.end_time row
  ∧ DriverActivity.duration_minutes (add_refs refs row)
    = DriverActivity.duration_minutes row
  ∧ default [] (DriverActivity.raw_data (add_refs refs row))
    = default [] (DriverActivity.raw_data row) ++ refs.
Proof. destruct refs; simpl; by rewrite ?app_nil_r. Qed.

(** C7. Each loaded position is attached, once, to the first scanned
    activity whose bounds contain its timestamp and to no other; the
    count returned is the number of positions attached; nothing but the
    annotation lists changes. *)
Theorem fuse_attaches_to_first_match db d s e :
  let acts := get_driver_activities db d (Some s) (Some e) None in
  let gpss := select_gps_positions db d s e in
  let out := fuse_gps_with_activities db d s e in
  out.2 = length (matched acts gpss)
  ∧ (∀ k, driver_activities out.1 !! k
          = add_refs (refs_for acts k gpss) <$> driver_activities db !! k)
  ∧ (∀ g k, g ∈ gpss →
       (ref_of g ∈ refs_for acts k gpss ↔
        first_match (GPSPosition.timestamp g.2) acts = Some k))
  ∧ (∀ ts k, first_match ts acts = Some k →
       ∃ row before after,
         acts = before ++ (k, row) :: after
         ∧ contains ts row
         ∧ Forall (λ kr, ¬ contains ts kr.2) before)
  ∧ (∀ k row', driver_activities out.1 !! k = Some row' →
       ∃ row, driver_activities db !! k = Some row
              ∧ DriverActivity.driver_id row' = DriverActivity.driver_id row
              ∧ DriverActivity.start_time row' = DriverActivity.start_time row
              ∧ DriverActivity.end_time row' = DriverActivity.end_time row
              ∧ default [] (DriverActivity.raw_data row')
                = default [] (DriverActivity.raw_data row) ++ refs_for acts k gpss)
  ∧ vehicles out.1 = vehicles db
  ∧ drivers out.1 = drivers db
  ∧ gps_positions out.1 = gps_positions db.
Proof.
  cbv zeta.
  destruct (fuse_spec db d s e) as (Hn & Htbl & Hv & Hd & Hg).
  cbv zeta in Hn, Htbl, Hv, Hd, Hg.
  split; [done|]. split; [done|].
  split; [intros g k; apply elem_of_refs_for|].
  split; [|split; [|done]].
  - intros ts k Hfm. unfold first_match in Hfm.
    destruct (head _) as [[k' row]|] eqn:Hh; [|done].
    injection Hfm as ->. pose proof Hh as Hc.
    apply head_Some_elem_of, list_elem_of_filter in Hc as [Hc _].
    apply head_filter_Some in Hh as (before & after & -> & Hbefore).
    by exists row, before, after.
  - intros k row' Hk. rewrite Htbl in Hk.
    destruct (driver_activities db !! k) as [row|]; [|done].
    injection Hk as <-. exists row.
    destruct (add_refs_fields (refs_for
      (get_driver_activities db d (Some s) (Some e) None) k
      (select_gps_positions db d s e)) row) as (? & ? & ? & ? & ? & ?).
    done.
Qed.
End fuse_theorems.

Section boundary.
Import ActivityService.
Implicit Types (db : DB) (acts : list (Z * DriverActivity.t)).
Implicit Types (g : Z * GPSPosition.t).

Lemma first_match_at_shared_start db d s e k2 a2 t :
  let acts := get_driver_activities db d (Some s) (Some e) None in
  no_overlap (driver_activities db) →
  Forall (λ kr, DriverActivity.start_time kr.2 < DriverActivity.end_time kr.2) acts →
  (k2, a2) ∈ acts →
  DriverActivity.start_time a2 = t →
  first_match t acts = Some k2.
Proof.
  cbv zeta. set (acts := get_driver_activities db d (Some s) (Some e) None).
  intros Hinv Hvalid H2 Hs2. rewrite Forall_forall in Hvalid.
  pose proof (Hvalid _ H2) as Hv2. simpl in Hv2.
  assert (contains t a2) as Hc2 by (unfold contains; lia).
  unfold first_match.
  destruct (head (filter (λ kr, contains t kr.2) acts)) as [x|] eqn:Hh.
  2:{ apply head_None in Hh.
      assert ((k2, a2) ∈ filter (λ kr, contains t kr.2) acts) as Hin
        by (by apply list_elem_of_filter).
      rewrite Hh in Hin. by apply elem_of_nil in Hin. }
  simpl. f_equal.
  pose proof Hh as Hx. apply head_Some_elem_of, list_elem_of_filter in Hx as [Hcx Hx].
  apply head_filter_Some in Hh as (l1 & l2 & Hsplit & Hl1).
  pose proof (get_driver_activities_sorted db d (Some s) (Some e) None) as Hsorted.
  fold acts in Hsorted. rewrite Hsplit in Hsorted, H2.
  apply elem_of_app in H2 as [H2|H2].
  { rewrite Forall_forall in Hl1. by destruct (Hl1 _ H2). }
  apply elem_of_cons in H2 as [<-|H2]; [done|].
  apply StronglySorted_app_1_r, StronglySorted_cons in Hsorted as [Hle _].
  rewrite Forall_forall in Hle. specialize (Hle _ H2).
  unfold start_desc in Hle. simpl in Hle.
  destruct (decide (x.1 = k2)) as [|Hne]; [done|]. exfalso.
  pose proof (Hvalid _ Hx) as Hvx.
  apply elem_of_get_driver_activities in Hx as (Hkx & Hdx & _).
  assert ((k2, a2) ∈ acts) as H2' by (rewrite Hsplit; set_solver).
  apply elem_of_get_driver_activities in H2' as (Hk2 & Hd2 & _). simpl in Hk2, Hd2.
  apply (Hinv x.1 k2 x.2 a2 Hne Hkx Hk2).
  unfold rows_overlap, overlaps, contains in *. lia.
Qed.

(** C10. Two valid activities of a driver meet at [t], both loaded. A
    position at [t] lies within the bounds of both; the scan meets the
    activity that starts at [t] first, and the position is attached to it
    and not to the one that ends at [t]. *)
Theorem shared_boundary_attaches_to_later db d s e k1 a1 k2 a2 g :
  let acts := get_driver_activities db d (Some s) (Some e) None in
  let gpss := select_gps_positions db d s e in
  let out := fuse_gps_with_activities db d s e in
  let t := GPSPosition.timestamp g.2 in
  no_overlap (driver_activities db) →
  Forall (λ kr, DriverActivity.start_time kr.2 < DriverActivity.end_time kr.2) acts →
  (k1, a1) ∈ acts → (k2, a2) ∈ acts →
  DriverActivity.end_time a1 = t →
  DriverActivity.start_time a2 = t →
  g ∈ gpss →
  contains t a1 ∧ contains t a2
  ∧ first_match t acts = Some k2
  ∧ (∃ before after, acts = before ++ (k2, a2) :: after ∧ (k1, a1) ∈ after)
  ∧ ∃ row1 row2,
      driver_activities out.1 !! k1 = Some row1
      ∧ driver_activities out.1 !! k2 = Some row2
      ∧ ref_of g ∈ default [] (DriverActivity.raw_data row2)
      ∧ default [] (DriverActivity.raw_data row1)
        = default [] (DriverActivity.raw_data a1) ++ refs_for acts k1 gpss
      ∧ ref_of g ∉ refs_for acts k1 gpss.
Proof.
  cbv zeta. set (acts := get_driver_activities db d (Some s) (Some e) None).
  set (gpss := select_gps_positions db d s e).
  set (t := GPSPosition.timestamp g.2).
  intros Hinv Hvalid H1 H2 He1 Hs2 Hg.
  pose proof (first_match_at_shared_start db d s e k2 a2 t Hinv Hvalid H2 Hs2) as Hfm.
  fold acts in Hfm.
  pose proof Hvalid as Hvalid'. rewrite Forall_forall in Hvalid'.
  pose proof (Hvalid' _ H1) as Hv1. pose proof (Hvalid' _ H2) as Hv2.
  simpl in Hv1, Hv2.
  assert (contains t a1) as Hc1 by (unfold contains; lia).
  assert (contains t a2) as Hc2 by (unfold contains; lia).
  assert (k1 ≠ k2) as Hne.
  { intros ->.
    apply elem_of_get_driver_activities in H1 as (Hk1 & _).
    apply elem_of_get_driver_activities in H2 as (Hk2 & _).
    simpl in Hk1, Hk2. rewrite Hk1 in Hk2. injection Hk2 as ->. lia. }
  split; [done|]. split; [done|]. split; [done|]. split.
  - unfold first_match in Hfm.
    destruct (head _) as [[k row]|] eqn:Hh; [|done]. injection Hfm as ->.
    pose proof Hh as Hx. apply head_Some_elem_of, list_elem_of_filter in Hx as [_ Hx].
    assert (row = a2) as ->.
    { apply elem_of_get_driver_activities in Hx as (Hk & _).
      apply elem_of_get_driver_activities in H2 as (Hk2 & _).
      simpl in Hk, Hk2. congruence. }
    apply head_filter_Some in Hh as (before & after & Hsplit & Hbefore).
    exists before, after. split; [done|].
    rewrite Hsplit in H1. apply elem_of_app in H1 as [H1|H1].
    + rewrite Forall_forall in Hbefore. by destruct (Hbefore _ H1).
    + apply elem_of_cons in H1 as [[=]|H1]; [congruence|done].
  - destruct (fuse_spec db d s e) as (_ & Htbl & _). cbv zeta in Htbl.
    fold acts gpss in Htbl.
    apply elem_of_get_driver_activities in H1 as (Hk1 & _).
    apply elem_of_get_driver_activities in H2 as (Hk2 & _).
    simpl in Hk1, Hk2.
    exists (add_refs (refs_for acts k1 gpss) a1), (add_refs (refs_for acts k2 gpss) a2).
    rewrite !Htbl, Hk1, Hk2. split; [done|]. split; [done|].
    destruct (add_refs_fields (refs_for acts k1 gpss) a1) as (_ & _ & _ & _ & _ & Hr1).
    destruct (add_refs_fields (refs_for acts k2 gpss) a2) as (_ & _ & _ & _ & _ & Hr2).
    rewrite Hr1, Hr2. split; [|split; [done|]].
    + apply elem_of_app. right. by apply elem_of_refs_for.
    + rewrite elem_of_refs_for by done. fold t. rewrite Hfm. congruence.
Qed.
End boundary.

(** ** Unknown references in a single ingestion *)

Section unknown_references.
Import TelematicsService.

(** What [ingest_position] does enforce: an unknown vehicle, or an unknown
    driver whose id is not 0, makes it raise before anything is added, so
    the store stays as it was. *)
Lemma ingest_rejects_unknown db (p : GPSPositionCreate.t) :
  (vehicles db !! GPSPositionCreate.vehicle_id p = None
   ∨ ∃ d, GPSPositionCreate.driver_id p = Some d ∧ d ≠ 0 ∧ drivers db !! d = None) →
  (∃ msg, ingest_position db p true = Raise (TelematicsServiceError msg))
  ∧ run_call db (IngestOne p) = db.
Proof.
  intros H. simpl.
  destruct (vehicles db !! GPSPositionCreate.vehicle_id p) as [veh|] eqn:Hv.
  - destruct H as [?|(d & Hd & Hne & Hdrv)]; [done|].
    rewrite (ingest_position_no_driver db p true veh d Hv Hd Hne Hdrv). eauto.
  - rewrite (ingest_position_no_vehicle db p true Hv). eauto.
Qed.

End unknown_references.

(** ** The properties on the sample data *)

Section on_samples.
Import TelematicsService ActivityService.




(** C4 on the sample days: nine hours of driving give no violation, nine
    hours and six minutes the warning, ten hours the warning still, and
    ten hours and six minutes the hard violation. *)
Lemma summary_violation_thresholds_witness :
  (∃ summary,
     get_activity_summary (sample_db_drives 540) 1 0 1440 = Ok summary
     ∧ (ActivitySummary.total_driving_hours summary == 9)%Q
     ∧ ActivitySummary.violations summary = [])
  ∧ (∃ summary,
       get_activity_summary (sample_db_drives 546) 1 0 1440 = Ok summary
       ∧ (ActivitySummary.total_driving_hours summary == 91 # 10)%Q
       ∧ ActivitySummary.violations summary
         = [ExtendedDailyDriving (ActivitySummary.total_driving_hours summary)])
  ∧ (∃ summary,
       get_activity_summary (sample_db_drives 600) 1 0 1440 = Ok summary
       ∧ (ActivitySummary.total_driving_hours summary == 10)%Q
       ∧ ActivitySummary.violations summary
         = [ExtendedDailyDriving (ActivitySummary.total_driving_hours summary)])
  ∧ (∃ summary,
       get_activity_summary (sample_db_drives 606) 1 0 1440 = Ok summary
       ∧ (ActivitySummary.total_driving_hours summary == 101 # 10)%Q
       ∧ ActivitySummary.violations summary
         = [ExceededMaximumDailyDrivingLimit
              (ActivitySummary.total_driving_hours summary)]).
Proof.
  repeat split.
  - destruct (summary_violation_thresholds (sample_db_drives 540) 1 0 1440
                sample_driver)
      as (s1 & Hs & Hh & _ & _ & _ & _ & _ & _ & _ & _ & Hv);
      [vm_compute; reflexivity|].
    cbv zeta in *.
    change (spec_driving_minutes (sample_db_drives 540) 1 0 1440) with 540 in *.
    exists s1. split; [exact Hs|]. split; [|apply Hv; lia].
    apply (Qmult_inj_r _ _ 60); [done|]. by rewrite Hh.
  - destruct (summary_violation_thresholds (sample_db_drives 546) 1 0 1440
                sample_driver)
      as (s2 & Hs & Hh & _ & _ & _ & _ & _ & _ & _ & Hv & _);
      [vm_compute; reflexivity|].
    cbv zeta in *.
    change (spec_driving_minutes (sample_db_drives 546) 1 0 1440) with 546 in *.
    exists s2. split; [exact Hs|]. split; [|apply Hv; lia].
    apply (Qmult_inj_r _ _ 60); [done|]. by rewrite Hh.
  - destruct (summary_violation_thresholds (sample_db_drives 600) 1 0 1440
                sample_driver)
      as (s3 & Hs & Hh & _ & _ & _ & _ & _ & _ & _ & Hv & _);
      [vm_compute; reflexivity|].
    cbv zeta in *.
    change (spec_driving_minutes (sample_db_drives 600) 1 0 1440) with 600 in *.
    exists s3. split; [exact Hs|]. split; [|apply Hv; lia].
    apply (Qmult_inj_r _ _ 60); [done|]. by rewrite Hh.
  - destruct (summary_violation_thresholds (sample_db_drives 606) 1 0 1440
                sample_driver)
      as (s4 & Hs & Hh & _ & _ & _ & _ & _ & _ & Hv & _);
      [vm_compute; reflexivity|].
    cbv zeta in *.
    change (spec_driving_minutes (sample_db_drives 606) 1 0 1440) with 606 in *.
    exists s4. split; [exact Hs|]. split; [|apply Hv; lia].
    apply (Qmult_inj_r _ _ 60); [done|]. by rewrite Hh.
Defined.
(** C7 on the sample day: the position at 09:45 goes to the driving
    activity, the one at 10:00 to the break. *)
Lemma fuse_attaches_to_first_match_witness :
  let out := fuse_gps_with_activities sample_db_day 1 0 1440 in
  out.2 = 2%nat
  ∧ DriverActivity.raw_data <$> driver_activities out.1 !! 1
    = Some (Some [GpsRef 1 585])
  ∧ DriverActivity.raw_data <$> driver_activities out.1 !! 2
    = Some (Some [GpsRef 2 600]).
Proof.
  destruct (fuse_attaches_to_first_match sample_db_day 1 0 1440)
    as (Hn & Htbl & _).
  cbv zeta in *. rewrite Hn, !Htbl. vm_compute. done.
Defined.

(** C9 on the sample store: the position at 300 names an unknown driver,
    is rejected, and still sets the vehicle's state. *)
Lemma failed_position_updates_state_witness :
  let batch :=
    [sample_position 1 (Some 1) 100; sample_position 1 (Some 7) 300;
     sample_position 1 (Some 1) 200] in
  (∃ veh', vehicles (ingest_batch sample_db batch).1 !! 1 = Some veh'
           ∧ Vehicle.last_seen veh' = Some 300)
  ∧ Str (DriverNotFound 7) ∈ errors (ingest_batch sample_db batch).2.
Proof.
  destruct (failed_position_updates_state sample_db
              [sample_position 1 (Some 1) 100] (sample_position 1 (Some 7) 300)
              [sample_position 1 (Some 1) 200] sample_vehicle 7)
    as ((veh' & Hv & Hseen & _) & _ & Herr & _);
    [reflexivity | reflexivity | lia | reflexivity
    | constructor; [simpl; intros; lia | constructor]
    | constructor; [simpl; intros; lia | constructor]
    | reflexivity |].
  cbv zeta. split; [by exists veh'|exact Herr].
Defined.

(** C10 on the sample day: the position at 10:00 goes to the break that
    starts at 10:00. *)
Lemma shared_boundary_attaches_to_later_witness :
  first_match 600 (get_driver_activities sample_db_day 1 (Some 0) (Some 1440) None)
  = Some 2
  ∧ ∃ row2,
      driver_activities (fuse_gps_with_activities sample_db_day 1 0 1440).1 !! 2
      = Some row2
      ∧ GpsRef 2 600 ∈ default [] (DriverActivity.raw_data row2).
Proof.
  destruct (shared_boundary_attaches_to_later sample_db_day 1 0 1440
              1 (activity_of_create (sample_activity 1 DRIVING 540 600))
              2 (activity_of_create (sample_activity 1 BREAK 600 630))
              (2, gps_row (sample_position 1 (Some 1) 600)))
    as (_ & _ & Hfm & _ & (row1 & row2 & _ & H2 & Hin & _)).
  - replace (driver_activities sample_db_day)
      with (driver_activities
              (run_creates sample_db
                 [sample_activity 1 DRIVING 540 600; sample_activity 1 BREAK 600 630]))
      by (vm_compute; reflexivity).
    apply run_creates_no_overlap. intros k1 k2 r1 r2 _ H1.
    change (driver_activities sample_db) with (∅ : gmap Z DriverActivity.t) in H1.
    by rewrite lookup_empty in H1.
  - vm_compute. repeat constructor.
  - apply elem_of_get_driver_activities. repeat split; simpl; lia.
  - apply elem_of_get_driver_activities. repeat split; simpl; lia.
  - reflexivity.
  - reflexivity.
  - apply elem_of_select_gps_positions. repeat split; simpl; lia.
  - split; [exact Hfm|]. exists row2. by split.
Defined.

(** C6 as the specification words it fails on the sample store: the
    activity 08:00-10:00 meets the window 09:00-11:00 and is not loaded,
    so the position at 09:30 is attached to nothing. *)
Lemma fuse_loads_intersecting_counterexample :
  let row := activity_of_create (sample_activity 1 DRIVING 480 600) in
  driver_activities sample_db_long !! 1 = Some row
  ∧ DriverActivity.driver_id row = 1
  ∧ intersects 540 660 row
  ∧ ((1, row) ∉ get_driver_activities sample_db_long 1 (Some 540) (Some 660) None)
  ∧ get_driver_activities sample_db_long 1 (Some 540) (Some 660) None = []
  ∧ fuse_gps_with_activities sample_db_long 1 540 660 = (sample_db_long, 0%nat).
Proof.
  cbv zeta. split; [reflexivity|]. split; [reflexivity|].
  split; [unfold intersects; simpl; lia|].
  assert (get_driver_activities sample_db_long 1 (Some 540) (Some 660) None = [])
    as Hnone by (vm_compute; reflexivity).
  split; [rewrite Hnone; apply not_elem_of_nil|]. split; [exact Hnone|].
  unfold fuse_gps_with_activities. by rewrite Hnone.
Qed.

(** The bulk path checks each record against what its query sees. When
    the session does not flush before a query, two overlapping records of
    one call are both stored; when it does, the second is skipped. *)
Lemma bulk_overlap_within_one_call :
  let pr := sample_parse [sample_record DRIVING 540 600; sample_record WORK 570 630] in
  (store_activities_from_tachograph false sample_db 1 pr "card.ddd" None).2
  = (2%nat, 0%nat)
  ∧ (store_activities_from_tachograph true sample_db 1 pr "card.ddd" None).2
    = (1%nat, 1%nat).
Proof. split; vm_compute; reflexivity. Qed.
End on_samples.

(** * Further properties of the activity store *)

Section query_properties.
Import ActivityService.
Implicit Types (db : DB) (kr : Z * DriverActivity.t).

(** X1. A query returns exactly the driver's stored activities that pass
    every filter given, each once, ordered by start time, latest first. *)
Theorem query_is_exact_and_ordered db d sd ed ty :
  (∀ kr, kr ∈ get_driver_activities db d sd ed ty ↔
     driver_activities db !! kr.1 = Some kr.2
     ∧ DriverActivity.driver_id kr.2 = d
     ∧ from_option (λ s, s ≤ DriverActivity.start_time kr.2) True sd
     ∧ from_option (λ e, DriverActivity.end_time kr.2 ≤ e) True ed
     ∧ from_option (λ t, DriverActivity.activity_type kr.2 = t) True ty)
  ∧ NoDup (get_driver_activities db d sd ed ty).*1
  ∧ StronglySorted
      (λ x y, DriverActivity.start_time y.2 ≤ DriverActivity.start_time x.2)
      (get_driver_activities db d sd ed ty)
  ∧ (length (get_driver_activities db d sd ed ty) ≤ size (driver_activities db))%nat.
Proof.
  split; [intros kr; apply elem_of_get_driver_activities|].
  split; [apply get_driver_activities_NoDup|].
  split; [apply get_driver_activities_sorted|].
  unfold get_driver_activities. rewrite merge_sort_Permutation.
  rewrite <- (length_map_to_list (driver_activities db)).
  apply sublist_length.
  destruct sd, ed, ty; repeat (etrans; [apply sublist_filter|]); done.
Qed.

Lemma create_activity_inv db data db' r :
  create_activity db data = Ok (db', r) →
  _find_overlapping_activity db (DriverActivityCreate.driver_id data)
    (DriverActivityCreate.start_time data) (DriverActivityCreate.end_time data)
  = None
  ∧ db' = with_activities db (insert_row (activity_of_create data) (driver_activities db))
  ∧ r = (next_id (driver_activities db), activity_of_create data).
Proof.
  unfold create_activity. destruct (_find_overlapping_activity _ _ _ _); [done|].
  by intros [= <- <-].
Qed.

Lemma create_query_frame db data d sd ed ty kr :
  _find_overlapping_activity db (DriverActivityCreate.driver_id data)
    (DriverActivityCreate.start_time data) (DriverActivityCreate.end_time data)
  = None →
  kr ∈ get_driver_activities
         (with_activities db
            (insert_row (activity_of_create data) (driver_activities db)))
         d sd ed ty ↔
  kr ∈ get_driver_activities db d sd ed ty
  ∨ (kr = (next_id (driver_activities db), activity_of_create data)
     ∧ DriverActivityCreate.driver_id data = d
     ∧ from_option (λ s, s ≤ DriverActivityCreate.start_time data) True sd
     ∧ from_option (λ e, DriverActivityCreate.end_time data ≤ e) True ed
     ∧ from_option (λ t, DriverActivityCreate.activity_type data = t) True ty).
Proof.
  intros _. pose proof (next_id_fresh (driver_activities db)) as Hfresh.
  destruct kr as [k r]. rewrite !elem_of_get_driver_activities. simpl. split.
  - intros (Hk & Hrest). apply insert_row_lookup_inv in Hk as [[-> ->]|Hk].
    + right. simpl in Hrest. by split.
    + left. by split.
  - intros [(Hk & Hrest)|([= -> ->] & Hrest)].
    + split; [by apply insert_row_lookup_old|done].
    + split; [apply insert_row_lookup_new|]. simpl. done.
Qed.

(** X2. After a successful creation the queries return what they
    returned before and, where its filters admit it, the new activity, and
    nothing else. *)
Theorem created_activity_is_queryable db data db' id row :
  create_activity db data = Ok (db', (id, row)) →
  row = activity_of_create data
  ∧ driver_activities db !! id = None
  ∧ (id, row) ∈ get_driver_activities db' (DriverActivityCreate.driver_id data)
                  None None None
  ∧ ∀ d sd ed ty kr,
      kr ∈ get_driver_activities db' d sd ed ty ↔
      kr ∈ get_driver_activities db d sd ed ty
      ∨ (kr = (id, row)
         ∧ DriverActivityCreate.driver_id data = d
         ∧ from_option (λ s, s ≤ DriverActivityCreate.start_time data) True sd
         ∧ from_option (λ e, DriverActivityCreate.end_time data ≤ e) True ed
         ∧ from_option (λ t, DriverActivityCreate.activity_type data = t) True ty).
Proof.
  intros Hc. apply create_activity_inv in Hc as (Hnone & -> & [= -> ->]).
  pose proof (next_id_fresh (driver_activities db)) as Hfresh.
  split; [done|]. split; [done|]. split.
  - apply elem_of_get_driver_activities. simpl.
    split; [apply insert_row_lookup_new|done].
  - intros d sd ed ty kr. by apply create_query_frame.
Qed.

(** X3. No check compares the two bounds of a candidate. A candidate whose
    end is not after its start does not overlap itself once stored:
    creating it a second time succeeds and stores a second, identical
    row. *)
Theorem degenerate_activity_is_created_twice db data db1 id1 row1 :
  DriverActivityCreate.end_time data ≤ DriverActivityCreate.start_time data →
  create_activity db data = Ok (db1, (id1, row1)) →
  ∃ db2 id2,
    create_activity db1 data = Ok (db2, (id2, row1))
    ∧ id1 ≠ id2
    ∧ driver_activities db2 !! id1 = Some row1
    ∧ driver_activities db2 !! id2 = Some row1
    ∧ size (driver_activities db2) = S (S (size (driver_activities db))).
Proof.
  intros Hle Hc. apply create_activity_inv in Hc as (Hnone & -> & [= -> ->]).
  rewrite find_overlapping_None in Hnone.
  set (tbl := driver_activities db) in *.
  set (row := activity_of_create data).
  assert (_find_overlapping_activity (with_activities db (insert_row row tbl))
            (DriverActivityCreate.driver_id data)
            (DriverActivityCreate.start_time data)
            (DriverActivityCreate.end_time data) = None) as Hnone'.
  { apply find_overlapping_None. simpl. intros k r Hk.
    apply insert_row_lookup_inv in Hk as [[_ ->]|Hk]; [|by apply (Hnone k)].
    unfold overlaps, row. simpl. lia. }
  eexists _, _. unfold create_activity. rewrite Hnone'. simpl. fold tbl row.
  split; [reflexivity|].
  pose proof (next_id_fresh (insert_row row tbl)) as Hfresh.
  pose proof (insert_row_lookup_new tbl row) as Hnew.
  split; [intros Heq; rewrite <- Heq in Hfresh; congruence|].
  split; [by apply insert_row_lookup_old|].
  split; [apply insert_row_lookup_new|].
  simpl. by rewrite !insert_row_size.
Qed.
End query_properties.

Section bulk_properties.
Import ActivityService.
Implicit Types (db : DB) (tbl : gmap Z DriverActivity.t) (row : DriverActivity.t).
Implicit Types (r : ActivityRecord.t) (pr : TachographParseResult.t).

Lemma insert_row_no_overlap tbl row :
  no_overlap tbl →
  (∀ k row0, tbl !! k = Some row0 → ¬ rows_overlap row0 row) →
  no_overlap (insert_row row tbl).
Proof.
  intros Hinv Hnew k1 k2 r1 r2 Hne H1 H2.
  apply insert_row_lookup_inv in H1 as [[-> ->]|H1];
    apply insert_row_lookup_inv in H2 as [[-> ->]|H2].
  - done.
  - intros Hov. apply rows_overlap_sym in Hov. by apply (Hnew k2 r2).
  - by apply (Hnew k1 r1).
  - by apply (Hinv k1 k2).
Qed.

Lemma flush_pending_no_overlap rows tbl :
  no_overlap tbl →
  (∀ k row0 row, tbl !! k = Some row0 → row ∈ rows → ¬ rows_overlap row0 row) →
  StronglySorted (λ x y, ¬ rows_overlap x y) rows →
  no_overlap (flush_pending tbl rows).
Proof.
  revert tbl. induction rows as [|row rows IH]; intros tbl Hinv Hnew Hsorted; [done|].
  apply StronglySorted_cons in Hsorted as [Hrow Hsorted].
  change (no_overlap (flush_pending (insert_row row tbl) rows)).
  apply IH; [| |done].
  - apply insert_row_no_overlap; [done|]. intros k row0 Hk. apply (Hnew k); [done|left].
  - intros k row0 row' Hk Hin.
    apply insert_row_lookup_inv in Hk as [[_ ->]|Hk].
    + rewrite Forall_forall in Hrow. by apply Hrow.
    + apply (Hnew k); [done|by right].
Qed.

Lemma kept_rows_disjoint af d vid sf cn records vis :
  (af = false → StronglySorted (λ r1 r2, ¬ records_overlap r1 r2) records) →
  StronglySorted (λ x y, ¬ rows_overlap x y)
    (new_activity d vid sf cn <$> kept_records af d vid sf cn vis records).
Proof.
  revert vis. induction records as [|r records IH]; intros vis Hrec; simpl.
  { constructor. }
  assert (af = false → StronglySorted (λ r1 r2, ¬ records_overlap r1 r2) records)
    as Hrec'.
  { intros Haf. by apply StronglySorted_cons in Hrec as [_ ?]. }
  destruct (decide (overlaps_any d vis r)) as [Hov|Hno]; [by apply IH|].
  rewrite fmap_cons. apply StronglySorted_cons. split; [|by apply IH].
  apply Forall_fmap, Forall_forall. intros r' Hin. simpl.
  apply kept_records_sound in Hin as [Hin Hnor].
  unfold rows_overlap, overlaps. simpl. destruct af.
  - intros (_ & H1 & H2). apply Hnor, overlaps_any_app. right.
    apply Exists_cons. left. unfold overlaps. simpl. done.
  - apply StronglySorted_cons in Hrec as [Hr _]; [|done].
    rewrite Forall_forall in Hr. specialize (Hr _ Hin).
    unfold records_overlap in Hr. tauto.
Qed.

(** X4. The bulk path keeps the driver's activities free of overlaps when
    the session flushes before each query; when it does not, it still does
    provided no two records of the call overlap each other. *)
Theorem bulk_store_keeps_no_overlap db d pr sf vid :
  no_overlap (driver_activities db) →
  no_overlap
    (driver_activities (store_activities_from_tachograph true db d pr sf vid).1)
  ∧ (StronglySorted (λ r1 r2, ¬ records_overlap r1 r2)
       (TachographParseResult.activities pr) →
     no_overlap
       (driver_activities (store_activities_from_tachograph false db d pr sf vid).1)).
Proof.
  intros Hinv.
  assert (∀ af,
    (af = false → StronglySorted (λ r1 r2, ¬ records_overlap r1 r2)
                    (TachographParseResult.activities pr)) →
    no_overlap
      (driver_activities (store_activities_from_tachograph af db d pr sf vid).1))
    as Hboth.
  { intros af Hrec. rewrite store_result. simpl.
    apply flush_pending_no_overlap; [done| |by apply kept_rows_disjoint].
    intros k row0 row Hk Hin.
    apply list_elem_of_fmap in Hin as (r & -> & Hin).
    apply kept_records_sound in Hin as [_ Hno]. intros Hov. apply Hno.
    apply Exists_exists. exists row0. split; [|exact Hov].
    apply elem_of_rows_of. by exists k. }
  split; [by apply Hboth|]. intros Hrec. by apply Hboth.
Qed.

(** X5. Every row the bulk path adds belongs to the given driver, comes
    from one record of the call, and carries the vehicle, the file name
    and the card number of the call, the source TACHOGRAPH and no
    annotation; the rows stored before and the other tables stay as they
    were, and an empty list of records changes nothing. *)
Theorem bulk_store_provenance af db d pr sf vid :
  let out := store_activities_from_tachograph af db d pr sf vid in
  (∀ k row, driver_activities out.1 !! k = Some row →
     driver_activities db !! k = Some row
     ∨ (driver_activities db !! k = None
        ∧ ∃ r, r ∈ TachographParseResult.activities pr
               ∧ row = new_activity d vid sf (TachographParseResult.card_number pr) r
               ∧ DriverActivity.driver_id row = d
               ∧ DriverActivity.vehicle_id row = vid
               ∧ DriverActivity.source row = TACHOGRAPH
               ∧ DriverActivity.source_file row = Some sf
               ∧ DriverActivity.card_number row = TachographParseResult.card_number pr
               ∧ DriverActivity.raw_data row = None
               ∧ DriverActivity.activity_type row = ActivityRecord.activity_type r
               ∧ DriverActivity.start_time row = ActivityRecord.start_time r
               ∧ DriverActivity.end_time row = ActivityRecord.end_time r))
  ∧ (∀ k row, driver_activities db !! k = Some row →
       driver_activities out.1 !! k = Some row)
  ∧ vehicles out.1 = vehicles db
  ∧ drivers out.1 = drivers db
  ∧ gps_positions out.1 = gps_positions db
  ∧ (TachographParseResult.activities pr = [] → out = (db, (0%nat, 0%nat))).
Proof.
  cbv zeta. rewrite store_result. simpl.
  split; [|split; [|split; [done|split; [done|split; [done|]]]]].
  - intros k row Hk.
    destruct (driver_activities db !! k) as [row0|] eqn:Hold.
    + left. f_equal.
      pose proof (lookup_weaken _ _ _ _ Hold
        (flush_pending_subseteq
           (new_activity d vid sf (TachographParseResult.card_number pr) <$>
              kept_records af d vid sf (TachographParseResult.card_number pr)
                (rows_of (driver_activities db))
                (TachographParseResult.activities pr))
           (driver_activities db))) as Hk'.
      congruence.
    + right. split; [done|].
      apply flush_pending_new in Hk as [Hk|Hin]; [congruence|].
      apply list_elem_of_fmap in Hin as (r & -> & Hin).
      apply kept_records_sound in Hin as [Hin _]. by exists r.
  - intros k row Hk. eapply lookup_weaken; [exact Hk|apply flush_pending_subseteq].
  - intros ->. simpl. by rewrite with_activities_id.
Qed.
End bulk_properties.

Section fuse_locality.
Import ActivityService.
Implicit Types (db : DB).

Lemma associate_zero db acts gpss :
  (associate db acts gpss).2 = 0%nat → (associate db acts gpss).1 = db.
Proof.
  unfold associate. destruct (foldl fuse_step (acts, 0%nat) gpss) as [a n].
  simpl. by intros ->.
Qed.

(** X8. Fusion leaves every activity it did not load (another driver's,
    or one not within the window) exactly as it was, never adds or removes
    an activity, returns at most the number of positions loaded, and
    changes nothing at all when it returns 0. *)
Theorem fuse_is_local db d s e :
  let out := fuse_gps_with_activities db d s e in
  (∀ k row, driver_activities db !! k = Some row →
     ¬ (DriverActivity.driver_id row = d
        ∧ s ≤ DriverActivity.start_time row
        ∧ DriverActivity.end_time row ≤ e) →
     driver_activities out.1 !! k = Some row)
  ∧ (∀ k, driver_activities out.1 !! k = None ↔ driver_activities db !! k = None)
  ∧ (out.2 ≤ length (select_gps_positions db d s e))%nat
  ∧ (out.2 = 0%nat → out.1 = db).
Proof.
  cbv zeta. destruct (fuse_spec db d s e) as (Hn & Htbl & _).
  cbv zeta in Hn, Htbl.
  split; [|split; [|split]].
  - intros k row Hk Hnot. rewrite Htbl, Hk, refs_for_nil_notin; [done|].
    intros Hin. apply list_elem_of_fmap in Hin as ([k' row'] & -> & Hin).
    apply elem_of_get_driver_activities in Hin as (Hk' & Hd & Hs & He & _).
    simpl in *. rewrite Hk in Hk'. injection Hk' as <-. by apply Hnot.
  - intros k. rewrite Htbl. by destruct (driver_activities db !! k).
  - rewrite Hn. apply length_filter.
  - unfold fuse_gps_with_activities.
    destruct (get_driver_activities db d (Some s) (Some e) None); [done|].
    apply associate_zero.
Qed.
End fuse_locality.

Section summary_isolation.
Import ActivityService.
Implicit Types (db : DB).

Lemma foldl_Zadd_perm (l k : list Z) a :
  l ≡ₚ k → foldl Z.add a l = foldl Z.add a k.
Proof.
  intros Hp. revert a. induction Hp as [|x l k _ IH|x y l|l1 l2 l3 _ IH1 _ IH2];
    intros a; simpl.
  - done.
  - apply IH.
  - f_equal. lia.
  - by rewrite IH1.
Qed.

Lemma Qplus_shuffle (a x y : Q) : Qplus (Qplus a y) x = Qplus (Qplus a x) y.
Proof.
  destruct a as [an ad], x as [xn xd], y as [yn yd]. unfold Qplus. simpl.
  f_equal.
  - rewrite !Pos2Z.inj_mul. ring.
  - by rewrite <- !Pos.mul_assoc, (Pos.mul_comm yd xd).
Qed.

Lemma foldl_Qplus_perm (l k : list Q) a :
  l ≡ₚ k → foldl Qplus a l = foldl Qplus a k.
Proof.
  intros Hp. revert a. induction Hp as [|x l k _ IH|x y l|l1 l2 l3 _ IH1 _ IH2];
    intros a; simpl.
  - done.
  - apply IH.
  - f_equal. apply Qplus_shuffle.
  - by rewrite IH1.
Qed.

Lemma sum_minutes_perm P (l k : list (Z * DriverActivity.t)) :
  l ≡ₚ k → sum_minutes P l = sum_minutes P k.
Proof. intros Hp. unfold sum_minutes. apply foldl_Zadd_perm. by rewrite Hp. Qed.

(** The summary is a function of the driver's row and of the activities
    the query returns, whatever their order. *)
Lemma summary_perm db db' d s e :
  drivers db' !! d = drivers db !! d →
  get_driver_activities db' d (Some s) (Some e) None
  ≡ₚ get_driver_activities db d (Some s) (Some e) None →
  get_activity_summary db' d s e = get_activity_summary db d s e.
Proof.
  intros Hdrv Hp. unfold get_activity_summary. rewrite Hdrv.
  destruct (drivers db !! d) as [driver|]; [|done].
  rewrite !(sum_minutes_perm _ _ _ Hp). do 2 f_equal.
  apply foldl_Qplus_perm. by rewrite Hp.
Qed.

(** X6. Creating an activity for one driver, whether it succeeds or is
    refused, leaves the summary of every other driver as it was, over any
    period. *)
Theorem summary_ignores_other_drivers db data d s e :
  DriverActivityCreate.driver_id data ≠ d →
  get_activity_summary (run_create db data) d s e = get_activity_summary db d s e.
Proof.
  intros Hne. unfold run_create.
  destruct (create_activity db data) as [[db' r]|] eqn:Hc; [|done].
  apply create_activity_inv in Hc as (Hnone & -> & _).
  apply summary_perm; [done|].
  apply NoDup_Permutation.
  - eapply NoDup_fmap_1, get_driver_activities_NoDup.
  - eapply NoDup_fmap_1, get_driver_activities_NoDup.
  - intros kr. rewrite create_query_frame by done. tauto.
Qed.
End summary_isolation.

Section fuse_twice.
Import ActivityService.
Implicit Types (db : DB) (acts : list (Z * DriverActivity.t)).
Implicit Types (gpss : list (Z * GPSPosition.t)).

Lemma sorted_perm_unique {A} (R : relation A) (l1 l2 : list A) :
  (∀ x y, x ∈ l1 → y ∈ l1 → R x y → R y x → x = y) →
  StronglySorted R l1 → StronglySorted R l2 → l1 ≡ₚ l2 → l1 = l2.
Proof.
  revert l2. induction l1 as [|x l1 IH]; intros l2 Hanti H1 H2 Hp.
  { by apply Permutation_nil_l in Hp. }
  destruct l2 as [|y l2]; [by apply Permutation_nil_r in Hp|].
  apply StronglySorted_cons in H1 as [Hx H1].
  apply StronglySorted_cons in H2 as [Hy H2].
  rewrite Forall_forall in Hx, Hy.
  assert (x = y) as <-.
  { assert (x ∈ y :: l2) as Hxin by (rewrite <- Hp; left).
    assert (y ∈ x :: l1) as Hyin by (rewrite Hp; left).
    apply elem_of_cons in Hxin as [?|Hxin]; [done|].
    apply elem_of_cons in Hyin as [?|Hyin]; [done|].
    apply Hanti; [left|by right|by apply Hx|by apply Hy]. }
  f_equal. apply IH; [|done|done|by apply Permutation_cons_inv in Hp].
  intros a b Ha Hb. apply Hanti; by right.
Qed.

Lemma first_match_fmap ts acts (h : Z → DriverActivity.t → DriverActivity.t) :
  (∀ k row, contains ts (h k row) ↔ contains ts row) →
  first_match ts ((λ kr, (kr.1, h kr.1 kr.2)) <$> acts) = first_match ts acts.
Proof.
  intros Hh. induction acts as [|kr acts IH]; [done|]. rewrite fmap_cons.
  destruct (decide (contains ts kr.2)) as [Hc|Hc].
  - rewrite !first_match_cons_True; [done|done|]. simpl. by apply Hh.
  - rewrite !first_match_cons_False; [done|done|]. simpl. by rewrite Hh.
Qed.

Lemma first_match_annotated ts acts gpss :
  first_match ts (annotated acts gpss) = first_match ts acts.
Proof.
  unfold annotated.
  apply (first_match_fmap ts acts (λ k row, add_refs (refs_for acts k gpss) row)).
  intros. apply contains_add_refs.
Qed.

Lemma refs_for_annotated acts gpss k gpss' :
  refs_for (annotated acts gpss) k gpss' = refs_for acts k gpss'.
Proof.
  unfold refs_for. f_equal. apply list_filter_iff.
  intros g. by rewrite first_match_annotated.
Qed.

Lemma matched_annotated acts gpss gpss' :
  matched (annotated acts gpss) gpss' = matched acts gpss'.
Proof.
  unfold matched. apply list_filter_iff.
  intros g. by rewrite first_match_annotated.
Qed.

(** What the query returns after a fusion: the same activities, with
    their new annotations, in the same order. *)
Lemma reload_after_fuse db d s e :
  let acts := get_driver_activities db d (Some s) (Some e) None in
  let gpss := select_gps_positions db d s e in
  no_overlap (driver_activities db) →
  Forall (λ kr, DriverActivity.start_time kr.2 < DriverActivity.end_time kr.2) acts →
  get_driver_activities (fuse_gps_with_activities db d s e).1 d (Some s) (Some e) None
  = annotated acts gpss.
Proof.
  cbv zeta. set (acts := get_driver_activities db d (Some s) (Some e) None).
  set (gpss := select_gps_positions db d s e).
  intros Hinv Hvalid. rewrite Forall_forall in Hvalid.
  destruct (fuse_spec db d s e) as (_ & Htbl & _). cbv zeta in Htbl.
  fold acts gpss in Htbl. symmetry.
  apply (sorted_perm_unique start_desc).
  - intros x y Hx Hy Hxy Hyx. unfold start_desc in Hxy, Hyx.
    apply list_elem_of_fmap in Hx as ([kx rx] & -> & Hx).
    apply list_elem_of_fmap in Hy as ([ky ry] & -> & Hy).
    simpl in *.
    destruct (add_refs_fields (refs_for acts kx gpss) rx) as (_ & _ & Hsx & _).
    destruct (add_refs_fields (refs_for acts ky gpss) ry) as (_ & _ & Hsy & _).
    rewrite Hsx, Hsy in *.
    pose proof (Hvalid _ Hx) as Hvx. pose proof (Hvalid _ Hy) as Hvy.
    apply elem_of_get_driver_activities in Hx as (Hkx & Hdx & _).
    apply elem_of_get_driver_activities in Hy as (Hky & Hdy & _).
    simpl in *. destruct (decide (kx = ky)) as [->|Hne].
    + rewrite Hkx in Hky. by injection Hky as ->.
    + destruct (Hinv kx ky rx ry Hne Hkx Hky).
      unfold rows_overlap, overlaps. lia.
  - unfold annotated.
    apply StronglySorted_fmap with (R1 := start_desc);
      [|apply get_driver_activities_sorted].
    intros [kx rx] [ky ry]. unfold start_desc. simpl.
    destruct (add_refs_fields (refs_for acts kx gpss) rx) as (_ & _ & -> & _).
    by destruct (add_refs_fields (refs_for acts ky gpss) ry) as (_ & _ & -> & _).
  - apply get_driver_activities_sorted.
  - apply NoDup_Permutation.
    + apply (NoDup_fmap_1 fst). unfold annotated. rewrite <- list_fmap_compose.
      rewrite (list_fmap_ext _ fst acts) by done.
      apply get_driver_activities_NoDup.
    + eapply NoDup_fmap_1, get_driver_activities_NoDup.
    + intros [k row']. rewrite elem_of_get_driver_activities. simpl.
      rewrite Htbl. unfold annotated. rewrite list_elem_of_fmap. split.
      * intros ([k0 row] & [= -> ->] & Hin).
        apply elem_of_get_driver_activities in Hin as (Hk & Hd & Hs & He & _).
        simpl in *. rewrite Hk. simpl.
        destruct (add_refs_fields (refs_for acts k0 gpss) row)
          as (-> & _ & -> & -> & _).
        done.
      * intros (Hk & Hd & Hs & He & _).
        destruct (driver_activities db !! k) as [row|] eqn:Hrow; [|done].
        injection Hk as <-. exists (k, row). split; [done|].
        apply elem_of_get_driver_activities. simpl.
        destruct (add_refs_fields (refs_for acts k gpss) row)
          as (Hd' & _ & Hs' & He' & _).
        rewrite Hd' in Hd. rewrite Hs' in Hs. rewrite He' in He. done.
Qed.

(** X7. Fusion is not idempotent. On valid, non-overlapping activities a
    second run over the same window finds the same positions, returns the
    same count and appends every reference a second time. *)
Theorem fuse_twice_duplicates_annotations db d s e :
  let acts := get_driver_activities db d (Some s) (Some e) None in
  let gpss := select_gps_positions db d s e in
  let once := fuse_gps_with_activities db d s e in
  let twice := fuse_gps_with_activities once.1 d s e in
  no_overlap (driver_activities db) →
  Forall (λ kr, DriverActivity.start_time kr.2 < DriverActivity.end_time kr.2) acts →
  twice.2 = once.2
  ∧ ∀ k row, driver_activities db !! k = Some row →
      ∃ row1 row2,
        driver_activities once.1 !! k = Some row1
        ∧ driver_activities twice.1 !! k = Some row2
        ∧ default [] (DriverActivity.raw_data row1)
          = default [] (DriverActivity.raw_data row) ++ refs_for acts k gpss
        ∧ default [] (DriverActivity.raw_data row2)
          = default [] (DriverActivity.raw_data row)
            ++ refs_for acts k gpss ++ refs_for acts k gpss.
Proof.
  cbv zeta. intros Hinv Hvalid.
  pose proof (reload_after_fuse db d s e Hinv Hvalid) as Hreload. cbv zeta in Hreload.
  destruct (fuse_spec db d s e) as (Hn & Htbl & _ & _ & Hgps).
  cbv zeta in Hn, Htbl, Hgps.
  set (once := fuse_gps_with_activities db d s e) in *.
  destruct (fuse_spec once.1 d s e) as (Hn2 & Htbl2 & _). cbv zeta in Hn2, Htbl2.
  assert (select_gps_positions once.1 d s e = select_gps_positions db d s e) as Hsel.
  { unfold select_gps_positions. by rewrite Hgps. }
  rewrite Hreload, Hsel in Hn2, Htbl2.
  rewrite matched_annotated in Hn2. split; [congruence|].
  intros k row Hk.
  exists (add_refs (refs_for (get_driver_activities db d (Some s) (Some e) None) k
                      (select_gps_positions db d s e)) row).
  eexists. rewrite Htbl2, Htbl, Hk. simpl.
  split; [done|]. split; [done|].
  rewrite refs_for_annotated.
  destruct (add_refs_fields
              (refs_for (get_driver_activities db d (Some s) (Some e) None) k
                 (select_gps_positions db d s e)) row) as (_ & _ & _ & _ & _ & Hr1).
  destruct (add_refs_fields
              (refs_for (get_driver_activities db d (Some s) (Some e) None) k
                 (select_gps_positions db d s e))
              (add_refs (refs_for (get_driver_activities db d (Some s) (Some e) None) k
                           (select_gps_positions db d s e)) row))
    as (_ & _ & _ & _ & _ & Hr2).
  rewrite Hr2, Hr1. split; [done|]. by rewrite app_assoc.
Qed.
End fuse_twice.

Section further_samples.
Import ActivityService.

Lemma run_creates_sample_no_overlap l :
  no_overlap (driver_activities (run_creates sample_db l)).
Proof.
  apply run_creates_no_overlap. intros k1 k2 r1 r2 _ H1.
  change (driver_activities sample_db) with (∅ : gmap Z DriverActivity.t) in H1.
  by rewrite lookup_empty in H1.
Qed.

(** X2 on the sample store: the break 10:00-10:30 created after the
    driving 09:00-10:00 is returned for driver 1, under key 2. *)
Lemma created_activity_is_queryable_witness :
  let data := sample_activity 1 BREAK 600 630 in
  (2, activity_of_create data)
  ∈ get_driver_activities (run_create sample_db_driving data) 1 None None None.
Proof.
  cbv zeta.
  assert (create_activity sample_db_driving (sample_activity 1 BREAK 600 630)
          = Ok (run_create sample_db_driving (sample_activity 1 BREAK 600 630),
                (2, activity_of_create (sample_activity 1 BREAK 600 630)))) as Hc
    by (vm_compute; reflexivity).
  destruct (created_activity_is_queryable _ _ _ _ _ Hc) as (_ & _ & H & _).
  exact H.
Defined.

(** X3 on the sample store: the work activity 10:00-10:00 is created
    twice. *)
Lemma degenerate_activity_is_created_twice_witness :
  let data := sample_activity 1 WORK 600 600 in
  ∃ db2 id2,
    create_activity (run_create sample_db_driving data) data
    = Ok (db2, (id2, activity_of_create data))
    ∧ 2 ≠ id2
    ∧ driver_activities db2 !! 2 = Some (activity_of_create data)
    ∧ driver_activities db2 !! id2 = Some (activity_of_create data)
    ∧ size (driver_activities db2) = 3%nat.
Proof.
  cbv zeta.
  apply (degenerate_activity_is_created_twice sample_db_driving
           (sample_activity 1 WORK 600 600)); [simpl; lia|].
  vm_compute. reflexivity.
Defined.

(** X4 on the sample store: a break and a drive that touch at 10:30 are
    stored after the driving 09:00-10:00, with or without the flush. *)
Lemma bulk_store_keeps_no_overlap_witness :
  let pr := sample_parse [sample_record BREAK 600 630; sample_record DRIVING 630 700] in
  no_overlap
    (driver_activities
       (store_activities_from_tachograph true sample_db_driving 1 pr "card.ddd" None).1)
  ∧ no_overlap
      (driver_activities
         (store_activities_from_tachograph false sample_db_driving 1 pr "card.ddd" None).1).
Proof.
  cbv zeta.
  destruct (bulk_store_keeps_no_overlap sample_db_driving 1
              (sample_parse [sample_record BREAK 600 630; sample_record DRIVING 630 700])
              "card.ddd" None) as [Ht Hf].
  - apply (run_creates_sample_no_overlap [sample_activity 1 DRIVING 540 600]).
  - split; [exact Ht|]. apply Hf. simpl.
    repeat constructor. unfold records_overlap. simpl. lia.
Defined.

(** X6 on the sample store: an activity created for driver 2 leaves the
    summary of driver 1 as it was. *)
Lemma summary_ignores_other_drivers_witness :
  get_activity_summary
    (run_create sample_db_nine_hours (sample_activity 2 DRIVING 0 600)) 1 0 1440
  = get_activity_summary sample_db_nine_hours 1 0 1440.
Proof.
  apply (summary_ignores_other_drivers sample_db_nine_hours
           (sample_activity 2 DRIVING 0 600) 1 0 1440).
  simpl. lia.
Defined.

(** X7 on the sample day: after two runs the driving activity names the
    position of 09:45 twice. *)
Lemma fuse_twice_duplicates_annotations_witness :
  let once := fuse_gps_with_activities sample_db_day 1 0 1440 in
  let twice := fuse_gps_with_activities once.1 1 0 1440 in
  twice.2 = once.2
  ∧ ∃ row2,
      driver_activities twice.1 !! 1 = Some row2
      ∧ default [] (DriverActivity.raw_data row2) = [GpsRef 1 585; GpsRef 1 585].
Proof.
  destruct (fuse_twice_duplicates_annotations sample_db_day 1 0 1440)
    as (Hn & Hrows).
  - replace (driver_activities sample_db_day)
      with (driver_activities
              (run_creates sample_db
                 [sample_activity 1 DRIVING 540 600; sample_activity 1 BREAK 600 630]))
      by (vm_compute; reflexivity).
    apply run_creates_sample_no_overlap.
  - vm_compute. repeat constructor.
  - cbv zeta. split; [exact Hn|].
    destruct (Hrows 1 (activity_of_create (sample_activity 1 DRIVING 540 600)))
      as (row1 & row2 & _ & H2 & _ & Hr2); [reflexivity|].
    exists row2. split; [exact H2|]. rewrite Hr2. vm_compute. reflexivity.
Defined.
End further_samples.

(** * The vehicle status queries *)

Section status_facts.
Import TelematicsService TelematicsStatus.
Implicit Types (db : DB) (m : gmap Z Vehicle.t) (veh : Vehicle.t).

Lemma is_online_spec now veh :
  VehicleModel.is_online now veh = true ↔
  ∃ t, Vehicle.last_seen veh = Some t ∧ now - t < timedelta_minutes 5.
Proof.
  unfold VehicleModel.is_online. destruct (Vehicle.last_seen veh) as [t|].
  - rewrite bool_decide_eq_true. split; [by exists t|]. by intros (? & [= <-] & ?).
  - split; [done|]. by intros (? & ? & _).
Qed.

Lemma length_filter_fmap {A B} (f : A → B) (P : B → Prop)
    `{!∀ x, Decision (P x)} (l : list A) :
  length (filter P (f <$> l)) = length (filter (λ a, P (f a)) l).
Proof.
  induction l as [|a l IH]; [done|]. rewrite fmap_cons, !filter_cons.
  destruct (decide (P (f a))); simpl; by rewrite IH.
Qed.

Lemma length_filter_map_to_list {A} (P : Z * A → Prop)
    `{!∀ x, Decision (P x)} (tbl : gmap Z A) :
  length (filter P (map_to_list tbl)) = size (filter P tbl).
Proof.
  rewrite map_filter_alt, <- length_map_to_list.
  symmetry. apply Permutation_length, map_to_list_to_map.
  eapply sublist_NoDup; [apply (NoDup_fst_map_to_list tbl)|].
  apply fmap_sublist, sublist_filter.
Qed.

Lemma online_count_eq db now :
  count_online (get_online_vehicles_count db now)
  = Z.of_nat (size (online_vehicles now (vehicles db))).
Proof.
  unfold get_online_vehicles_count, online_vehicles. simpl. f_equal.
  by rewrite length_filter_fmap, length_filter_map_to_list.
Qed.

Lemma online_vehicles_lookup now m k veh :
  online_vehicles now m !! k = Some veh ↔
  m !! k = Some veh ∧ VehicleModel.is_online now veh = true.
Proof. unfold online_vehicles. by rewrite map_lookup_filter_Some. Qed.

(** Through [m'] every vehicle of [m] keeps its row, or gets one seen no
    earlier: the vehicles online in [m] are online in [m']. *)
Lemma online_vehicles_mono now m m' :
  seen_le m m' →
  dom (online_vehicles now m) ⊆ dom (online_vehicles now m').
Proof.
  intros Hle k. rewrite !elem_of_dom. intros [veh Hk].
  apply online_vehicles_lookup in Hk as [Hk Hon].
  apply is_online_spec in Hon as (t & Ht & Hnow).
  destruct (Hle k veh t Hk Ht) as (veh' & t' & Hk' & Ht' & Htt).
  exists veh'. apply online_vehicles_lookup. split; [done|].
  apply is_online_spec. exists t'. split; [done|lia].
Qed.
End status_facts.

Section status_properties.
Import TelematicsService TelematicsStatus.
Implicit Types (db : DB) (m : gmap Z Vehicle.t) (veh : Vehicle.t).

(** X9. The online count splits the fleet: total is the number of
    vehicles, online and offline are non-negative and add up to it, online
    counts exactly the vehicles last seen less than five minutes before
    now, offline is 0 exactly when every vehicle is online and online is 0
    exactly when none is (a vehicle never seen is offline). *)
Theorem online_count_partitions db now :
  let c := get_online_vehicles_count db now in
  count_total c = Z.of_nat (size (vehicles db))
  ∧ count_online c + count_offline c = count_total c
  ∧ 0 ≤ count_online c
  ∧ 0 ≤ count_offline c
  ∧ count_online c = Z.of_nat (size (online_vehicles now (vehicles db)))
  ∧ (∀ k veh, online_vehicles now (vehicles db) !! k = Some veh ↔
       vehicles db !! k = Some veh
       ∧ ∃ t, Vehicle.last_seen veh = Some t ∧ now - t < timedelta_minutes 5)
  ∧ (count_offline c = 0 ↔
       ∀ k veh, vehicles db !! k = Some veh → VehicleModel.is_online now veh = true)
  ∧ (count_online c = 0 ↔
       ∀ k veh, vehicles db !! k = Some veh → VehicleModel.is_online now veh = false).
Proof.
  cbv zeta. pose proof (online_count_eq db now) as Hon.
  pose proof (map_size_filter
                (λ kv : Z * Vehicle.t, VehicleModel.is_online now kv.2 = true)
                (vehicles db)) as Hle.
  fold (online_vehicles now (vehicles db)) in Hle.
  assert (count_total (get_online_vehicles_count db now)
          = Z.of_nat (size (vehicles db))) as Htot.
  { unfold get_online_vehicles_count. simpl.
    by rewrite length_fmap, length_map_to_list. }
  assert (count_online (get_online_vehicles_count db now)
          + count_offline (get_online_vehicles_count db now)
          = count_total (get_online_vehicles_count db now)) as Hsum.
  { unfold get_online_vehicles_count. simpl. lia. }
  split; [done|]. split; [done|]. split; [lia|]. split; [lia|]. split; [done|].
  split.
  { intros k veh. by rewrite online_vehicles_lookup, is_online_spec. }
  split.
  - split.
    + intros Hoff k veh Hk.
      assert (online_vehicles now (vehicles db) = vehicles db) as Heq.
      { apply map_subseteq_size_eq; [apply map_filter_subseteq|lia]. }
      rewrite <- Heq in Hk. by apply online_vehicles_lookup in Hk as [_ ?].
    + intros Hall.
      assert (online_vehicles now (vehicles db) = vehicles db) as Heq.
      { apply map_filter_id. intros k veh Hk. simpl. by apply (Hall k). }
      rewrite Heq in Hon. lia.
  - split.
    + intros Hzero k veh Hk.
      assert (online_vehicles now (vehicles db) = ∅) as Heq.
      { apply map_size_empty_iff. lia. }
      apply map_empty_filter_1 in Heq. specialize (Heq k veh Hk). simpl in Heq.
      by destruct (VehicleModel.is_online now veh).
    + intros Hall.
      assert (online_vehicles now (vehicles db) = ∅) as Heq.
      { apply map_empty_filter_2. intros k veh Hk. simpl. by rewrite (Hall k veh Hk). }
      rewrite Heq, map_size_empty in Hon. lia.
Qed.

(** X10. The three status queries agree: the single query answers for
    exactly the vehicles of the table, with its id and with the online
    flag set exactly when last_seen is less than five minutes old; the
    list has one entry per vehicle, each the single answer without its
    heading; and the online count is the number of entries flagged
    online. *)
Theorem status_queries_agree db now :
  (∀ k, get_vehicle_status db now k = None ↔ vehicles db !! k = None)
  ∧ (∀ k d, get_vehicle_status db now k = Some d →
       VehicleStatusDict.id d = k
       ∧ (VehicleStatusDict.is_online d = true ↔
          ∃ t, VehicleStatusDict.last_seen d = Some t
               ∧ now - t < timedelta_minutes 5))
  ∧ (∀ d, d ∈ get_all_vehicles_status db now ↔
       ∃ d', get_vehicle_status db now (VehicleStatusDict.id d) = Some d'
             ∧ d = without_heading d')
  ∧ NoDup (VehicleStatusDict.id <$> get_all_vehicles_status db now)
  ∧ length (get_all_vehicles_status db now) = size (vehicles db)
  ∧ count_online (get_online_vehicles_count db now)
    = Z.of_nat (length (filter (λ d, VehicleStatusDict.is_online d = true)
                          (get_all_vehicles_status db now))).
Proof.
  split; [|split; [|split; [|split; [|split]]]].
  - intros k. unfold get_vehicle_status, _get_vehicle.
    by destruct (vehicles db !! k).
  - intros k d. unfold get_vehicle_status, _get_vehicle.
    destruct (vehicles db !! k) as [veh|]; [|done]. intros [= <-]. simpl.
    split; [done|]. apply is_online_spec.
  - intros d. unfold get_all_vehicles_status, get_vehicle_status, _get_vehicle.
    rewrite list_elem_of_fmap. split.
    + intros ([k veh] & -> & Hin). apply elem_of_map_to_list in Hin. simpl.
      rewrite Hin. eexists. split; [done|]. done.
    + intros (d' & Hd' & ->). simpl in Hd'.
      destruct (vehicles db !! VehicleStatusDict.id d') as [veh|] eqn:Hk; [|done].
      injection Hd' as <-. simpl in Hk. eexists (_, veh).
      split; [|apply elem_of_map_to_list; exact Hk]. done.
  - unfold get_all_vehicles_status. rewrite <- list_fmap_compose.
    rewrite (list_fmap_ext _ fst (map_to_list (vehicles db))) by done.
    apply NoDup_fst_map_to_list.
  - unfold get_all_vehicles_status. by rewrite length_fmap, length_map_to_list.
  - unfold get_all_vehicles_status, get_online_vehicles_count. simpl. f_equal.
    by rewrite !length_filter_fmap.
Qed.
End status_properties.

Section ingestion_and_status.
Import TelematicsService TelematicsStatus.
Implicit Types (db : DB) (p q : GPSPositionCreate.t) (veh : Vehicle.t).

Lemma update_last_seen_ge veh p :
  ∃ t, Vehicle.last_seen (_update_vehicle_position veh p) = Some t
       ∧ GPSPositionCreate.timestamp p ≤ t.
Proof.
  unfold _update_vehicle_position. destruct (is_stale veh p) eqn:Hstale.
  - unfold is_stale in Hstale. destruct (Vehicle.last_seen veh) as [t|]; [|done].
    exists t. split; [done|lia].
  - exists (GPSPositionCreate.timestamp p). split; [done|lia].
Qed.

(** [last_seen] after an update is the one before or the timestamp of
    the position. *)
Lemma update_last_seen_origin veh p :
  Vehicle.last_seen (_update_vehicle_position veh p) = Vehicle.last_seen veh
  ∨ Vehicle.last_seen (_update_vehicle_position veh p)
    = Some (GPSPositionCreate.timestamp p).
Proof.
  unfold _update_vehicle_position. destruct (is_stale veh p); [by left|by right].
Qed.

Lemma later_of_from_some v ps c :
  ∃ q, foldl (later_of v) (Some c) ps = Some q
       ∧ GPSPositionCreate.timestamp c ≤ GPSPositionCreate.timestamp q.
Proof.
  revert c. induction ps as [|p0 ps IH]; intros c; simpl.
  { exists c. split; [done|lia]. }
  unfold later_of at 2. destruct (decide _); [|apply IH].
  destruct (Z.ltb_spec (GPSPositionCreate.timestamp c)
              (GPSPositionCreate.timestamp p0)); [|apply IH].
  destruct (IH p0) as (q & Hq & Hle). exists q. split; [done|lia].
Qed.

(** The position the first loop keeps for a vehicle is no older than any
    position received for that vehicle. *)
Lemma later_of_max v ps cur p :
  GPSPositionCreate.vehicle_id p = v → p ∈ ps →
  ∃ q, foldl (later_of v) cur ps = Some q
       ∧ GPSPositionCreate.timestamp p ≤ GPSPositionCreate.timestamp q.
Proof.
  intros Hv. revert cur. induction ps as [|p0 ps IH]; intros cur Hin; simpl.
  { by apply elem_of_nil in Hin. }
  apply elem_of_cons in Hin as [<-|Hin]; [|by apply IH].
  unfold later_of at 2. rewrite decide_True by done.
  destruct cur as [c|]; [|apply later_of_from_some].
  destruct (Z.ltb_spec (GPSPositionCreate.timestamp c)
              (GPSPositionCreate.timestamp p)); [apply later_of_from_some|].
  destruct (later_of_from_some v ps c) as (q & Hq & Hle).
  exists q. split; [done|lia].
Qed.

Lemma run_call_dom db c : dom (vehicles (run_call db c)) = dom (vehicles db).
Proof.
  destruct c as [p|ps]; unfold run_call.
  - destruct (ingest_position db p true) as [[db' r]|e] eqn:H; [|done].
    apply ingest_position_inv in H as (veh & Hv & _ & -> & _). simpl.
    apply dom_insert_lookup_L. by rewrite Hv.
  - apply set_eq. intros k. rewrite !elem_of_dom, ingest_batch_vehicles.
    destruct (dict_get k (foldl track_latest [] ps)); [|done].
    by rewrite fmap_is_Some.
Qed.

Lemma run_calls_dom cs db : dom (vehicles (run_calls db cs)) = dom (vehicles db).
Proof.
  revert db. induction cs as [|c cs IH]; intros db; simpl; [done|].
  unfold run_calls in IH. by rewrite IH, run_call_dom.
Qed.

(** After a call, the vehicle named by a position of the call is seen no
    earlier than that position; for a single position, if it was
    accepted. *)
Lemma run_call_seen_ge db c p veh :
  p ∈ positions_of c →
  vehicles db !! GPSPositionCreate.vehicle_id p = Some veh →
  match c with IngestOne _ => check_driver db p = Ok () | IngestBatch _ => True end →
  ∃ veh' t, vehicles (run_call db c) !! GPSPositionCreate.vehicle_id p = Some veh'
            ∧ Vehicle.last_seen veh' = Some t
            ∧ GPSPositionCreate.timestamp p ≤ t.
Proof.
  intros Hin Hv Hok. destruct c as [p0|ps]; unfold run_call; simpl in Hin.
  - apply list_elem_of_singleton in Hin as ->.
    rewrite (ingest_position_ok db p0 true veh Hv Hok). simpl.
    destruct (update_last_seen_ge veh p0) as (t & Ht & Hle).
    exists (_update_vehicle_position veh p0), t. by rewrite lookup_insert_eq.
  - rewrite ingest_batch_vehicles, dict_get_foldl_track.
    destruct (later_of_max (GPSPositionCreate.vehicle_id p) ps None p eq_refl Hin)
      as (q & Hq & Hle).
    change (dict_get (GPSPositionCreate.vehicle_id p) [])
      with (@None GPSPositionCreate.t).
    rewrite Hq, Hv. simpl.
    destruct (update_last_seen_ge veh q) as (t & Ht & Hle').
    exists (_update_vehicle_position veh q), t. repeat split; [done|lia].
Qed.

(** A property of vehicle rows that every update by a position of a
    call preserves is preserved by the call. *)
Lemma run_call_invariant (I : Vehicle.t → Prop) db c :
  (∀ veh p, p ∈ positions_of c → I veh → I (_update_vehicle_position veh p)) →
  map_Forall (λ _, I) (vehicles db) →
  map_Forall (λ _, I) (vehicles (run_call db c)).
Proof.
  intros Hupd Hinv k veh'. destruct c as [p|ps]; unfold run_call, positions_of in *.
  - destruct (ingest_position db p true) as [[db' r]|e] eqn:H; [|apply Hinv].
    apply ingest_position_inv in H as (veh & Hv & _ & -> & _). simpl.
    destruct (decide (GPSPositionCreate.vehicle_id p = k)) as [<-|Hne].
    + rewrite lookup_insert_eq. intros [= <-].
      apply Hupd; [by apply list_elem_of_singleton|by apply (Hinv _ _ Hv)].
    + rewrite lookup_insert_ne by done. apply Hinv.
  - rewrite ingest_batch_vehicles, dict_get_foldl_track.
    change (dict_get k []) with (@None GPSPositionCreate.t).
    destruct (foldl (later_of k) None ps) as [q|] eqn:Hq; [|apply Hinv].
    apply later_of_origin in Hq as [?|[Hin Hqk]]; [done|].
    destruct (vehicles db !! k) as [veh|] eqn:Hv; [|done]. simpl. intros [= <-].
    apply Hupd; [done|by apply (Hinv _ _ Hv)].
Qed.

Lemma run_calls_invariant (I : Vehicle.t → Prop) cs db :
  (∀ veh c p, c ∈ cs → p ∈ positions_of c → I veh →
     I (_update_vehicle_position veh p)) →
  map_Forall (λ _, I) (vehicles db) →
  map_Forall (λ _, I) (vehicles (run_calls db cs)).
Proof.
  revert db. induction cs as [|c cs IH]; intros db Hupd Hinv; simpl; [done|].
  apply IH.
  - intros veh c' p Hc. apply Hupd. by right.
  - apply run_call_invariant; [|done]. intros veh p. apply Hupd. left.
Qed.

Lemma validate_spec now p :
  GPSPositionSchema.validate now p = true ↔
  (-90 <= GPSPositionCreate.lat p)%Q ∧ (GPSPositionCreate.lat p <= 90)%Q
  ∧ (-180 <= GPSPositionCreate.lon p)%Q ∧ (GPSPositionCreate.lon p <= 180)%Q
  ∧ when_set (λ s, (0 <= s)%Q) (GPSPositionCreate.speed p)
  ∧ when_set (λ h, (0 <= h)%Q ∧ (h <= 360)%Q) (GPSPositionCreate.heading p)
  ∧ when_set (λ o, (0 <= o)%Q) (GPSPositionCreate.odometer p)
  ∧ GPSPositionCreate.timestamp p ≤ now + timedelta_minutes 1.
Proof.
  unfold GPSPositionSchema.validate, GPSPositionSchema.ge_le,
    GPSPositionSchema.opt_ge, GPSPositionSchema.opt_ge_le,
    GPSPositionSchema.ge_le, GPSPositionSchema.validate_timestamp.
  rewrite !andb_true_iff, !Qle_bool_iff, negb_true_iff, Z.ltb_ge.
  destruct (GPSPositionCreate.speed p), (GPSPositionCreate.heading p),
    (GPSPositionCreate.odometer p); simpl;
    rewrite ?andb_true_iff, ?Qle_bool_iff; tauto.
Qed.

Lemma update_within now veh p :
  validated_by now p → vehicle_within now veh →
  vehicle_within now (_update_vehicle_position veh p).
Proof.
  intros (received & Hrec & Hval) Hveh.
  apply validate_spec in Hval as (? & ? & ? & ? & ? & ? & ? & ?).
  unfold _update_vehicle_position. destruct (is_stale veh p); [done|].
  destruct Hveh as (_ & _ & _ & _ & Hodo).
  unfold vehicle_within. simpl. repeat split; try done; [lia|].
  by destruct (truthy_float (GPSPositionCreate.odometer p)).
Qed.
End ingestion_and_status.

Section online_properties.
Import TelematicsService TelematicsStatus.
Implicit Types (db : DB) (p q : GPSPositionCreate.t) (veh : Vehicle.t).

Lemma reported_online_spec db now k :
  reported_online db now k ↔
  ∃ veh t, vehicles db !! k = Some veh ∧ Vehicle.last_seen veh = Some t
           ∧ now - t < timedelta_minutes 5.
Proof.
  unfold reported_online, get_vehicle_status, _get_vehicle. split.
  - intros (d & Hd & Hon). destruct (vehicles db !! k) as [veh|]; [|done].
    injection Hd as <-. simpl in Hon. apply is_online_spec in Hon as (t & ? & ?).
    by exists veh, t.
  - intros (veh & t & -> & Ht & Hnow). eexists. split; [done|]. simpl.
    apply is_online_spec. by exists t.
Qed.

Lemma seen_ge_reported_online db now p veh t :
  vehicles db !! GPSPositionCreate.vehicle_id p = Some veh →
  Vehicle.last_seen veh = Some t →
  GPSPositionCreate.timestamp p ≤ t →
  now - GPSPositionCreate.timestamp p < timedelta_minutes 5 →
  reported_online db now (GPSPositionCreate.vehicle_id p).
Proof.
  intros Hv Ht Hle Hnow. apply reported_online_spec. exists veh, t.
  repeat split; [done..|lia].
Qed.

(** X11. At a fixed instant, no sequence of ingestion calls, single or
    batch, accepted or rejected, takes a vehicle offline or changes the
    number of vehicles: the online count does not decrease, the offline
    count does not increase, and a vehicle reported online stays so. *)
Theorem ingestion_keeps_vehicles_online db calls now :
  let before := get_online_vehicles_count db now in
  let after := get_online_vehicles_count (run_calls db calls) now in
  count_total after = count_total before
  ∧ count_online before ≤ count_online after
  ∧ count_offline after ≤ count_offline before
  ∧ ∀ k, reported_online db now k → reported_online (run_calls db calls) now k.
Proof.
  cbv zeta.
  assert (count_total (get_online_vehicles_count (run_calls db calls) now)
          = count_total (get_online_vehicles_count db now)) as Htot.
  { unfold get_online_vehicles_count. simpl.
    rewrite !length_fmap, !length_map_to_list.
    by rewrite <- !(size_dom (D := gset Z)), run_calls_dom. }
  assert (count_online (get_online_vehicles_count db now)
          ≤ count_online (get_online_vehicles_count (run_calls db calls) now)) as Hon.
  { rewrite !online_count_eq. apply inj_le.
    rewrite <- !(size_dom (D := gset Z)). apply subseteq_size.
    apply online_vehicles_mono, run_calls_seen_le. }
  split; [done|]. split; [done|]. split.
  - unfold get_online_vehicles_count in *. simpl in *. lia.
  - intros k. rewrite !reported_online_spec. intros (veh & t & Hk & Ht & Hnow).
    destruct (run_calls_seen_le calls db k veh t Hk Ht) as (veh' & t' & ? & ? & ?).
    exists veh', t'. repeat split; [done..|lia].
Qed.

(** X13. If every position submitted passed the checks of its schema when
    it was received, and the state of every vehicle was within the bounds
    of the schema, it still is after the calls: last_seen is at most one
    minute ahead of now, the coordinates are within range, speed and
    odometer are not negative and the heading is between 0 and 360. *)
Theorem validated_positions_bound_vehicle_state db calls now :
  Forall (λ c, Forall (validated_by now) (positions_of c)) calls →
  map_Forall (λ _, vehicle_within now) (vehicles db) →
  map_Forall (λ _, vehicle_within now) (vehicles (run_calls db calls)).
Proof.
  intros Hval. apply run_calls_invariant. intros veh c p Hc Hp.
  apply update_within. rewrite Forall_forall in Hval.
  specialize (Hval c Hc). rewrite Forall_forall in Hval. by apply Hval.
Qed.
End online_properties.

(** * Roles and endpoints *)

Section access_properties.
Implicit Types (users : gmap Z User.t) (payload : option Payload.t) (u : User.t).

Lemma get_current_user_returns users payload u :
  Deps.get_current_user users payload = Returns u ↔ authenticated users payload u.
Proof.
  unfold Deps.get_current_user, authenticated. split.
  - destruct payload as [claims|]; [|done].
    case_bool_decide as Hty; [done|].
    destruct (Payload.sub claims) as [user_id|] eqn:Hsub; [|done].
    destruct (users !! user_id) as [user|] eqn:Huser; [|done].
    destruct (User.is_active user) eqn:Hact; [|done]. simpl.
    intros [= <-]. by exists claims, user_id.
  - intros (claims & user_id & -> & Hty & -> & -> & ->).
    rewrite bool_decide_eq_false_2; [done|]. by intros [].
Qed.

Lemma get_current_user_fails users payload :
  (∀ u, ¬ authenticated users payload u) →
  fails_with 401 (Deps.get_current_user users payload)
  ∨ fails_with 403 (Deps.get_current_user users payload).
Proof.
  intros Hno. unfold Deps.get_current_user, fails_with.
  destruct payload as [claims|]; [|left; eauto].
  case_bool_decide as Hty; [left; eauto|].
  destruct (Payload.sub claims) as [user_id|] eqn:Hsub; [|left; eauto].
  destruct (users !! user_id) as [user|] eqn:Huser; [|left; eauto].
  destruct (User.is_active user) eqn:Hact; simpl; [|right; eauto].
  destruct (Hno user). by exists claims, user_id.
Qed.

Lemma check_role_permission_returns u perm :
  Rbac.check_role_permission u perm = Returns () ↔
  perm ∈ Rbac.ROLE_PERMISSIONS (User.role u).
Proof.
  unfold Rbac.check_role_permission, Rbac.has_permission.
  case_bool_decide; split; done.
Qed.

Lemma require_write_returns u u' :
  Deps.require_write_permission u = Returns u' ↔
  u' = u ∧ (User.role u = ADMIN ∨ User.role u = RH).
Proof.
  unfold Deps.require_write_permission, Rbac.check_role_permission,
    Rbac.has_permission.
  destruct (User.role u); vm_compute; split; try (intros [= <-]); intuition congruence.
Qed.

Lemma require_read_returns u : Deps.require_read_permission u = Returns u.
Proof.
  unfold Deps.require_read_permission, Rbac.check_role_permission,
    Rbac.has_permission. by destruct (User.role u).
Qed.

Lemma require_admin_returns u u' :
  Deps.require_admin_permission u = Returns u' ↔ u' = u ∧ User.role u = ADMIN.
Proof.
  unfold Deps.require_admin_permission, Rbac.check_role_permission,
    Rbac.has_permission.
  destruct (User.role u); vm_compute; split; try (intros [= <-]); intuition congruence.
Qed.

Lemma require_write_viewer u :
  User.role u = VIEWER →
  Deps.require_write_permission u
  = Fails (HTTPException 403 (InsufficientPermissions "write" VIEWER)).
Proof.
  unfold Deps.require_write_permission, Rbac.check_role_permission,
    Rbac.has_permission. by intros ->.
Qed.
End access_properties.

Section access_theorems.
Implicit Types (users : gmap Z User.t) (payload : option Payload.t) (u : User.t).

(** X14. A dependency lets a request through exactly when its token is an
    access token naming an active user of the table whose stored role
    carries the permission: any role reads, ADMIN and RH write, ADMIN
    alone administers. Otherwise the request fails with 401 or 403; a
    refresh token fails with 401; and the role written in the token plays
    no part. A role checker or role decorator given the roles that carry
    a permission lets through the same users as the permission check. *)
Theorem access_is_decided_by_stored_role users payload :
  (∀ u, Deps.ReadUser users payload = Returns u ↔ authenticated users payload u)
  ∧ (∀ u, Deps.WriteUser users payload = Returns u ↔
       authenticated users payload u ∧ (User.role u = ADMIN ∨ User.role u = RH))
  ∧ (∀ u, Deps.AdminUser users payload = Returns u ↔
       authenticated users payload u ∧ User.role u = ADMIN)
  ∧ ((∀ u, ¬ authenticated users payload u) →
     ∀ dep, dep ∈ [Deps.ReadUser; Deps.WriteUser; Deps.AdminUser] →
       dep users payload = Deps.get_current_user users payload
       ∧ (fails_with 401 (dep users payload) ∨ fails_with 403 (dep users payload)))
  ∧ (∀ u, authenticated users payload u →
       (User.role u = VIEWER → fails_with 403 (Deps.WriteUser users payload))
       ∧ (User.role u ≠ ADMIN → fails_with 403 (Deps.AdminUser users payload)))
  ∧ (∀ user_id role,
       fails_with 401 (Deps.ReadUser users (Some (token "refresh" user_id role))))
  ∧ (∀ user_id role role' dep,
       dep ∈ [Deps.ReadUser; Deps.WriteUser; Deps.AdminUser] →
       dep users (Some (token "access" user_id role))
       = dep users (Some (token "access" user_id role')))
  ∧ (∀ perm allowed u,
       (∀ r, r ∈ allowed ↔ perm ∈ Rbac.ROLE_PERMISSIONS r) →
       (Rbac.RoleChecker allowed u = Returns u ↔
        Rbac.check_role_permission u perm = Returns ())
       ∧ (Rbac.require_role allowed (Some u) = Returns () ↔
          Rbac.check_role_permission u perm = Returns ())
       ∧ Rbac.require_role allowed None
         = Fails (HTTPException 401 AuthenticationRequired)).
Proof.
  split; [|split; [|split; [|split; [|split; [|split; [|split]]]]]].
  - intros u. unfold Deps.ReadUser, Deps.depends.
    rewrite <- get_current_user_returns.
    destruct (Deps.get_current_user users payload) as [u0|e]; [|done].
    by rewrite require_read_returns.
  - intros u. unfold Deps.WriteUser, Deps.depends.
    rewrite <- get_current_user_returns.
    destruct (Deps.get_current_user users payload) as [u0|e]; [|by split; [|intros []]].
    rewrite require_write_returns. split; [by intros [-> ?]|].
    by intros [[= ->] ?].
  - intros u. unfold Deps.AdminUser, Deps.depends.
    rewrite <- get_current_user_returns.
    destruct (Deps.get_current_user users payload) as [u0|e]; [|by split; [|intros []]].
    rewrite require_admin_returns. split; [by intros [-> ?]|].
    by intros [[= ->] ?].
  - intros Hno dep Hdep.
    assert (dep users payload = Deps.get_current_user users payload) as ->.
    { pose proof (get_current_user_returns users payload) as Hret.
      rewrite !elem_of_cons, elem_of_nil in Hdep.
      destruct Hdep as [->|[->|[->|[]]]];
        unfold Deps.ReadUser, Deps.WriteUser, Deps.AdminUser, Deps.depends;
        (destruct (Deps.get_current_user users payload) as [u0|e]; [|done]);
        destruct (Hno u0); by apply Hret. }
    split; [done|]. by apply get_current_user_fails.
  - intros u Hu. apply get_current_user_returns in Hu.
    unfold Deps.WriteUser, Deps.AdminUser, Deps.depends. rewrite Hu. split.
    + intros Hrole. rewrite require_write_viewer by done. by eexists.
    + intros Hrole. unfold Deps.require_admin_permission,
        Rbac.check_role_permission, Rbac.has_permission.
      destruct (User.role u); [done| |]; by eexists.
  - intros user_id role. by eexists.
  - intros user_id role role' dep Hdep.
    rewrite !elem_of_cons, elem_of_nil in Hdep.
    by destruct Hdep as [->|[->|[->|[]]]].
  - intros perm allowed u Hallowed.
    rewrite check_role_permission_returns, <- Hallowed.
    unfold Rbac.RoleChecker, Rbac.require_role.
    split; [|split; [|done]]; by case_bool_decide.
Qed.
End access_theorems.

Section endpoint_theorems.
Import TelematicsService.
Implicit Types (db : DB) (u : User.t) (p : GPSPositionCreate.t).

Lemma require_write_not_viewer u :
  User.role u ≠ VIEWER → Deps.require_write_permission u = Returns u.
Proof.
  intros Hrole. apply require_write_returns. split; [done|].
  destruct (User.role u); auto. done.
Qed.

Lemma ingest_position_raises db p update_vehicle e :
  ingest_position db p update_vehicle = Raise e →
  ∃ msg, e = TelematicsServiceError msg.
Proof.
  unfold ingest_position.
  destruct (_get_vehicle db _) as [veh|]; [|intros [= <-]; eauto].
  destruct (check_driver_cases db p) as [[-> _]|(d & _ & _ & _ & ->)]; simpl;
    [done|intros [= <-]; eauto].
Qed.

Lemma responses_of_cons_missing d l :
  VehicleStatusDict.current_heading d = None →
  TelematicsAPI.responses_of (d :: l) = Fails (FieldRequired "current_heading").
Proof. intros H. simpl. unfold TelematicsAPI.VehicleStatusResponse_of. by rewrite H. Qed.

(** X16. What the read endpoints answer, for any role. The list of
    vehicle statuses is empty for an empty fleet and fails on any other,
    the dictionaries of the service having no current_heading; the single
    status returns the vehicle's state or 404; the online statistics and
    the activities of a driver always return, an unknown driver having no
    activities; the summary returns for a known driver and gives 404 for
    an unknown one. *)
Theorem read_endpoints_outcomes db now u :
  (vehicles db = ∅ → TelematicsAPI.get_all_vehicles_status db now u = Returns [])
  ∧ (vehicles db ≠ ∅ →
     TelematicsAPI.get_all_vehicles_status db now u
     = Fails (FieldRequired "current_heading"))
  ∧ (∀ k, match TelematicsAPI.get_vehicle_status db now u k with
          | Returns r =>
              ∃ veh, vehicles db !! k = Some veh
                     ∧ VehicleStatusResponse.id r = k
                     ∧ VehicleStatusResponse.is_online r = VehicleModel.is_online now veh
                     ∧ VehicleStatusResponse.last_seen r = Vehicle.last_seen veh
                     ∧ VehicleStatusResponse.current_speed r = Vehicle.current_speed veh
                     ∧ VehicleStatusResponse.current_heading r
                       = Vehicle.current_heading veh
          | Fails e =>
              vehicles db !! k = None
              ∧ e = HTTPException 404 (Detail (VehicleNotFound k))
          end)
  ∧ TelematicsAPI.get_online_stats db now u
    = Returns (TelematicsStatus.get_online_vehicles_count db now)
  ∧ (∀ d sd ed ty,
       TachographAPI.get_driver_activities db u d sd ed ty
       = Returns (ActivityService.get_driver_activities db d sd ed ty))
  ∧ (∀ d s e,
       match TachographAPI.get_activity_summary db u d s e with
       | Returns summary =>
           is_Some (drivers db !! d)
           ∧ ActivityService.get_activity_summary db d s e = Ok summary
       | Fails e =>
           drivers db !! d = None
           ∧ e = HTTPException 404 (Detail (DriverNotFound d))
       end).
Proof.
  unfold TelematicsAPI.get_all_vehicles_status, TelematicsAPI.get_vehicle_status,
    TelematicsAPI.get_online_stats, TachographAPI.get_driver_activities,
    TachographAPI.get_activity_summary.
  rewrite require_read_returns.
  split; [|split; [|split; [|split; [|split]]]]; try done.
  - intros Hempty. unfold TelematicsStatus.get_all_vehicles_status.
    by rewrite Hempty, map_to_list_empty.
  - intros Hne. unfold TelematicsStatus.get_all_vehicles_status.
    destruct (map_to_list (vehicles db)) as [|[k veh] l] eqn:Hl.
    + by apply map_to_list_empty_iff in Hl.
    + rewrite fmap_cons. by apply responses_of_cons_missing.
  - intros k. unfold TelematicsStatus.get_vehicle_status, _get_vehicle.
    destruct (vehicles db !! k) as [veh|]; [|done]. simpl. by exists veh.
  - intros d s e. unfold ActivityService.get_activity_summary.
    destruct (drivers db !! d) as [driver|]; [|done]. by split; [eexists|].
Qed.
End endpoint_theorems.

(** * The ingestion on the session

    What the position ingestor does once the constraints of the tables
    are in force: when the database accepts every flush of a request the
    functions on the session do what the functions on the tables do, and
    when it refuses one, nothing of the request remains. *)

Section session_ingest_facts.
Import TelematicsService.
Implicit Types (db : DB) (p q : GPSPositionCreate.t) (s : session).

(** The row of a position that passed the checks is refused only for a
    driver the check did not look up. *)
Lemma insert_gps_position_checked db p veh :
  vehicles db !! GPSPositionCreate.vehicle_id p = Some veh →
  check_driver db p = Ok () →
  Schema.insert_gps_position db (gps_row p)
  = match GPSPositionCreate.driver_id p with
    | Some d =>
        match drivers db !! d with
        | None => Some (IntegrityError "gps_positions" "driver_id")
        | Some _ => None
        end
    | None => None
    end
  ∧ (Schema.insert_gps_position db (gps_row p) ≠ None →
     GPSPositionCreate.driver_id p = Some 0 ∧ drivers db !! 0 = None).
Proof.
  intros Hv Hok. unfold Schema.insert_gps_position. simpl. rewrite Hv.
  split; [done|].
  destruct (check_driver_cases db p) as [[_ [Hf|(d & Hd & Hsome)]]|(d & _ & _ & _ & H)];
    [| |congruence].
  - destruct (GPSPositionCreate.driver_id p) as [d|]; [|done]. simpl in Hf.
    apply negb_false_iff, Z.eqb_eq in Hf as ->.
    by destruct (drivers db !! 0).
  - rewrite Hd. by destruct Hsome as [drv ->].
Qed.

Lemma session_ingest_position db p u :
  SessionTelematics.ingest_position (Active db) p u
  = match ingest_position db p u with
    | Raise e => (Active db, Throw (ServiceError e))
    | Ok (db', r) =>
        match Schema.insert_gps_position db (gps_row p) with
        | Some e => (Inactive, Throw (DatabaseError e))
        | None => (Active db', Return r)
        end
    end.
Proof.
  unfold SessionTelematics.ingest_position, ingest_position.
  destruct (_get_vehicle db _) as [veh|]; [|done].
  destruct (check_driver db p) as [[]|e]; [|done]. simpl.
  by destruct (Schema.insert_gps_position db (gps_row p)).
Qed.

Lemma flush_refused_spec db p :
  flush_refused db p = true ↔
  is_Some (vehicles db !! GPSPositionCreate.vehicle_id p)
  ∧ GPSPositionCreate.driver_id p = Some 0
  ∧ drivers db !! 0 = None.
Proof.
  unfold flush_refused. rewrite session_ingest_position.
  destruct (ingest_position db p false) as [[db' r]|e] eqn:Hing.
  - apply ingest_position_inv in Hing as (veh & Hv & Hok & _ & _).
    destruct (insert_gps_position_checked db p veh Hv Hok) as [Heq Hzero].
    destruct (Schema.insert_gps_position db (gps_row p)) as [e|] eqn:Hins.
    + split; [intros _|done]. split; [by eexists|]. by apply Hzero.
    + split; [done|]. intros (_ & Hd & Hdrv). by rewrite Hd, Hdrv in Heq.
  - split; [done|]. intros ([veh Hv] & Hd & Hdrv).
    assert (check_driver db p = Ok ()) as Hok.
    { unfold check_driver. by rewrite Hd. }
    by rewrite (ingest_position_ok db p false veh Hv Hok) in Hing.
Qed.

Lemma flush_refused_same db db' p :
  vehicles db' = vehicles db → drivers db' = drivers db →
  flush_refused db' p = flush_refused db p.
Proof.
  intros Hv Hd. apply eq_true_iff_eq. by rewrite !flush_refused_spec, Hv, Hd.
Qed.

(** A refused flush: the exception of the database, and an inactive
    session. *)
Lemma session_ingest_refused db p u :
  flush_refused db p = true →
  SessionTelematics.ingest_position (Active db) p u
  = (Inactive, Throw (DatabaseError (IntegrityError "gps_positions" "driver_id"))).
Proof.
  intros Href. apply flush_refused_spec in Href as ([veh Hv] & Hd & Hdrv).
  assert (check_driver db p = Ok ()) as Hok.
  { unfold check_driver. by rewrite Hd. }
  rewrite session_ingest_position, (ingest_position_ok db p u veh Hv Hok).
  destruct (insert_gps_position_checked db p veh Hv Hok) as [-> _].
  by rewrite Hd, Hdrv.
Qed.

(** Otherwise the session is left active, with what the function does on
    the tables. *)
Lemma session_ingest_accepted db p u :
  flush_refused db p = false →
  SessionTelematics.ingest_position (Active db) p u
  = match ingest_position db p u with
    | Raise e => (Active db, Throw (ServiceError e))
    | Ok (db', r) => (Active db', Return r)
    end.
Proof.
  intros Href. rewrite session_ingest_position.
  destruct (ingest_position db p u) as [[db' r]|e] eqn:Hing; [|done].
  apply ingest_position_inv in Hing as (veh & Hv & Hok & _ & _).
  destruct (Schema.insert_gps_position db (gps_row p)) as [e|] eqn:Hins; [|done].
  destruct (insert_gps_position_checked db p veh Hv Hok) as [_ Hzero].
  destruct Hzero as [Hd Hdrv]; [by rewrite Hins|].
  assert (flush_refused db p = true) as Ht; [|congruence].
  apply flush_refused_spec. split; [by eexists|done].
Qed.

Lemma session_ingest_inactive p u :
  SessionTelematics.ingest_position Inactive p u
  = (Inactive, Throw (DatabaseError PendingRollbackError)).
Proof. done. Qed.
End session_ingest_facts.

Section session_batch_facts.
Import TelematicsService.
Implicit Types (db : DB) (p q : GPSPositionCreate.t) (s : session).

(** The state of the first loop on the tables, seen as a state of the
    loop on an active session. *)
#[local] Abbreviation on_session st :=
  (SessionTelematics.mkBatch (Active (batch_db st)) (batch_stats st) (batch_latest st)).

Lemma session_batch_step_accepted st p :
  flush_refused (batch_db st) p = false →
  SessionTelematics.batch_step (on_session st) p = on_session (batch_step st p).
Proof.
  intros Href. unfold SessionTelematics.batch_step, batch_step.
  cbn [SessionTelematics.batch_session SessionTelematics.batch_stats
       SessionTelematics.batch_latest].
  rewrite (session_ingest_accepted _ _ _ Href).
  by destruct (ingest_position (batch_db st) p false) as [[db' r]|[msg|msg]].
Qed.

Lemma session_batch_loop_accepted ps st :
  Forall (λ q, flush_refused (batch_db st) q = false) ps →
  foldl SessionTelematics.batch_step (on_session st) ps
  = on_session (foldl batch_step st ps).
Proof.
  revert st. induction ps as [|p ps IH]; intros st Hps; [done|].
  apply Forall_cons in Hps as [Hp Hps]. simpl.
  rewrite (session_batch_step_accepted st p Hp). apply IH.
  destruct (batch_step_tables st p) as (Hv & Hd & _).
  eapply Forall_impl; [exact Hps|]. intros q Hq.
  by rewrite (flush_refused_same (batch_db st)).
Qed.

Lemma session_apply_latest_active items db errs :
  foldl SessionTelematics.apply_latest (Active db, errs) items
  = (Active (foldl apply_latest db items), errs).
Proof.
  revert db. induction items as [|item items IH]; intros db; [done|]. simpl.
  unfold SessionTelematics.apply_latest at 2. unfold apply_latest at 2.
  cbn [fst snd]. destruct (_get_vehicle db item.1) as [veh|]; apply IH.
Qed.

Lemma session_apply_latest_inactive items errs :
  foldl SessionTelematics.apply_latest (Inactive, errs) items
  = (Inactive, errs ++ update_failures items).
Proof.
  revert errs. induction items as [|item items IH]; intros errs; simpl.
  { by rewrite app_nil_r. }
  unfold SessionTelematics.apply_latest at 2. cbn [fst snd].
  by rewrite IH, <- app_assoc.
Qed.

(** Once the session is inactive every further position fails. *)
Lemma session_batch_loop_inactive ps stats latest :
  foldl SessionTelematics.batch_step
    (SessionTelematics.mkBatch Inactive stats latest) ps
  = SessionTelematics.mkBatch Inactive
      (mkStats (total_received stats) (successfully_processed stats)
         (failed stats + length ps)
         (errors stats
          ++ replicate (length ps)
               (UnexpectedError (DatabaseErrorText PendingRollbackError))))
      (foldl track_latest latest ps).
Proof.
  revert stats latest. induction ps as [|p ps IH]; intros stats latest; simpl.
  { rewrite Nat.add_0_r, app_nil_r. by destruct stats. }
  unfold SessionTelematics.batch_step at 2. simpl. rewrite IH. simpl.
  rewrite <- app_assoc. do 2 f_equal. lia.
Qed.

Lemma session_batch_step_refused st p :
  flush_refused (batch_db st) p = true →
  SessionTelematics.batch_step (on_session st) p
  = SessionTelematics.mkBatch Inactive
      (mkStats (total_received (batch_stats st))
         (successfully_processed (batch_stats st))
         (S (failed (batch_stats st)))
         (errors (batch_stats st)
          ++ [UnexpectedError
                (DatabaseErrorText (IntegrityError "gps_positions" "driver_id"))]))
      (track_latest (batch_latest st) p).
Proof.
  intros Href. unfold SessionTelematics.batch_step.
  cbn [SessionTelematics.batch_session SessionTelematics.batch_stats
       SessionTelematics.batch_latest].
  by rewrite (session_ingest_refused _ _ _ Href).
Qed.

(** The counts of the first loop, whatever the session does. *)
Lemma session_batch_loop_counts ps st :
  let st' := foldl SessionTelematics.batch_step st ps in
  total_received (SessionTelematics.batch_stats st')
  = total_received (SessionTelematics.batch_stats st)
  ∧ (successfully_processed (SessionTelematics.batch_stats st')
     + failed (SessionTelematics.batch_stats st')
     = successfully_processed (SessionTelematics.batch_stats st)
       + failed (SessionTelematics.batch_stats st) + length ps)%nat.
Proof.
  revert st. induction ps as [|p ps IH]; intros st; simpl; [lia|].
  destruct (IH (SessionTelematics.batch_step st p)) as [-> ->].
  unfold SessionTelematics.batch_step.
  destruct (SessionTelematics.ingest_position _ p false) as [s' [r|[[msg|msg]|e]]];
    simpl; lia.
Qed.

Lemma session_ingest_batch_accepted db ps :
  Forall (λ q, flush_refused db q = false) ps →
  SessionTelematics.ingest_batch (Active db) ps
  = (Active (ingest_batch db ps).1, (ingest_batch db ps).2).
Proof.
  intros Hps. unfold SessionTelematics.ingest_batch, ingest_batch.
  set (st0 := mkBatch db (mkStats (length ps) 0 0 []) []).
  change (SessionTelematics.mkBatch (Active db) (mkStats (length ps) 0 0 []) [])
    with (on_session st0).
  rewrite (session_batch_loop_accepted ps st0 Hps).
  cbn [SessionTelematics.batch_session SessionTelematics.batch_stats
       SessionTelematics.batch_latest].
  rewrite session_apply_latest_active. cbn [fst snd].
  by destruct (batch_stats (foldl batch_step st0 ps)).
Qed.

Lemma session_ingest_batch_refused db ps1 p ps2 :
  Forall (λ q, flush_refused db q = false) ps1 →
  flush_refused db p = true →
  let ps := ps1 ++ p :: ps2 in
  let ok := filter (λ q, accepted db q = true) ps1 in
  SessionTelematics.ingest_batch (Active db) ps
  = (Inactive,
     mkStats (length ps) (length ok) (length ps - length ok)
       (omap (batch_error db) ps1
        ++ [UnexpectedError
              (DatabaseErrorText (IntegrityError "gps_positions" "driver_id"))]
        ++ replicate (length ps2)
             (UnexpectedError (DatabaseErrorText PendingRollbackError))
        ++ update_failures (foldl track_latest [] ps))).
Proof.
  intros Hps1 Hp. cbv zeta. unfold SessionTelematics.ingest_batch.
  set (n := length (ps1 ++ p :: ps2)).
  set (st0 := mkBatch db (mkStats n 0 0 []) []).
  change (SessionTelematics.mkBatch (Active db) (mkStats n 0 0 []) [])
    with (on_session st0).
  rewrite foldl_app, (session_batch_loop_accepted ps1 st0 Hps1). simpl.
  destruct (batch_loop_spec ps1 st0) as (Hv & Hd & _ & _ & Ht & Hs & Hf & _ & Hl).
  pose proof (batch_loop_errors ps1 st0) as He.
  cbn [batch_db batch_stats batch_latest st0 total_received successfully_processed
       failed errors] in Hv, Hd, Ht, Hs, Hf, He, Hl.
  rewrite session_batch_step_refused
    by (by rewrite (flush_refused_same db)).
  rewrite session_batch_loop_inactive.
  cbn [SessionTelematics.batch_session SessionTelematics.batch_stats
       SessionTelematics.batch_latest total_received successfully_processed
       failed errors].
  rewrite session_apply_latest_inactive. cbn [fst snd].
  rewrite Ht, Hs, He, Hl. simpl. rewrite <- !app_assoc. f_equal. f_equal.
  - subst n. rewrite length_app in *. simpl. lia.
  - do 3 f_equal. by rewrite foldl_app.
Qed.
End session_batch_facts.

Section session_ingest_theorems.
Import TelematicsService.
Implicit Types (db : DB) (p q : GPSPositionCreate.t) (s : session).

(** C8, where the code departs from it. A driver id of 0 is falsy, so the
    driver check is skipped although no driver 0 exists; the row reaches
    the database, whose foreign key refuses it. The operation fails, and
    nothing is stored, but with the exception of the database instead of
    the service's "not found" error: the single endpoint does not answer
    400 and the ping answers "Internal error", where an unknown driver 2
    gets the message "Driver 2 not found" from both. *)
Theorem driver_zero_is_not_checked :
  let p := sample_position 1 (Some 0) 100 in
  let refusal := DatabaseError (IntegrityError "gps_positions" "driver_id") in
  drivers sample_db !! 0 = None
  ∧ GPSPositionCreate.driver_id p = Some 0
  ∧ check_driver sample_db p = Ok ()
  ∧ SessionTelematics.ingest_position (Active sample_db) p true
    = (Inactive, Throw refusal)
  ∧ TelematicsAPI.ingest_position sample_db (sample_user ADMIN) p
    = Fails (Unhandled refusal)
  ∧ TelematicsAPI.device_ping sample_db sample_now p
    = (sample_db, PingFailed InternalError sample_now)
  ∧ SessionTelematics.ingest_position (Active sample_db)
      (sample_position 1 (Some 2) 100) true
    = (Active sample_db,
       Throw (ServiceError (TelematicsServiceError (DriverNotFound 2))))
  ∧ TelematicsAPI.ingest_position sample_db (sample_user ADMIN)
      (sample_position 1 (Some 2) 100)
    = Fails (HTTPException 400 (Detail (DriverNotFound 2)))
  ∧ TelematicsAPI.device_ping sample_db sample_now (sample_position 1 (Some 2) 100)
    = (sample_db, PingFailed (PingMessage (DriverNotFound 2)) sample_now).
Proof. cbv zeta. repeat split; vm_compute; reflexivity. Qed.

(** C5, where the code departs from it. A batch of three positions for
    vehicle 1, the second with driver id 0: the first and the third alone
    are both stored, but in the batch the flush of the second is refused,
    which rolls back the first and leaves the session inactive, so that
    the third fails as well and the vehicle is not updated. One position
    is counted as processed, two as failed, three error strings are
    collected, and nothing of the batch is stored. *)
Theorem refused_flush_ends_the_batch :
  let p1 := sample_position 1 (Some 1) 10 in
  let p2 := sample_position 1 (Some 0) 20 in
  let p3 := sample_position 1 None 30 in
  let refusal := DatabaseErrorText (IntegrityError "gps_positions" "driver_id") in
  let rolled_back := DatabaseErrorText PendingRollbackError in
  (∃ db',
     SessionTelematics.ingest_batch (Active sample_db) [p1; p3]
     = (Active db', mkStats 2 2 0 [])
     ∧ gps_positions db'
       = insert_row (gps_row p3) (insert_row (gps_row p1) (gps_positions sample_db))
     ∧ Vehicle.last_seen <$> vehicles db' !! 1 = Some (Some 30))
  ∧ SessionTelematics.ingest_batch (Active sample_db) [p1; p2; p3]
    = (Inactive,
       mkStats 3 1 2
         [UnexpectedError refusal; UnexpectedError rolled_back;
          FailedToUpdateVehicle 1 rolled_back])
  ∧ TelematicsAPI.ingest_positions_batch sample_db (sample_user ADMIN) [p1; p2; p3]
    = Returns
        (sample_db,
         mkStats 3 1 2
           [UnexpectedError refusal; UnexpectedError rolled_back;
            FailedToUpdateVehicle 1 rolled_back]).
Proof.
  cbv zeta. split; [|split; vm_compute; reflexivity].
  eexists. split; [vm_compute; reflexivity|]. split; vm_compute; reflexivity.
Qed.

(** X26. The outcomes of a single ingestion on an active session. It
    returns the row and its new key, leaving the session active with the
    row stored, only if the vehicle exists and the driver, when one is
    given, exists too. It raises the service's error, leaving the store
    as it was, for an unknown vehicle and for an unknown driver whose id
    is not 0. It raises the database's integrity error, leaving the
    session inactive, exactly for a known vehicle with driver id 0 and no
    driver 0. *)
Theorem single_ingestion_outcomes db p u :
  match SessionTelematics.ingest_position (Active db) p u with
  | (Active db', Return (id, row)) =>
      (∃ veh, vehicles db !! GPSPositionCreate.vehicle_id p = Some veh
              ∧ db' = after_ingest db p u veh)
      ∧ (∀ d, GPSPositionCreate.driver_id p = Some d → is_Some (drivers db !! d))
      ∧ id = next_id (gps_positions db)
      ∧ row = gps_row p
  | (Active db', Throw (ServiceError (TelematicsServiceError msg))) =>
      db' = db
      ∧ (vehicles db !! GPSPositionCreate.vehicle_id p = None
         ∧ msg = VehicleNotFound (GPSPositionCreate.vehicle_id p)
         ∨ is_Some (vehicles db !! GPSPositionCreate.vehicle_id p)
           ∧ ∃ d, GPSPositionCreate.driver_id p = Some d ∧ d ≠ 0
                  ∧ drivers db !! d = None ∧ msg = DriverNotFound d)
  | (Inactive, Throw (DatabaseError e)) =>
      e = IntegrityError "gps_positions" "driver_id"
      ∧ is_Some (vehicles db !! GPSPositionCreate.vehicle_id p)
      ∧ GPSPositionCreate.driver_id p = Some 0
      ∧ drivers db !! 0 = None
  | _ => False
  end.
Proof.
  destruct (flush_refused db p) eqn:Href.
  - apply flush_refused_spec in Href as ([veh Hv] & Hd & Hdrv).
    assert (check_driver db p = Ok ()) as Hok by (unfold check_driver; by rewrite Hd).
    rewrite session_ingest_position, (ingest_position_ok db p u veh Hv Hok).
    destruct (insert_gps_position_checked db p veh Hv Hok) as [-> _].
    rewrite Hd, Hdrv. done.
  - rewrite session_ingest_position.
    destruct (ingest_position db p u) as [[db' [id row]]|e] eqn:Hing.
    + apply ingest_position_inv in Hing as (veh & Hv & Hok & -> & [= -> ->]).
      destruct (insert_gps_position_checked db p veh Hv Hok) as [Heq Hzero].
      destruct (Schema.insert_gps_position db (gps_row p)) as [e|] eqn:Hins.
      { destruct Hzero as [Hd Hdrv]; [done|].
        assert (flush_refused db p = true) as Ht; [|congruence].
        apply flush_refused_spec. split; [by eexists|done]. }
      split; [by exists veh|]. split; [|done].
      intros d Hd. rewrite Hd in Heq. by destruct (drivers db !! d); [eexists|].
    + destruct (vehicles db !! GPSPositionCreate.vehicle_id p) as [veh|] eqn:Hv.
      * destruct (check_driver_cases db p)
          as [[Hok _]|(d & Hd & Hne & Hdrv & Hchk)].
        { by rewrite (ingest_position_ok db p u veh Hv Hok) in Hing. }
        rewrite (ingest_position_no_driver db p u veh d Hv Hd Hne Hdrv) in Hing.
        injection Hing as <-. split; [done|]. right. split; [by eexists|].
        exists d. done.
      * rewrite (ingest_position_no_vehicle db p u Hv) in Hing.
        injection Hing as <-. split; [done|]. by left.
Qed.
End session_ingest_theorems.

Section session_batch_theorems.
Import TelematicsService.
Implicit Types (db : DB) (p q : GPSPositionCreate.t) (s : session).

(** X25. The batch on the session. The statistics always count every
    position once. When the database refuses no position of the batch,
    the session stays active, the positions that pass the checks are
    stored whatever happens to the others, each rejection leaves one error
    string, and a batch of three with an unknown vehicle in the middle
    gives two successes and one failure. When it refuses one, the session
    ends inactive: only the positions accepted before it are counted as
    processed, the refused one and every later one are counted as failed
    with an "Unexpected error" string, and one "Failed to update vehicle"
    string is added for each vehicle the batch names. *)
Theorem batch_on_the_session :
  (∀ s ps,
     let stats := (SessionTelematics.ingest_batch s ps).2 in
     total_received stats = length ps
     ∧ (successfully_processed stats + failed stats)%nat = length ps)
  ∧ (∀ db ps,
       Forall (λ q, flush_refused db q = false) ps →
       ∃ db' stats,
         SessionTelematics.ingest_batch (Active db) ps = (Active db', stats)
         ∧ let ok := filter (λ p, accepted db p = true) ps in
           successfully_processed stats = length ok
           ∧ errors stats = omap (batch_error db) ps
           ∧ length (errors stats) = failed stats
           ∧ gps_positions db' = insert_positions (gps_positions db) ok
           ∧ gps_positions db ⊆ gps_positions db'
           ∧ ∀ p, p ∈ ps → accepted db p = true →
               ∃ id, gps_positions db !! id = None
                     ∧ gps_positions db' !! id = Some (gps_row p))
  ∧ (∀ db p1 p2 p3,
       accepted db p1 = true → flush_refused db p1 = false →
       vehicles db !! GPSPositionCreate.vehicle_id p2 = None →
       accepted db p3 = true → flush_refused db p3 = false →
       ∃ db',
         SessionTelematics.ingest_batch (Active db) [p1; p2; p3]
         = (Active db',
            mkStats 3 2 1 [Str (VehicleNotFound (GPSPositionCreate.vehicle_id p2))])
         ∧ gps_positions db'
           = insert_row (gps_row p3) (insert_row (gps_row p1) (gps_positions db)))
  ∧ (∀ db ps1 p ps2,
       Forall (λ q, flush_refused db q = false) ps1 →
       flush_refused db p = true →
       let ps := ps1 ++ p :: ps2 in
       let ok := filter (λ q, accepted db q = true) ps1 in
       SessionTelematics.ingest_batch (Active db) ps
       = (Inactive,
          mkStats (length ps) (length ok) (length ps - length ok)
            (omap (batch_error db) ps1
             ++ [UnexpectedError
                   (DatabaseErrorText (IntegrityError "gps_positions" "driver_id"))]
             ++ replicate (length ps2)
                  (UnexpectedError (DatabaseErrorText PendingRollbackError))
             ++ update_failures (foldl track_latest [] ps)))).
Proof.
  split; [|split; [|split]].
  - intros s ps. cbv zeta. unfold SessionTelematics.ingest_batch.
    cbn [snd total_received successfully_processed failed].
    destruct (session_batch_loop_counts ps
                (SessionTelematics.mkBatch s (mkStats (length ps) 0 0 []) []))
      as [Ht Hc].
    cbn [SessionTelematics.batch_stats total_received successfully_processed failed]
      in Ht, Hc.
    split; [exact Ht|]. rewrite Hc. lia.
  - intros db ps Hps. eexists _, _.
    split; [by apply session_ingest_batch_accepted|]. cbv zeta.
    pose proof (ingest_batch_stats db ps) as (Ht & Hs & Hf & He). cbv zeta in *.
    rewrite ingest_batch_gps.
    repeat split; try done.
    + apply ingest_batch_errors.
    + apply insert_positions_subseteq.
    + intros p Hp Hacc. apply insert_positions_elem.
      apply list_elem_of_filter. by split.
  - intros db p1 p2 p3 H1 R1 H2 H3 R3.
    assert (flush_refused db p2 = false) as R2.
    { destruct (flush_refused db p2) eqn:R; [|done].
      apply flush_refused_spec in R as ([veh Hv] & _). congruence. }
    destruct (batch_of_three db p1 p2 p3 H1 H2 H3) as [Hstats Hgps].
    exists (ingest_batch db [p1; p2; p3]).1.
    rewrite session_ingest_batch_accepted by (by repeat constructor).
    by rewrite Hstats.
  - apply session_ingest_batch_refused.
Qed.
End session_batch_theorems.

Section session_endpoint_theorems.
Import TelematicsService TelematicsStatus.
Implicit Types (db : DB) (p q : GPSPositionCreate.t) (u : User.t).

Lemma session_ingest_returns db p (update_vehicle : bool) s r :
  SessionTelematics.ingest_position (Active db) p update_vehicle = (s, Return r) →
  ∃ db', s = Active db' ∧ ingest_position db p update_vehicle = Ok (db', r).
Proof.
  rewrite session_ingest_position.
  destruct (ingest_position db p update_vehicle) as [[db' r']|e]; [|done].
  destruct (Schema.insert_gps_position db (gps_row p)); [done|].
  intros [= <- <-]. by exists db'.
Qed.

Lemma first_refused db ps :
  Exists (λ q, flush_refused db q = true) ps →
  ∃ ps1 q ps2, ps = ps1 ++ q :: ps2
               ∧ Forall (λ q, flush_refused db q = false) ps1
               ∧ flush_refused db q = true.
Proof.
  induction ps as [|p0 ps IH]; intros Hex; [by apply Exists_nil in Hex|].
  destruct (flush_refused db p0) eqn:Hp0.
  - by exists [], p0, ps.
  - apply Exists_cons in Hex as [Hex|Hex]; [congruence|].
    destruct (IH Hex) as (ps1 & q & ps2 & -> & H1 & Hq).
    exists (p0 :: ps1), q, ps2. split; [done|]. split; [|done]. by constructor.
Qed.

(** X12. A position stamped less than five minutes before now leaves its
    vehicle reported online whenever the single endpoint or the ping
    accepts it, and after a batch that contains it whenever the vehicle
    exists and the database refuses no position of the batch, even if
    the position itself is rejected by the service. A batch with a
    position the database refuses leaves the store as it was. *)
Theorem recent_position_brings_vehicle_online db now p :
  now - GPSPositionCreate.timestamp p < timedelta_minutes 5 →
  (∀ u db' resp,
     TelematicsAPI.ingest_position db u p = Returns (db', resp) →
     reported_online db' now (GPSPositionCreate.vehicle_id p))
  ∧ (∀ db' id ts,
       TelematicsAPI.device_ping db now p = (db', PingOk id ts) →
       reported_online db' now (GPSPositionCreate.vehicle_id p))
  ∧ (∀ u ps db' stats,
       TelematicsAPI.ingest_positions_batch db u ps = Returns (db', stats) →
       p ∈ ps →
       is_Some (vehicles db !! GPSPositionCreate.vehicle_id p) →
       Forall (λ q, flush_refused db q = false) ps →
       reported_online db' now (GPSPositionCreate.vehicle_id p))
  ∧ (∀ u ps db' stats,
       TelematicsAPI.ingest_positions_batch db u ps = Returns (db', stats) →
       Exists (λ q, flush_refused db q = true) ps →
       db' = db).
Proof.
  intros Hnow.
  assert (∀ db' r, ingest_position db p true = Ok (db', r) →
            reported_online db' now (GPSPositionCreate.vehicle_id p)) as Hone.
  { intros db' r H. apply ingest_position_inv in H as (veh & Hv & Hok & -> & _).
    destruct (run_call_seen_ge db (IngestOne p) p veh) as (veh' & t & Hk & Ht & Hle);
      [by apply list_elem_of_singleton|done|done|].
    unfold run_call in Hk. rewrite (ingest_position_ok db p true veh Hv Hok) in Hk.
    by eapply seen_ge_reported_online. }
  split; [|split; [|split]].
  - intros u db' resp. unfold TelematicsAPI.ingest_position.
    destruct (Deps.require_write_permission u); [|done].
    destruct (SessionTelematics.ingest_position (Active db) p true)
      as [s [[id row]|[[msg|msg]|e]]] eqn:H; [|done..].
    apply session_ingest_returns in H as (db1 & -> & H).
    intros [= <- _]. by eapply Hone.
  - intros db' id ts. unfold TelematicsAPI.device_ping.
    destruct (SessionTelematics.ingest_position (Active db) p true)
      as [s [[id1 row]|[[msg|msg]|e]]] eqn:H; [|done..].
    apply session_ingest_returns in H as (db1 & -> & H).
    intros [= <- _ _]. by eapply Hone.
  - intros u ps db' stats. unfold TelematicsAPI.ingest_positions_batch.
    destruct (Deps.require_write_permission u); [|done].
    intros Hb Hin [veh Hv] Hps.
    rewrite (session_ingest_batch_accepted db ps Hps) in Hb.
    injection Hb as <- _.
    destruct (run_call_seen_ge db (IngestBatch ps) p veh) as (veh' & t & Hk & Ht & Hle);
      [done..|].
    unfold run_call in Hk. by eapply seen_ge_reported_online.
  - intros u ps db' stats. unfold TelematicsAPI.ingest_positions_batch.
    destruct (Deps.require_write_permission u); [|done].
    intros Hb Hex.
    apply first_refused in Hex as (ps1 & q' & ps2 & -> & H1 & Hq').
    rewrite (session_ingest_batch_refused db ps1 q' ps2 H1 Hq') in Hb.
    by injection Hb as <- _.
Qed.

(** X15. The ping endpoint asks for no user: a VIEWER is refused (403)
    by the single, the batch and the fusion endpoint, while for a writer
    the single endpoint and the ping have the same outcome. Either both
    store the position and give its id; or the service rejects it, the
    endpoint answering 400 with the message the ping puts in its body; or
    the database refuses it, the exception leaving the endpoint unhandled
    and the ping answering "Internal error". In the last two cases the
    store stays as it was. *)
Theorem ping_ingests_without_a_user db now p :
  (∀ u, User.role u = VIEWER →
     TelematicsAPI.ingest_position db u p
     = Fails (HTTPException 403 (InsufficientPermissions "write" VIEWER))
     ∧ (∀ ps, TelematicsAPI.ingest_positions_batch db u ps
              = Fails (HTTPException 403 (InsufficientPermissions "write" VIEWER)))
     ∧ (∀ d s e, TachographAPI.fuse_gps_with_activities db u d s e
                 = Fails (HTTPException 403 (InsufficientPermissions "write" VIEWER))))
  ∧ (∀ u, User.role u ≠ VIEWER →
       match TelematicsAPI.ingest_position db u p with
       | Returns (db', resp) =>
           flush_refused db p = false
           ∧ TelematicsAPI.device_ping db now p
             = (db', PingOk (GPSPositionResponse.id resp) now)
       | Fails (HTTPException code (Detail msg)) =>
           code = 400
           ∧ flush_refused db p = false
           ∧ TelematicsAPI.device_ping db now p = (db, PingFailed (PingMessage msg) now)
       | Fails (Unhandled e) =>
           e = DatabaseError (IntegrityError "gps_positions" "driver_id")
           ∧ flush_refused db p = true
           ∧ TelematicsAPI.device_ping db now p = (db, PingFailed InternalError now)
       | Fails _ => False
       end).
Proof.
  split.
  - intros u Hrole.
    unfold TelematicsAPI.ingest_position, TelematicsAPI.ingest_positions_batch,
      TachographAPI.fuse_gps_with_activities.
    by rewrite require_write_viewer.
  - intros u Hrole. unfold TelematicsAPI.ingest_position, TelematicsAPI.device_ping.
    rewrite require_write_not_viewer by done.
    destruct (flush_refused db p) eqn:Href.
    + by rewrite (session_ingest_refused db p true Href).
    + rewrite (session_ingest_accepted db p true Href).
      destruct (ingest_position db p true) as [[db' [id row]]|e] eqn:H; [done|].
      apply ingest_position_raises in H as (msg & ->). done.
Qed.
End session_endpoint_theorems.

Section samples_on_the_session.
Import TelematicsService TelematicsStatus.

(** X12 on the sample store: in a batch, the position of an unknown
    driver is rejected and still leaves vehicle 1 reported online. *)
Lemma recent_position_brings_vehicle_online_witness :
  let batch := [sample_position 1 (Some 7) 300] in
  ∃ db' stats,
    TelematicsAPI.ingest_positions_batch sample_db (sample_user ADMIN) batch
    = Returns (db', stats)
    ∧ failed stats = 1%nat
    ∧ reported_online db' sample_now 1.
Proof.
  cbv zeta. eexists _, _. split; [vm_compute; reflexivity|].
  split; [reflexivity|].
  destruct (recent_position_brings_vehicle_online sample_db sample_now
              (sample_position 1 (Some 7) 300)) as (_ & _ & Hbatch & _);
    [vm_compute; reflexivity|].
  eapply (Hbatch (sample_user ADMIN) [sample_position 1 (Some 7) 300]).
  - vm_compute. reflexivity.
  - apply list_elem_of_singleton. reflexivity.
  - by eexists.
  - repeat constructor.
Defined.
End samples_on_the_session.

(** * The retention task *)

Section cleanup_properties.
Implicit Types (db : DB).

Lemma cleanup_lookup now days db k g :
  gps_positions (CeleryTasks.cleanup_old_positions now days db).1 !! k = Some g ↔
  gps_positions db !! k = Some g
  ∧ now - timedelta_days days ≤ GPSPosition.timestamp g.
Proof.
  unfold CeleryTasks.cleanup_old_positions. simpl.
  rewrite map_lookup_filter_Some. simpl. split; intros [? ?]; (split; [done|lia]).
Qed.

Lemma cleanup_count now days db :
  (CeleryTasks.cleanup_old_positions now days db).2
  + Z.of_nat (size (gps_positions (CeleryTasks.cleanup_old_positions now days db).1))
  = Z.of_nat (size (gps_positions db)).
Proof.
  unfold CeleryTasks.cleanup_old_positions. simpl.
  rewrite <- Nat2Z.inj_add, <- map_size_disj_union
    by apply map_disjoint_filter_complement.
  by rewrite map_filter_union_complement.
Qed.

(** X17. The retention task keeps exactly the positions stamped at or
    after the cutoff and returns the number it deleted; it touches no
    vehicle, driver or activity, so a vehicle keeps its last state and an
    activity keeps a reference to a deleted position; run again at the
    same instant it deletes nothing. *)
Theorem cleanup_deletes_exactly_the_old_positions now days db :
  let out := CeleryTasks.cleanup_old_positions now days db in
  (∀ k g, gps_positions out.1 !! k = Some g ↔
     gps_positions db !! k = Some g
     ∧ now - timedelta_days days ≤ GPSPosition.timestamp g)
  ∧ out.2 + Z.of_nat (size (gps_positions out.1)) = Z.of_nat (size (gps_positions db))
  ∧ 0 ≤ out.2
  ∧ (out.2 = 0 ↔ out.1 = db)
  ∧ vehicles out.1 = vehicles db
  ∧ drivers out.1 = drivers db
  ∧ driver_activities out.1 = driver_activities db
  ∧ CeleryTasks.cleanup_old_positions now days out.1 = (out.1, 0)
  ∧ (∀ k row ref g,
       driver_activities db !! k = Some row →
       ref ∈ default [] (DriverActivity.raw_data row) →
       gps_positions db !! gps_id ref = Some g →
       GPSPosition.timestamp g < now - timedelta_days days →
       driver_activities out.1 !! k = Some row
       ∧ gps_positions out.1 !! gps_id ref = None).
Proof.
  cbv zeta. pose proof (cleanup_count now days db) as Hcount.
  pose proof (cleanup_lookup now days db) as Hlookup.
  assert (gps_positions (CeleryTasks.cleanup_old_positions now days db).1
          ⊆ gps_positions db) as Hsub.
  { apply map_filter_subseteq. }
  assert (0 ≤ (CeleryTasks.cleanup_old_positions now days db).2) as Hpos.
  { unfold CeleryTasks.cleanup_old_positions. simpl. lia. }
  split; [done|]. split; [done|]. split; [done|].
  split; [|split; [done|split; [done|split; [done|split]]]].
  - split.
    + intros Hzero.
      assert (gps_positions (CeleryTasks.cleanup_old_positions now days db).1
              = gps_positions db) as Heq.
      { apply map_subseteq_size_eq; [done|lia]. }
      destruct db as [v d g a]. unfold CeleryTasks.cleanup_old_positions in *.
      simpl in *. by rewrite Heq.
    + intros Heq. rewrite Heq in Hcount. lia.
  - set (out := CeleryTasks.cleanup_old_positions now days db).
    assert (gps_positions (CeleryTasks.cleanup_old_positions now days out.1).1
            = gps_positions out.1) as Heq.
    { apply map_eq. intros k. apply option_eq. intros g.
      rewrite cleanup_lookup. unfold out. rewrite Hlookup. tauto. }
    pose proof (cleanup_count now days out.1) as Hcount'. rewrite Heq in Hcount'.
    assert ((CeleryTasks.cleanup_old_positions now days out.1).2 = 0) as Hzero by lia.
    assert ((CeleryTasks.cleanup_old_positions now days out.1).1 = out.1) as Hsame.
    { unfold CeleryTasks.cleanup_old_positions at 1.
      unfold CeleryTasks.cleanup_old_positions at 1 in Heq. simpl in *.
      rewrite Heq. by destruct (out.1). }
    rewrite (surjective_pairing (CeleryTasks.cleanup_old_positions now days out.1)).
    by rewrite Hsame, Hzero.
  - intros k row ref g Hk Href Hg Hold. split; [done|].
    destruct (gps_positions (CeleryTasks.cleanup_old_positions now days db).1
                !! gps_id ref) as [g'|] eqn:Hg'; [|done].
    apply Hlookup in Hg' as [Hg' ?]. rewrite Hg in Hg'. injection Hg' as <-. lia.
Qed.
End cleanup_properties.

(** * The schedule of the parser *)

Section parser_properties.
Import ActivityService TachographParser.
Implicit Types (db : DB) (r : ActivityRecord.t).

#[local] Ltac run_schedule :=
  unfold _extract_activities, schedule;
  cbn -[Z.add Z.mul Z.modulo timedelta_minutes Qplus Qdiv Qmult inject_Z Qle_bool].

(** X18. Whatever the file and the clock, the parser yields nine records
    that start at the base time and follow each other without gap or
    overlap over 725 minutes, the odometer of each starting where the
    previous one ended and advancing by one kilometre a minute while
    driving only; the totals of the result are 540 minutes of driving,
    135 of rest and 50 of work. *)
Theorem parsed_day_is_contiguous seed base_time card_number driver_name registration :
  let acts := _extract_activities seed base_time in
  let pr := _create_result [] [] true card_number driver_name registration acts in
  length acts = 9%nat
  ∧ ActivityRecord.start_time <$> head acts = Some base_time
  ∧ ActivityRecord.end_time <$> last acts = Some (base_time + timedelta_minutes 725)
  ∧ Forall (λ r, 0 < ActivityRecord.duration_minutes r
                 ∧ ActivityRecord.end_time r
                   = ActivityRecord.start_time r
                     + timedelta_minutes (ActivityRecord.duration_minutes r)
                 ∧ match ActivityRecord.activity_type r with
                   | DRIVING =>
                       ActivityRecord.distance_km r
                       = Some (inject_Z (ActivityRecord.duration_minutes r) / 60 * 60)%Q
                       ∧ ActivityRecord.odometer_end r
                         = (λ o, (o + inject_Z (ActivityRecord.duration_minutes r)
                                        / 60 * 60)%Q)
                           <$> ActivityRecord.odometer_start r
                   | _ =>
                       ActivityRecord.distance_km r = None
                       ∧ ActivityRecord.odometer_end r = ActivityRecord.odometer_start r
                   end) acts
  ∧ (∀ i r r', acts !! i = Some r → acts !! S i = Some r' →
       ActivityRecord.start_time r' = ActivityRecord.end_time r
       ∧ ActivityRecord.odometer_start r' = ActivityRecord.odometer_end r)
  ∧ StronglySorted (λ r1 r2, ¬ records_overlap r1 r2) acts
  ∧ TachographParseResult.total_driving_minutes pr = 540
  ∧ TachographParseResult.total_rest_minutes pr = 135
  ∧ TachographParseResult.total_work_minutes pr = 50.
Proof.
  cbv zeta. split; [done|]. split; [done|].
  split.
  { run_schedule. f_equal. unfold timedelta_minutes. lia. }
  split.
  { run_schedule.
    repeat (apply Forall_cons; split;
            [cbn [ActivityRecord.duration_minutes ActivityRecord.start_time
                  ActivityRecord.end_time ActivityRecord.activity_type];
             unfold timedelta_minutes; repeat split; first [lia|reflexivity]|]).
    apply Forall_nil_2. }
  split.
  { intros i r r'. run_schedule.
    do 9 (destruct i as [|i]; [by intros [= <-] [= <-]|]). done. }
  split.
  { run_schedule.
    repeat (apply StronglySorted_cons; split;
            [repeat (apply Forall_cons; split;
                     [unfold records_overlap, timedelta_minutes;
                      cbn [ActivityRecord.start_time ActivityRecord.end_time]; lia|]);
             apply Forall_nil_2|]).
    constructor. }
  done.
Qed.
End parser_properties.

(** * Uploads *)

Section upload_facts.
Import ActivityService.
Implicit Types (db : DB) (tbl : gmap Z DriverActivity.t) (row : DriverActivity.t).
Implicit Types (r : ActivityRecord.t) (records : list ActivityRecord.t).

Lemma overlaps_new_activity d vid sf cn r r' :
  overlaps d (ActivityRecord.start_time r') (ActivityRecord.end_time r')
    (new_activity d vid sf cn r)
  ↔ records_overlap r r'.
Proof. unfold overlaps, records_overlap. simpl. tauto. Qed.

(** Records that overlap neither a visible row nor each other are all
    kept. *)
Lemma kept_records_all af d vid sf cn vis records :
  Forall (λ r, ¬ overlaps_any d vis r) records →
  StronglySorted (λ r1 r2, ¬ records_overlap r1 r2) records →
  kept_records af d vid sf cn vis records = records.
Proof.
  revert vis. induction records as [|r records IH]; intros vis Hvis Hsorted; [done|].
  apply Forall_cons in Hvis as [Hr Hvis].
  apply StronglySorted_cons in Hsorted as [Hrr Hsorted]. simpl.
  rewrite decide_False by done. f_equal. apply IH; [|done].
  destruct af; [|done].
  rewrite Forall_forall in Hvis, Hrr. apply Forall_forall. intros r' Hin.
  rewrite overlaps_any_app. intros [Hov|Hov]; [by apply (Hvis r')|].
  unfold overlaps_any in Hov. apply Exists_cons in Hov as [Hov|Hov].
  - apply overlaps_new_activity in Hov. by apply (Hrr r').
  - by apply Exists_nil in Hov.
Qed.

(** Records that each overlap a visible row are all skipped. *)
Lemma kept_records_none af d vid sf cn vis records :
  Forall (overlaps_any d vis) records →
  kept_records af d vid sf cn vis records = [].
Proof.
  induction 1 as [|r records Hr _ IH]; simpl; [done|].
  by rewrite decide_True.
Qed.



End upload_facts.

Section upload_properties.
Import ActivityService TachographParser.
Implicit Types (db : DB) (tbl : gmap Z DriverActivity.t) (row : DriverActivity.t).
Implicit Types (r : ActivityRecord.t) (pr : TachographParseResult.t).

(** What the bulk path does with records that overlap neither a stored
    row of the driver nor each other. *)
Lemma store_clean af db d pr sf vid :
  Forall (λ r, ¬ overlaps_any d (rows_of (driver_activities db)) r)
    (TachographParseResult.activities pr) →
  StronglySorted (λ r1 r2, ¬ records_overlap r1 r2)
    (TachographParseResult.activities pr) →
  store_activities_from_tachograph af db d pr sf vid
  = (with_activities db
       (flush_pending (driver_activities db)
          (new_activity d vid sf (TachographParseResult.card_number pr)
             <$> TachographParseResult.activities pr)),
     (length (TachographParseResult.activities pr), 0%nat)).
Proof.
  intros Hvis Hsorted. rewrite store_result. cbv zeta.
  rewrite kept_records_all by done. by rewrite Nat.sub_diag.
Qed.


End upload_properties.

Section parsed_day.
Import ActivityService TachographParser.
Implicit Types (db : DB) (r : ActivityRecord.t).

Lemma extract_activities_window seed base_time :
  Forall (λ r, base_time ≤ ActivityRecord.start_time r
               ∧ ActivityRecord.start_time r < ActivityRecord.end_time r
               ∧ ActivityRecord.end_time r ≤ base_time + timedelta_minutes 725)
    (_extract_activities seed base_time).
Proof.
  unfold _extract_activities, schedule.
  cbn -[Z.add Z.mul Z.modulo timedelta_minutes Qplus Qdiv Qmult inject_Z Qle_bool].
  repeat (apply Forall_cons; split;
          [cbn [ActivityRecord.start_time ActivityRecord.end_time];
           unfold timedelta_minutes; lia|]).
  apply Forall_nil_2.
Qed.

Lemma extract_activities_disjoint seed base_time :
  StronglySorted (λ r1 r2, ¬ records_overlap r1 r2)
    (_extract_activities seed base_time).
Proof.
  unfold _extract_activities, schedule.
  cbn -[Z.add Z.mul Z.modulo timedelta_minutes Qplus Qdiv Qmult inject_Z Qle_bool].
  repeat (apply StronglySorted_cons; split;
          [repeat (apply Forall_cons; split;
                   [unfold records_overlap, timedelta_minutes;
                    cbn [ActivityRecord.start_time ActivityRecord.end_time]; lia|]);
           apply Forall_nil_2|]).
  constructor.
Qed.



End parsed_day.

Section samples_around_the_services.
Import TelematicsService ActivityService TachographParser.

(** X13 on the sample store: after a position and a batch that passed
    the checks, vehicle 1 is within the bounds. *)
Lemma validated_positions_bound_vehicle_state_witness :
  ∃ veh,
    vehicles (run_calls sample_db
                [IngestOne (sample_position 1 (Some 1) 200);
                 IngestBatch [sample_position 1 None 300]]) !! 1 = Some veh
    ∧ Vehicle.last_seen veh = Some 300
    ∧ vehicle_within sample_now veh.
Proof.
  eexists. split; [vm_compute; reflexivity|]. split; [reflexivity|].
  apply (validated_positions_bound_vehicle_state sample_db
           [IngestOne (sample_position 1 (Some 1) 200);
            IngestBatch [sample_position 1 None 300]] sample_now) with (i := 1).
  - repeat constructor; exists sample_now; (split; [lia|vm_compute; reflexivity]).
  - intros k veh Hk.
    change (vehicles sample_db) with ({[1 := sample_vehicle]} : gmap Z Vehicle.t) in Hk.
    apply lookup_singleton_Some in Hk as [_ <-]. repeat split.
  - vm_compute. reflexivity.
Defined.


End samples_around_the_services.

(** * Uploaded files *)

Section card_number.
Import ParseFile.
Implicit Types (data chunk : list Byte.byte).

Lemma head_filter_seq (P : nat → Prop) `{!∀ i, Decision (P i)} (n : nat) :
  match head (filter P (seq 0 n)) with
  | Some i => (i < n)%nat ∧ P i ∧ ∀ j, (j < i)%nat → ¬ P j
  | None => ∀ i, (i < n)%nat → ¬ P i
  end.
Proof.
  induction n as [|n IH].
  { simpl. intros i Hi. lia. }
  rewrite seq_S, filter_app. simpl.
  destruct (head (filter P (seq 0 n))) as [i|] eqn:Hhead.
  - destruct (filter P (seq 0 n)) as [|i0 l]; [done|]. simpl in *.
    injection Hhead as ->. destruct IH as (? & ? & ?). repeat split; [lia|done..].
  - destruct (filter P (seq 0 n)) as [|i0 l]; [|done]. simpl.
    rewrite filter_cons. destruct (decide (P n)) as [Hn|Hn]; simpl.
    + repeat split; [lia|done|]. intros j Hj. by apply IH.
    + intros i Hi. destruct (decide (i = n)) as [->|]; [done|]. apply IH. lia.
Qed.

Lemma length_string_of_list_byte (l : list Byte.byte) :
  String.length (String.string_of_list_byte l) = length l.
Proof.
  unfold String.string_of_list_byte. induction l as [|b l IH]; [done|].
  simpl. by rewrite IH.
Qed.

Lemma isalnum_byte_ascii b :
  Bytes.isalnum_byte b = true → (Stdlib.Strings.Byte.to_N b < 128)%N.
Proof.
  unfold Bytes.isalnum_byte. rewrite !orb_true_iff, !andb_true_iff, !N.leb_le. lia.
Qed.

Lemma decode_ascii_alnum chunk :
  Bytes.isalnum chunk = true →
  Bytes.decode_ascii chunk = String.string_of_list_byte chunk.
Proof.
  unfold Bytes.isalnum, Bytes.decode_ascii. intros [_ Hall]%andb_true_iff.
  f_equal. induction chunk as [|b chunk IH]; [done|].
  simpl in Hall. apply andb_true_iff in Hall as [Hb Hall].
  rewrite filter_cons_True by by apply isalnum_byte_ascii. by rewrite IH.
Qed.

Lemma length_window data i :
  (i + 16 ≤ length data)%nat → length (Bytes.window data i) = 16%nat.
Proof. intros Hi. unfold Bytes.window. rewrite length_take, length_drop. lia. Qed.

(** X21. The card number read from a file is the text of the first window
    of sixteen ASCII letters and digits, among the windows that start
    before the last sixteen bytes, or else the fallback: the last window
    is never examined, so a file of exactly sixteen bytes, or one whose
    only such window is its end, gets the fallback. *)
Theorem card_number_scan_skips_the_last_window card_fallback data :
  (∃ cn,
     _extract_card_number card_fallback data = Some cn
     ∧ ((cn = card_fallback
         ∧ ∀ i, (i + 16 < length data)%nat →
                Bytes.isalnum (Bytes.window data i) = false)
        ∨ ∃ i, (i + 16 < length data)%nat
               ∧ Bytes.isalnum (Bytes.window data i) = true
               ∧ (∀ j, (j < i)%nat → Bytes.isalnum (Bytes.window data j) = false)
               ∧ cn = String.string_of_list_byte (Bytes.window data i)
               ∧ String.length cn = 16%nat))
  ∧ (∀ chunk, length chunk = 16%nat →
       _extract_card_number card_fallback chunk = Some card_fallback)
  ∧ (∀ pre chunk, length chunk = 16%nat →
       (∀ i, (i < length pre)%nat →
             Bytes.isalnum (Bytes.window (pre ++ chunk) i) = false) →
       _extract_card_number card_fallback (pre ++ chunk) = Some card_fallback).
Proof.
  assert (∀ pre chunk, length chunk = 16%nat →
            (∀ i, (i < length pre)%nat →
                  Bytes.isalnum (Bytes.window (pre ++ chunk) i) = false) →
            _extract_card_number card_fallback (pre ++ chunk) = Some card_fallback)
    as Hlast.
  { intros pre chunk Hlen Hpre. unfold _extract_card_number.
    pose proof (head_filter_seq
                  (λ i, Bytes.isalnum (Bytes.window (pre ++ chunk) i) = true)
                  (length (pre ++ chunk) - 16)) as Hhead.
    destruct (head _) as [i|]; [|done].
    destruct Hhead as (Hi & Hal & _). rewrite length_app in Hi.
    rewrite Hpre in Hal by lia. done. }
  split; [|split; [|exact Hlast]].
  - unfold _extract_card_number.
    pose proof (head_filter_seq
                  (λ i, Bytes.isalnum (Bytes.window data i) = true)
                  (length data - 16)) as Hhead.
    destruct (head _) as [i|].
    + destruct Hhead as (Hi & Hal & Hmin). eexists. split; [done|]. right.
      exists i. split; [lia|]. split; [done|]. split.
      { intros j Hj. by apply not_true_is_false, Hmin. }
      rewrite decode_ascii_alnum by done. split; [done|].
      rewrite length_string_of_list_byte. apply length_window. lia.
    + eexists. split; [done|]. left. split; [done|].
      intros i Hi. apply not_true_is_false, Hhead. lia.
  - intros chunk Hlen. apply (Hlast [] chunk Hlen). intros i Hi. simpl in Hi. lia.
Qed.
End card_number.

Section file_names.
Import Stdlib.Strings.Ascii.
Implicit Types (s : string).

#[local] Abbreviation chars := String.list_ascii_of_string.

Lemma has_dot_cons c s :
  Str.has_dot (String c s) = true ↔ c = "."%char ∨ Str.has_dot s = true.
Proof.
  unfold Str.has_dot. rewrite !bool_decide_eq_true. simpl.
  rewrite elem_of_cons. split; intros [?|?]; auto.
Qed.

Lemma last_cons_cons {A} (x y : A) l : last (x :: y :: l) = last (y :: l).
Proof. done. Qed.

Lemma split_dot_spec s :
  (Str.has_dot s = false → Str.split_dot s = [s])
  ∧ (Str.has_dot s = true →
     (2 ≤ length (Str.split_dot s))%nat
     ∧ ∃ pre, chars s
              = pre ++ "."%char :: chars (default EmptyString (last (Str.split_dot s)))).
Proof.
  induction s as [|c s [IHno IHdot]].
  { split; [done|]. intros H. by apply bool_decide_eq_true, elem_of_nil in H. }
  destruct (Str.has_dot s) eqn:Hs.
  - destruct (IHdot eq_refl) as (Hlen & pre & Hpre).
    split.
    { intros H. assert (Str.has_dot (String c s) = true) as H'
        by (apply has_dot_cons; by right). congruence. }
    intros _. cbn [Str.split_dot]. destruct (decide (c = "."%char)) as [->|Hc].
    + split; [simpl; lia|].
      destruct (Str.split_dot s) as [|seg rest]; [simpl in Hlen; lia|].
      rewrite last_cons_cons. exists ("."%char :: pre). simpl. by rewrite Hpre.
    + destruct (Str.split_dot s) as [|seg [|seg' rest]]; [simpl in Hlen; lia..|].
      split; [simpl; lia|]. rewrite last_cons_cons.
      rewrite last_cons_cons in Hpre. exists (c :: pre). simpl. by rewrite Hpre.
  - cbn [Str.split_dot]. rewrite (IHno eq_refl).
    destruct (decide (c = "."%char)) as [->|Hc].
    + split.
      { intros H. assert (Str.has_dot (String "." s) = true) as H'
          by (apply has_dot_cons; by left). congruence. }
      intros _. split; [simpl; lia|]. by exists [].
    + split; [done|]. intros H. apply has_dot_cons in H as [?|?]; congruence.
Qed.

Lemma chars_lower s : chars (Str.lower s) = Str.lower_char <$> chars s.
Proof. induction s as [|c s IH]; [done|]. simpl. by rewrite IH. Qed.

Lemma chars_inj s1 s2 : chars s1 = chars s2 → s1 = s2.
Proof.
  intros H. rewrite <- (String.string_of_list_ascii_of_string s1),
    <- (String.string_of_list_ascii_of_string s2). by rewrite H.
Qed.

(** The lowered extension, when there is one, ends the lowered name. *)
Lemma extension_endswith s :
  Str.has_dot s = true →
  Str.endswith (Str.lower (UploadAPI.extension_of s)) (Str.lower s) = true.
Proof.
  intros Hdot. unfold UploadAPI.extension_of, Str.endswith. rewrite Hdot.
  apply bool_decide_eq_true.
  destruct (split_dot_spec s) as [_ Hspec].
  destruct (Hspec Hdot) as (_ & pre & Hpre).
  rewrite !chars_lower, Hpre, fmap_app. by eexists.
Qed.

Lemma endswith_same_length e1 e2 s :
  String.length e1 = String.length e2 →
  Str.endswith e1 s = true → Str.endswith e2 s = true → e1 = e2.
Proof.
  unfold Str.endswith. rewrite !bool_decide_eq_true.
  intros Hlen [k1 H1] [k2 H2]. apply chars_inj.
  rewrite H1 in H2. apply app_inj_2 in H2 as [_ ?]; [done|].
  clear -Hlen. revert e2 Hlen. induction e1 as [|c e1 IH]; intros [|c2 e2] Hlen;
    simpl in *; try done. f_equal. apply IH. lia.
Qed.
End file_names.

Section parse_properties.
Import TachographParser ParseFile.
Implicit Types (data : list Byte.byte) (filename : string).

Lemma extract_activities_cons seed base_time :
  ∃ r rest, _extract_activities seed base_time = r :: rest.
Proof.
  unfold _extract_activities, schedule.
  cbn -[Z.add Z.mul Z.modulo timedelta_minutes Qplus Qdiv Qmult inject_Z Qle_bool].
  by eexists _, _.
Qed.

Lemma length_extract_activities seed base_time :
  length (_extract_activities seed base_time) = 9%nat.
Proof. done. Qed.

Lemma create_result_day seed base_time cn dn vr :
  _create_result [] [] true cn dn vr (_extract_activities seed base_time)
  = TachographParseResult.mk true cn dn vr (_extract_activities seed base_time)
      540 135 50 [] [].
Proof. done. Qed.

Lemma parse_auto_is_ddd seed base_time fb data :
  _parse_auto seed base_time fb data = _parse_ddd seed base_time fb data.
Proof.
  unfold _parse_auto, _parse_ddd.
  by destruct (extract_activities_cons seed base_time) as (r & rest & ->).
Qed.

(** What [parse_tachograph_bytes] gives on a file of at least 100
    bytes. *)
Lemma parse_large seed base_time fb data filename :
  (100 ≤ length data)%nat →
  parse_tachograph_bytes seed base_time fb data filename
  = TachographParseResult.mk true
      (if Str.endswith ".ddd" (Str.lower filename)
       then _extract_card_number fb data
       else if Str.endswith ".tgd" (Str.lower filename) then None
       else _extract_card_number fb data)
      None None (_extract_activities seed base_time) 540 135 50 [] [].
Proof.
  intros Hlen. unfold parse_tachograph_bytes, _parse_binary.
  destruct (Nat.ltb_spec (length data) 100) as [?|_]; [lia|].
  unfold _parse_auto, _parse_ddd, _parse_tgd.
  set (acts := _extract_activities seed base_time).
  destruct (extract_activities_cons seed base_time) as (r & rest & Hacts).
  fold acts in Hacts.
  destruct (Str.endswith ".ddd" (Str.lower filename));
    [|destruct (Str.endswith ".tgd" (Str.lower filename))];
    rewrite ?Hacts; cbn [default from_option id]; rewrite <- ?Hacts;
    apply create_result_day.
Qed.

(** The two outcomes of the parse. *)
Lemma parse_depends_on_size_and_name_aux seed base_time fb data filename :
  ((length data < 100)%nat →
     parse_tachograph_bytes seed base_time fb data filename
     = TachographParseResult.mk false None None None [] 0 0 0
         ["File too small to be a valid tachograph file"] [])
  ∧ ((100 ≤ length data)%nat →
     parse_tachograph_bytes seed base_time fb data filename
     = TachographParseResult.mk true
         (if Str.endswith ".ddd" (Str.lower filename)
          then _extract_card_number fb data
          else if Str.endswith ".tgd" (Str.lower filename) then None
          else _extract_card_number fb data)
         None None (_extract_activities seed base_time) 540 135 50 [] []).
Proof.
  split; [|apply parse_large].
  intros Hlen. unfold parse_tachograph_bytes, _parse_binary.
  by destruct (Nat.ltb_spec (length data) 100) as [_|?]; [|lia].
Qed.

(** X22. A file of fewer than 100 bytes fails to parse, with one error and
    no activity; any other parses, whatever its content, to the nine
    records of the schedule with no error and no warning. A name that
    ends in .ddd gets the card number read from the content, one that
    ends in .tgd gets none, and the extension the upload endpoint accepts
    decides which. *)
Theorem parse_depends_on_size_and_name seed base_time card_fallback data filename :
  let pr := parse_tachograph_bytes seed base_time card_fallback data filename in
  ((length data < 100)%nat →
     pr = TachographParseResult.mk false None None None [] 0 0 0
            ["File too small to be a valid tachograph file"] [])
  ∧ ((100 ≤ length data)%nat →
     TachographParseResult.success pr = true
     ∧ TachographParseResult.activities pr = _extract_activities seed base_time
     ∧ TachographParseResult.errors pr = []
     ∧ TachographParseResult.warnings pr = []
     ∧ TachographParseResult.driver_name pr = None
     ∧ TachographParseResult.vehicle_registration pr = None
     ∧ TachographParseResult.total_driving_minutes pr = 540
     ∧ (Str.lower (UploadAPI.extension_of filename) = ".ddd" →
        TachographParseResult.card_number pr = _extract_card_number card_fallback data)
     ∧ (Str.lower (UploadAPI.extension_of filename) = ".tgd" →
        TachographParseResult.card_number pr = None)
     ∧ (Str.endswith ".tgd" (Str.lower filename) = false →
        TachographParseResult.card_number pr = _extract_card_number card_fallback data)).
Proof.
  cbv zeta. split.
  - intros Hlen. unfold parse_tachograph_bytes, _parse_binary.
    by destruct (Nat.ltb_spec (length data) 100) as [_|?]; [|lia].
  - intros Hlen. rewrite parse_large by done.
    cbn [TachographParseResult.success TachographParseResult.activities
         TachographParseResult.errors TachographParseResult.warnings
         TachographParseResult.driver_name TachographParseResult.vehicle_registration
         TachographParseResult.total_driving_minutes TachographParseResult.card_number].
    assert (∀ e, Str.lower (UploadAPI.extension_of filename) = e →
                 e ≠ EmptyString →
                 Str.endswith e (Str.lower filename) = true) as Hext.
    { intros e <- Hne. apply extension_endswith.
      unfold UploadAPI.extension_of in Hne.
      by destruct (Str.has_dot filename). }
    repeat split.
    + intros He. by rewrite (Hext _ He).
    + intros He. rewrite (Hext _ He) by done.
      destruct (Str.endswith ".ddd" (Str.lower filename)) eqn:Hddd; [|done].
      by pose proof (endswith_same_length ".ddd" ".tgd" _ eq_refl Hddd (Hext _ He ltac:(done))).
    + intros ->. by destruct (Str.endswith ".ddd" (Str.lower filename)).
Qed.
End parse_properties.


(** ** The bulk storage on the session *)

Section session_store_facts.
Import ActivityService.
Implicit Types (db : DB) (row : DriverActivity.t) (r : ActivityRecord.t).

Variable autoflush : bool.
Variables (driver_id : Z) (vehicle_id : option Z)
          (source_file : string) (card_number : option string).

#[local] Abbreviation mk_row := (new_activity driver_id vehicle_id source_file card_number).
#[local] Abbreviation step := (store_step autoflush driver_id vehicle_id source_file card_number).
#[local] Abbreviation session_step :=
  (SessionActivity.store_step autoflush driver_id vehicle_id source_file card_number).

Lemma insert_driver_activity_same db db' row :
  vehicles db' = vehicles db → drivers db' = drivers db →
  Schema.insert_driver_activity db' row = Schema.insert_driver_activity db row.
Proof.
  intros Hv Hd. unfold Schema.insert_driver_activity, Schema.check_driver_activity.
  by rewrite Hv, Hd.
Qed.

Lemma insert_new_activity db r :
  Schema.insert_driver_activity db (mk_row r)
  = Schema.check_driver_activity db driver_id vehicle_id (Some source_file) card_number.
Proof. done. Qed.

Lemma step_tables st r :
  vehicles (store_db (step st r)) = vehicles (store_db st)
  ∧ drivers (store_db (step st r)) = drivers (store_db st)
  ∧ (created st ≤ created (step st r))%nat.
Proof.
  unfold store_step, before_query.
  destruct autoflush; simpl;
    destruct (_find_overlapping_activity _ _ _ _) as [existing|];
    try destruct (is_exact_duplicate _ _); simpl; repeat split; lia.
Qed.

Lemma loop_created rs st : (created st ≤ created (foldl step st rs))%nat.
Proof.
  revert st. induction rs as [|r rs IH]; intros st; simpl; [lia|].
  etrans; [|apply IH]. apply step_tables.
Qed.

Lemma session_loop_thrown rs e : foldl session_step (Throw e) rs = Throw e.
Proof. by induction rs. Qed.

(** The body of the loop on the session does what it does on the tables
    when the flush before its query is accepted or has nothing to send. *)
Lemma session_step_same st r :
  omap (Schema.insert_driver_activity (store_db st))
    (if autoflush then store_pending st else []) = [] →
  session_step (Return st) r = Return (step st r).
Proof.
  intros Hok. unfold SessionActivity.store_step, store_step,
    SessionActivity.before_query, before_query, SessionActivity.flush.
  destruct autoflush; [rewrite Hok|];
    destruct (_find_overlapping_activity _ _ _ _) as [existing|];
    try destruct (is_exact_duplicate _ _); done.
Qed.

Section for_a_store.
Variables (db : DB) (refusal : option db_error).
Hypothesis Hrefusal :
  Schema.check_driver_activity db driver_id vehicle_id (Some source_file) card_number
  = refusal.

#[local] Abbreviation call_state := (call_state driver_id vehicle_id source_file card_number db).

Lemma call_state_step st r : call_state st → call_state (step st r).
Proof.
  intros (Hv & Hd & Hp). unfold call_state, store_step, before_query.
  destruct autoflush; simpl;
    destruct (_find_overlapping_activity _ _ _ _) as [existing|];
    try destruct (is_exact_duplicate _ _); simpl; repeat split; try done;
    try apply Forall_nil_2;
    try (apply Forall_app; split; [done|]);
    repeat constructor; by eexists.
Qed.

Lemma omap_pending st :
  call_state st →
  omap (Schema.insert_driver_activity (store_db st)) (store_pending st)
  = match refusal with
    | Some e => replicate (length (store_pending st)) e
    | None => []
    end.
Proof.
  intros (Hv & Hd & Hp). induction Hp as [|row rows (r & ->) _ IH].
  { by destruct refusal. }
  cbn [omap list_omap length replicate].
  rewrite (insert_driver_activity_same db _ _ Hv Hd), insert_new_activity, Hrefusal.
  fold (omap (Schema.insert_driver_activity (store_db st)) rows).
  rewrite IH. by destruct refusal.
Qed.

Lemma session_loop_accepted rs st :
  refusal = None → call_state st →
  foldl session_step (Return st) rs = Return (foldl step st rs).
Proof.
  intros Hnone. revert st. induction rs as [|r rs IH]; intros st Hst; [done|].
  change (foldl session_step (session_step (Return st) r) rs
          = Return (foldl step (step st r) rs)).
  rewrite session_step_same.
  - apply IH. by apply call_state_step.
  - destruct autoflush; [|done]. by rewrite (omap_pending st Hst), Hnone.
Qed.

(** With a refusal in wait, the two loops go together as long as nothing
    is pending; the first flush of a pending row ends the loop on the
    session. *)
Lemma session_loop_refused rs st e :
  refusal = Some e → call_state st →
  (created st = 0%nat ↔ store_pending st = []) →
  let st' := foldl step st rs in
  (foldl session_step (Return st) rs = Return st'
   ∧ (created st' = 0%nat ↔ store_pending st' = [])
   ∧ call_state st')
  ∨ (foldl session_step (Return st) rs = Throw (DatabaseError e)
     ∧ (0 < created st')%nat).
Proof.
  intros Hsome. revert st. induction rs as [|r rs IH]; intros st Hst Hiff.
  { by left. }
  cbv zeta.
  change (foldl session_step (Return st) (r :: rs))
    with (foldl session_step (session_step (Return st) r) rs).
  change (foldl step st (r :: rs)) with (foldl step (step st r) rs).
  destruct (decide (autoflush = true ∧ store_pending st ≠ [])) as [[Haf Hne]|Hno].
  - right. split.
    + assert (session_step (Return st) r = Throw (DatabaseError e)) as ->;
        [|apply session_loop_thrown].
      unfold SessionActivity.store_step, SessionActivity.before_query,
        SessionActivity.flush.
      rewrite Haf, (omap_pending st Hst), Hsome.
      by destruct (store_pending st).
    + eapply Nat.lt_le_trans; [|apply loop_created].
      eapply Nat.lt_le_trans; [|apply step_tables].
      destruct (Nat.eq_dec (created st) 0%nat) as [Hz|]; [|lia]. by apply Hiff in Hz.
  - rewrite session_step_same.
    + apply IH; [by apply call_state_step|].
      unfold store_step, before_query.
      destruct autoflush; simpl.
      * assert (store_pending st = []) as Hnil.
        { destruct (store_pending st); [done|]. destruct Hno. by split. }
        rewrite Hnil. simpl.
        destruct (_find_overlapping_activity _ _ _ _) as [existing|];
          try destruct (is_exact_duplicate _ _); simpl;
          try (by rewrite (proj2 Hiff Hnil)); split; intros; done.
      * destruct (_find_overlapping_activity _ _ _ _) as [existing|];
          try destruct (is_exact_duplicate _ _); simpl; try done;
          split; [done|]; intros H; by apply app_nil in H as [_ ?].
    + destruct autoflush; [|done].
      destruct (store_pending st); [done|]. destruct Hno. by split.
Qed.
End for_a_store.
End session_store_facts.

Section session_store.
Import ActivityService.
Implicit Types (db : DB) (pr : TachographParseResult.t).

(** The bulk storage on the session: what it does on the tables, unless a
    row is created and the database refuses the rows of the call. *)
Lemma session_store af db d pr sf vid :
  let stored := store_activities_from_tachograph af db d pr sf vid in
  SessionActivity.store_activities_from_tachograph af db d pr sf vid
  = match Schema.check_driver_activity db d vid (Some sf)
            (TachographParseResult.card_number pr), (stored.2).1 with
    | Some e, S _ => (Inactive, Throw (DatabaseError e))
    | _, _ => (Active stored.1, Return stored.2)
    end.
Proof.
  cbv zeta.
  unfold SessionActivity.store_activities_from_tachograph,
    store_activities_from_tachograph, SessionActivity.store_loop, store_loop.
  set (cn := TachographParseResult.card_number pr).
  set (rs := TachographParseResult.activities pr).
  set (st0 := mkStore db [] 0 0).
  assert (call_state d vid sf cn db st0) as Hst0 by (repeat split; constructor).
  destruct (Schema.check_driver_activity db d vid (Some sf) cn) as [e|] eqn:Href.
  - destruct (session_loop_refused af d vid sf cn db (Some e) Href rs st0 e eq_refl Hst0)
      as [(-> & Hiff & Hst)|(-> & Hpos)]; [done| |].
    + set (st' := foldl (store_step af d vid sf cn) st0 rs) in *.
      unfold SessionActivity.finish_store, finish_store, SessionActivity.flush.
      cbn [fst snd]. destruct (created st') eqn:Hc.
      * by rewrite bool_decide_eq_false_2 by lia.
      * rewrite bool_decide_eq_true_2 by lia.
        rewrite (omap_pending d vid sf cn db (Some e) Href st' Hst).
        destruct (store_pending st') eqn:Hp; [|done].
        destruct Hiff as [_ Hiff]. specialize (Hiff eq_refl). lia.
    + unfold finish_store. cbn [fst snd SessionActivity.finish_store].
      by destruct (created _); [lia|].
  - rewrite (session_loop_accepted af d vid sf cn db None Href rs st0 eq_refl Hst0).
    set (st' := foldl (store_step af d vid sf cn) st0 rs).
    assert (call_state d vid sf cn db st') as Hst.
    { subst st'. clear Href. generalize st0 Hst0. induction rs as [|r rs IH]; [done|].
      intros st Hs. simpl. apply IH. by apply call_state_step. }
    unfold SessionActivity.finish_store, finish_store, SessionActivity.flush.
    rewrite (omap_pending d vid sf cn db None Href st' Hst).
    cbn [fst snd]. by destruct (bool_decide _), (created st').
Qed.
End session_store.

(** ** Requests *)

Section requests.
Import TelematicsService TelematicsStatus.
Implicit Types (db : DB) (p q : GPSPositionCreate.t) (c : ingest_call).

(** A request leaves what the call leaves on the tables, or nothing when
    the database refuses one of its positions. *)
Lemma run_request_cases db c :
  run_request db c
  = if bool_decide (Exists (λ q, flush_refused db q = true) (positions_of c))
    then db else run_call db c.
Proof.
  destruct c as [p|ps]; unfold run_request, run_call, positions_of.
  - destruct (flush_refused db p) eqn:Href.
    + rewrite bool_decide_eq_true_2 by (by left).
      by rewrite (session_ingest_refused db p true Href).
    + rewrite bool_decide_eq_false_2.
      * rewrite (session_ingest_accepted db p true Href).
        by destruct (ingest_position db p true) as [[db' r]|e].
      * intros Hex. apply Exists_cons in Hex as [?|Hex]; [congruence|].
        by apply Exists_nil in Hex.
  - case_bool_decide as Hex.
    + apply first_refused in Hex as (ps1 & q & ps2 & -> & H1 & Hq).
      by rewrite (session_ingest_batch_refused db ps1 q ps2 H1 Hq).
    + rewrite session_ingest_batch_accepted; [done|].
      apply Forall_forall. intros q Hin.
      destruct (flush_refused db q) eqn:Hq; [|done].
      destruct Hex. apply Exists_exists. by exists q.
Qed.

Lemma run_request_seen_le db c : seen_le (vehicles db) (vehicles (run_request db c)).
Proof.
  rewrite run_request_cases. case_bool_decide; [apply seen_le_refl|].
  apply run_call_seen_le.
Qed.

Lemma run_requests_seen_le cs db :
  seen_le (vehicles db) (vehicles (run_requests db cs)).
Proof.
  revert db. induction cs as [|c cs IH]; intros db; simpl; [apply seen_le_refl|].
  eapply seen_le_trans; [apply run_request_seen_le|apply IH].
Qed.

Lemma run_requests_dom cs db :
  dom (vehicles (run_requests db cs)) = dom (vehicles db).
Proof.
  revert db. induction cs as [|c cs IH]; intros db; simpl; [done|].
  unfold run_requests in IH. rewrite IH, run_request_cases.
  case_bool_decide; [done|]. apply run_call_dom.
Qed.

Lemma run_requests_invariant (I : Vehicle.t → Prop) cs db :
  (∀ veh c p, c ∈ cs → p ∈ positions_of c → I veh →
     I (_update_vehicle_position veh p)) →
  map_Forall (λ _, I) (vehicles db) →
  map_Forall (λ _, I) (vehicles (run_requests db cs)).
Proof.
  revert db. induction cs as [|c cs IH]; intros db Hupd Hinv; simpl; [done|].
  apply IH.
  - intros veh c' p Hc. apply Hupd. by right.
  - rewrite run_request_cases. case_bool_decide; [done|].
    apply run_call_invariant; [|done]. intros veh p. apply Hupd. left.
Qed.

(** X27. The functions on the session do what the functions on the
    tables do whenever the database refuses nothing: a single ingestion
    and a batch, for positions whose rows it accepts, leave the session
    active with the same store and give the same result, and so does the
    bulk storage when the columns of its rows are accepted. A request
    with a position the database refuses leaves the store as it was. *)
Theorem session_agrees_with_tables :
  (∀ db p update_vehicle,
     flush_refused db p = false →
     SessionTelematics.ingest_position (Active db) p update_vehicle
     = match ingest_position db p update_vehicle with
       | Ok (db', r) => (Active db', Return r)
       | Raise e => (Active db, Throw (ServiceError e))
       end)
  ∧ (∀ db ps,
       Forall (λ q, flush_refused db q = false) ps →
       SessionTelematics.ingest_batch (Active db) ps
       = (Active (ingest_batch db ps).1, (ingest_batch db ps).2))
  ∧ (∀ db c,
       Forall (λ q, flush_refused db q = false) (positions_of c) →
       run_request db c = run_call db c)
  ∧ (∀ db c,
       Exists (λ q, flush_refused db q = true) (positions_of c) →
       run_request db c = db)
  ∧ (∀ af db d pr sf vid,
       Schema.check_driver_activity db d vid (Some sf)
         (TachographParseResult.card_number pr) = None →
       SessionActivity.store_activities_from_tachograph af db d pr sf vid
       = (Active (ActivityService.store_activities_from_tachograph af db d pr sf vid).1,
          Return (ActivityService.store_activities_from_tachograph af db d pr sf vid).2)).
Proof.
  split; [|split; [|split; [|split]]].
  - intros db p u Href. rewrite (session_ingest_accepted db p u Href).
    by destruct (ingest_position db p u) as [[db' r]|e].
  - apply session_ingest_batch_accepted.
  - intros db c Hall. rewrite run_request_cases, bool_decide_eq_false_2; [done|].
    intros Hex. apply Exists_exists in Hex as (q & Hin & Hq).
    rewrite Forall_forall in Hall. specialize (Hall q Hin). congruence.
  - intros db c Hex. by rewrite run_request_cases, bool_decide_eq_true_2.
  - intros af db d pr sf vid Hok. rewrite session_store. cbv zeta. by rewrite Hok.
Qed.

(** X28. Whatever the database refuses, no sequence of ingestion
    requests, single or batch, each on a session of its own, moves a
    vehicle's last_seen back, takes a vehicle offline or changes the
    number of vehicles; and if every position submitted passed the checks
    of its schema, the state of every vehicle stays within the bounds of
    the schema. *)
Theorem requests_keep_vehicle_state db calls now :
  (∀ v veh t,
     vehicles db !! v = Some veh → Vehicle.last_seen veh = Some t →
     ∃ veh' t', vehicles (run_requests db calls) !! v = Some veh'
                ∧ Vehicle.last_seen veh' = Some t' ∧ t ≤ t')
  ∧ (let before := get_online_vehicles_count db now in
     let after := get_online_vehicles_count (run_requests db calls) now in
     count_total after = count_total before
     ∧ count_online before ≤ count_online after
     ∧ count_offline after ≤ count_offline before)
  ∧ (∀ k, reported_online db now k → reported_online (run_requests db calls) now k)
  ∧ (Forall (λ c, Forall (validated_by now) (positions_of c)) calls →
     map_Forall (λ _, vehicle_within now) (vehicles db) →
     map_Forall (λ _, vehicle_within now) (vehicles (run_requests db calls))).
Proof.
  split; [apply run_requests_seen_le|]. split; [|split].
  - cbv zeta.
    assert (count_total (get_online_vehicles_count (run_requests db calls) now)
            = count_total (get_online_vehicles_count db now)) as Htot.
    { unfold get_online_vehicles_count. simpl.
      rewrite !length_fmap, !length_map_to_list.
      by rewrite <- !(size_dom (D := gset Z)), run_requests_dom. }
    assert (count_online (get_online_vehicles_count db now)
            ≤ count_online (get_online_vehicles_count (run_requests db calls) now))
      as Hon.
    { rewrite !online_count_eq. apply inj_le.
      rewrite <- !(size_dom (D := gset Z)). apply subseteq_size.
      apply online_vehicles_mono, run_requests_seen_le. }
    split; [done|]. split; [done|].
    unfold get_online_vehicles_count in *. simpl in *. lia.
  - intros k. rewrite !reported_online_spec. intros (veh & t & Hk & Ht & Hnow).
    destruct (run_requests_seen_le calls db k veh t Hk Ht) as (veh' & t' & ? & ? & ?).
    exists veh', t'. repeat split; [done..|lia].
  - intros Hval. apply run_requests_invariant. intros veh c p Hc Hp.
    apply update_within. rewrite Forall_forall in Hval.
    specialize (Hval c Hc). rewrite Forall_forall in Hval. by apply Hval.
Qed.
End requests.

Section upload_endpoint.
Import ActivityService TachographParser ParseFile UploadAPI.
Implicit Types (db : DB) (u : User.t) (content : list Byte.byte).

Lemma Returns_inj {A} (a b : A) : Returns a = Returns b → a = b.
Proof. by intros [= ->]. Qed.

Lemma store_ignores_drivers af db tbl d pr sf vid :
  store_activities_from_tachograph af (with_drivers db tbl) d pr sf vid
  = (with_drivers (store_activities_from_tachograph af db d pr sf vid).1 tbl,
     (store_activities_from_tachograph af db d pr sf vid).2).
Proof. by rewrite !store_result. Qed.

Lemma store_counts af db d pr sf vid :
  let out := store_activities_from_tachograph af db d pr sf vid in
  ((out.2).1 + (out.2).2 = length (TachographParseResult.activities pr))%nat.
Proof.
  cbv zeta. rewrite store_result. cbn [fst snd].
  pose proof (kept_records_length af d vid sf (TachographParseResult.card_number pr)
                (TachographParseResult.activities pr)
                (rows_of (driver_activities db))).
  lia.
Qed.

(** The statements of the last [try] block: the exception of the
    database when it refuses something, and otherwise the tables after
    the bulk storage, with the card number of the driver when it is
    set. *)
Lemma store_and_update_result af db driver d pr filename vid :
  let stored := store_activities_from_tachograph af db d pr filename vid in
  let card := TachographParseResult.card_number pr in
  store_and_update af db driver d pr filename vid
  = match upload_refusal af db d driver vid filename pr with
    | Some e => (Inactive, Throw (DatabaseError e))
    | None =>
        (Active (if Str.truthy card && negb (Str.truthy (Driver.card_number driver))
                 then with_drivers stored.1
                        (<[d := set_card_number driver card]> (drivers stored.1))
                 else stored.1),
         Return stored.2)
    end.
Proof.
  cbv zeta. unfold store_and_update, upload_refusal.
  rewrite session_store. cbv zeta. rewrite store_result. cbv zeta. cbn [fst snd].
  set (kept := kept_records _ _ _ _ _ _ _).
  set (cond := Str.truthy _ && negb _).
  destruct (Schema.check_driver_activity _ _ _ _ _) as [e|],
    kept as [|r kept']; cbn [length];
    try done; destruct cond; try done;
    change (Schema.update_driver_card_number (with_activities db _) d)
      with (Schema.update_driver_card_number db d);
    by destruct (Schema.update_driver_card_number db d _).
Qed.

(** The endpoint, once the checks before the parse have passed. *)
Lemma upload_passes af seed bt fb db u file_filename content d vid driver :
  User.role u ≠ VIEWER →
  Str.lower (extension_of (file_name_of file_filename)) ∈ [".ddd"; ".tgd"] →
  content ≠ [] →
  Z.of_nat (length content) ≤ MAX_FILE_SIZE →
  drivers db !! d = Some driver →
  let filename := file_name_of file_filename in
  let pr := parse_tachograph_bytes seed bt fb content filename in
  let stored := store_activities_from_tachograph af db d pr filename vid in
  upload_tachograph_file af seed bt fb db u file_filename content d vid
  = if negb (TachographParseResult.success pr)
    then Returns (db, TachographUploadResponse.mk false filename (Some d) 0 0 pr
                        (ParseError <$> TachographParseResult.errors pr))
    else
      match upload_refusal af db d driver vid filename pr with
      | Some e =>
          Returns (db, TachographUploadResponse.mk false filename (Some d) 0 0 pr
                         [FailedToStoreActivities (DatabaseErrorText e)])
      | None =>
          Returns
            (if Str.truthy (TachographParseResult.card_number pr)
                && negb (Str.truthy (Driver.card_number driver))
             then with_drivers stored.1
                    (<[d := set_card_number driver
                              (TachographParseResult.card_number pr)]>
                       (drivers stored.1))
             else stored.1,
             TachographUploadResponse.mk true filename (Some d)
               (stored.2).1 (stored.2).2 pr [])
      end.
Proof.
  intros Hrole Hext Hne Hmax Hdrv. cbv zeta. unfold upload_tachograph_file.
  rewrite require_write_not_viewer by done.
  fold (file_name_of file_filename).
  rewrite (bool_decide_eq_true_2 _ Hext). cbn [negb].
  destruct (Z.ltb_spec MAX_FILE_SIZE (Z.of_nat (length content))) as [?|_]; [lia|].
  rewrite bool_decide_eq_false_2 by (by destruct content).
  rewrite Hdrv.
  destruct (negb (TachographParseResult.success _)); [done|].
  rewrite store_and_update_result. cbv zeta.
  destruct (upload_refusal _ _ _ _ _ _ _) as [e|]; [done|].
  by destruct (store_activities_from_tachograph _ _ _ _ _ _) as [db' [created skipped]].
Qed.

(** X23. The upload endpoint refuses a VIEWER with 403. For a writer, a
    wrong extension, a file over 10 MB, an empty file and an unknown
    driver each end in a response built without its required
    parse_result, that is, in a validation error instead of the message.
    A response is returned otherwise, with the parse result: it reports
    a failure exactly when the file has fewer than 100 bytes or the
    database refuses the rows or the card number, which leaves the store
    as it was, with no activity counted and one error, the parser's or
    "Failed to store activities" with the text of the database; a
    response that reports success accounts for the nine records. *)
Theorem upload_refusals_have_no_response
    af seed bt fb db u file_filename content d vid :
  let filename := file_name_of file_filename in
  let pr := parse_tachograph_bytes seed bt fb content filename in
  let out := upload_tachograph_file af seed bt fb db u file_filename content d vid in
  (User.role u = VIEWER →
   out = Fails (HTTPException 403 (InsufficientPermissions "write" VIEWER)))
  ∧ (User.role u ≠ VIEWER →
     (out = Fails (FieldRequired "parse_result") ↔
        Str.lower (extension_of filename) ∉ [".ddd"; ".tgd"]
        ∨ MAX_FILE_SIZE < Z.of_nat (length content)
        ∨ content = []
        ∨ drivers db !! d = None)
     ∧ (returns out ∨ out = Fails (FieldRequired "parse_result"))
     ∧ ∀ db' resp, out = Returns (db', resp) →
         ∃ driver,
           drivers db !! d = Some driver
           ∧ let refusal := upload_refusal af db d driver vid filename pr in
             TachographUploadResponse.filename resp = filename
             ∧ TachographUploadResponse.driver_id resp = Some d
             ∧ TachographUploadResponse.parse_result resp = pr
             ∧ (TachographUploadResponse.success resp = false ↔
                (length content < 100)%nat ∨ is_Some refusal)
             ∧ (TachographUploadResponse.success resp = false →
                db' = db
                ∧ TachographUploadResponse.activities_created resp = 0%nat
                ∧ TachographUploadResponse.activities_skipped resp = 0%nat)
             ∧ ((length content < 100)%nat →
                TachographUploadResponse.errors resp
                = [ParseError "File too small to be a valid tachograph file"])
             ∧ (∀ e, (100 ≤ length content)%nat → refusal = Some e →
                  TachographUploadResponse.errors resp
                  = [FailedToStoreActivities (DatabaseErrorText e)])
             ∧ (TachographUploadResponse.success resp = true →
                TachographUploadResponse.errors resp = []
                ∧ (TachographUploadResponse.activities_created resp
                   + TachographUploadResponse.activities_skipped resp = 9)%nat)).
Proof.
  cbv zeta. split.
  { intros Hrole. unfold upload_tachograph_file. by rewrite require_write_viewer. }
  intros Hrole.
  destruct (decide (Str.lower (extension_of (file_name_of file_filename))
                    ∈ [".ddd"; ".tgd"])) as [Hext|Hext];
    [|assert (upload_tachograph_file af seed bt fb db u file_filename content d vid
              = refused) as ->].
  2:{ unfold upload_tachograph_file. rewrite require_write_not_viewer by done.
      fold (file_name_of file_filename). by rewrite (bool_decide_eq_false_2 _ Hext). }
  2:{ unfold refused. split; [tauto|]. split; [by right|]. done. }
  destruct (Z.ltb_spec MAX_FILE_SIZE (Z.of_nat (length content))) as [Hbig|Hmax];
    [assert (upload_tachograph_file af seed bt fb db u file_filename content d vid
             = refused) as ->|].
  { unfold upload_tachograph_file. rewrite require_write_not_viewer by done.
    fold (file_name_of file_filename). rewrite (bool_decide_eq_true_2 _ Hext).
    cbn [negb]. by destruct (Z.ltb_spec MAX_FILE_SIZE (Z.of_nat (length content)));
      [|lia]. }
  { unfold refused. split; [tauto|]. split; [by right|]. done. }
  destruct (decide (content = [])) as [Hempty|Hne];
    [assert (upload_tachograph_file af seed bt fb db u file_filename content d vid
             = refused) as ->|].
  { unfold upload_tachograph_file. rewrite require_write_not_viewer by done.
    fold (file_name_of file_filename). rewrite (bool_decide_eq_true_2 _ Hext).
    cbn [negb]. subst content. done. }
  { unfold refused. split; [tauto|]. split; [by right|]. done. }
  destruct (drivers db !! d) as [driver|] eqn:Hdrv;
    [|assert (upload_tachograph_file af seed bt fb db u file_filename content d vid
              = refused) as ->].
  2:{ unfold upload_tachograph_file. rewrite require_write_not_viewer by done.
      fold (file_name_of file_filename). rewrite (bool_decide_eq_true_2 _ Hext).
      cbn [negb].
      destruct (Z.ltb_spec MAX_FILE_SIZE (Z.of_nat (length content))); [lia|].
      rewrite bool_decide_eq_false_2 by (by destruct content). by rewrite Hdrv. }
  2:{ unfold refused. split; [tauto|]. split; [by right|]. done. }
  rewrite (upload_passes af seed bt fb db u file_filename content d vid driver)
    by done.
  pose proof (parse_depends_on_size_and_name_aux seed bt fb content
                (file_name_of file_filename)) as [Hsmall Hlarge].
  destruct (Nat.lt_ge_cases (length content) 100) as [Hlt|Hge].
  - rewrite (Hsmall Hlt). cbn [negb TachographParseResult.success
                               TachographParseResult.errors].
    split; [split; [done|]; intros [?|[?|[?|?]]]; [done|lia|done|done]|].
    split; [left; by eexists|].
    intros db' resp [= <- <-]. exists driver. split; [done|]. cbn.
    repeat split; try done; try (by left); intros; lia.
  - pose proof (Hlarge Hge) as Hpr.
    set (pr := parse_tachograph_bytes seed bt fb content (file_name_of file_filename))
      in *.
    assert (TachographParseResult.success pr = true) as Hok by (by rewrite Hpr).
    assert (length (TachographParseResult.activities pr) = 9%nat) as Hnine.
    { rewrite Hpr. cbn [TachographParseResult.activities].
      apply length_extract_activities. }
    clear Hpr Hsmall Hlarge. clearbody pr. rewrite Hok. cbn [negb].
    destruct (upload_refusal af db d driver vid (file_name_of file_filename) pr)
      as [e|] eqn:Href.
    + split; [split; [intros [=]|]; intros [?|[?|[?|?]]]; [done|lia|done|done]|].
      split; [left; by eexists|].
      intros db' resp Heq. apply Returns_inj, pair_equal_spec in Heq as [<- <-].
      exists driver. split; [done|].
      cbn [TachographUploadResponse.filename TachographUploadResponse.driver_id
           TachographUploadResponse.success TachographUploadResponse.errors
           TachographUploadResponse.activities_created
           TachographUploadResponse.parse_result
           TachographUploadResponse.activities_skipped].
      split; [reflexivity|]. split; [reflexivity|]. split; [reflexivity|].
      split; [split; [intros _; right; by eexists|reflexivity]|].
      split; [intros _; repeat split|].
      split; [intros; lia|].
      split; [intros e' _ He'; rewrite Href in He'; by injection He' as <-|]. intros [=].
    + split; [split; [intros [=]|]; intros [?|[?|[?|?]]]; [done|lia|done|done]|].
      split; [left; by eexists|].
      intros db' resp Heq. apply Returns_inj, pair_equal_spec in Heq as [_ <-].
      exists driver. split; [done|].
      cbn [TachographUploadResponse.filename TachographUploadResponse.driver_id
           TachographUploadResponse.success TachographUploadResponse.errors
           TachographUploadResponse.activities_created
           TachographUploadResponse.parse_result
           TachographUploadResponse.activities_skipped].
      split; [reflexivity|]. split; [reflexivity|]. split; [reflexivity|].
      split; [split; [intros [=]|intros [?|[? He']]; [lia|by rewrite Href in He']]|].
      split; [intros [=]|]. split; [intros; lia|].
      split; [intros e' _ He'; by rewrite Href in He'|].
      intros _. split; [reflexivity|].
      etrans; [apply store_counts|]. exact Hnine.
Qed.

Lemma extract_card_number_length fb content cn :
  (String.length fb ≤ 50)%nat →
  _extract_card_number fb content = Some cn →
  (String.length cn ≤ 50)%nat.
Proof.
  intros Hfb. unfold _extract_card_number.
  pose proof (head_filter_seq
                (λ i, Bytes.isalnum (Bytes.window content i) = true)
                (length content - 16)) as Hhead.
  destruct (head _) as [i|]; intros [= <-]; [|done].
  destruct Hhead as (Hi & Hal & _).
  rewrite decode_ascii_alnum, length_string_of_list_byte, length_window by (done || lia).
  lia.
Qed.

Lemma parse_card_fits seed bt fb content filename :
  (String.length fb ≤ 50)%nat → (100 ≤ length content)%nat →
  Schema.too_long 50
    (TachographParseResult.card_number
       (parse_tachograph_bytes seed bt fb content filename)) = false.
Proof.
  intros Hfb Hlen. rewrite (parse_large seed bt fb content filename Hlen).
  cbn [TachographParseResult.card_number].
  assert (Schema.too_long 50 (_extract_card_number fb content) = false) as Hcard.
  { destruct (_extract_card_number fb content) as [cn|] eqn:Hcn; [|done].
    apply (extract_card_number_length fb content cn Hfb) in Hcn.
    unfold Schema.too_long. apply Nat.ltb_ge. lia. }
  destruct (Str.endswith ".ddd" _); [done|]. by destruct (Str.endswith ".tgd" _).
Qed.

(** When the database has nothing to refuse. *)
Lemma upload_refusal_none af db d driver vid filename pr :
  drivers db !! d = Some driver →
  (String.length filename ≤ 255)%nat →
  Schema.too_long 50 (TachographParseResult.card_number pr) = false →
  from_option (λ v, is_Some (vehicles db !! v)) True vid →
  card_number_free db d (TachographParseResult.card_number pr) →
  upload_refusal af db d driver vid filename pr = None.
Proof.
  intros Hdrv Hname Hcard Hvid Hfree. unfold upload_refusal.
  assert (Schema.check_driver_activity db d vid (Some filename)
            (TachographParseResult.card_number pr) = None) as ->.
  { unfold Schema.check_driver_activity. rewrite Hcard, Hdrv.
    cbn [Schema.too_long]. destruct (Nat.ltb_spec 255 (String.length filename)); [lia|].
    destruct vid as [v|]; [|done]. by destruct Hvid as [veh ->]. }
  assert (Schema.update_driver_card_number db d (TachographParseResult.card_number pr)
          = None) as ->.
  { unfold Schema.update_driver_card_number. rewrite Hcard.
    destruct (TachographParseResult.card_number pr) as [c|] eqn:Hc; [|done].
    rewrite bool_decide_eq_false_2; [done|].
    intros Hex. apply Exists_exists in Hex as ([k other] & Hin & Hk & Hother).
    apply elem_of_map_to_list in Hin. by apply (Hfree k other Hin Hk). }
  destruct (kept_records _ _ _ _ _ _ _); by destruct (_ && _).
Qed.

Lemma card_number_free_same db db' d cn :
  (∀ k, k ≠ d → drivers db' !! k = drivers db !! k) →
  card_number_free db d cn → card_number_free db' d cn.
Proof.
  intros Hsame Hfree k other Hk Hne. rewrite (Hsame k Hne) in Hk.
  exact (Hfree k other Hk Hne).
Qed.

Lemma flush_pending_inv rows (tbl : gmap Z DriverActivity.t) k row :
  flush_pending tbl rows !! k = Some row → tbl !! k = Some row ∨ row ∈ rows.
Proof.
  revert tbl. induction rows as [|row0 rows IH]; intros tbl; [by left|].
  intros H.
  change (flush_pending (insert_row row0 tbl) rows !! k = Some row) in H.
  apply IH in H as [H|H]; [|right; by right].
  apply insert_row_lookup_inv in H as [[_ ->]|H]; [right; left|by left].
Qed.

(** Records that each overlap a stored row of the driver are all
    skipped, and the store stays as it is. *)
Lemma store_all_overlap af db d pr sf vid :
  Forall (overlaps_any d (rows_of (driver_activities db)))
    (TachographParseResult.activities pr) →
  store_activities_from_tachograph af db d pr sf vid
  = (db, (0%nat, length (TachographParseResult.activities pr))).
Proof.
  intros Hov. rewrite store_result. cbv zeta.
  rewrite kept_records_none by done. simpl.
  by rewrite with_activities_id, Nat.sub_0_r.
Qed.

(** X24. The upload of a file of at least 100 bytes with an accepted
    extension for a known driver without activities, when the database
    has nothing to refuse (a file name of at most 255 characters, a card
    number of at most 50 that no other driver has, no vehicle or a known
    one), stores the nine records and returns success with 9 created; it
    sets the driver's card number when the file yields one and the driver
    has none, and changes no other driver, no vehicle and no position. The
    same file uploaded again while the clock gives the same day returns
    success with 9 skipped and adds no activity; uploaded once the day
    parsed lies after the first, it stores nine more. *)
Theorem upload_stores_the_parsed_day
    af seed bt fb db u file_filename content d vid driver :
  let filename := file_name_of file_filename in
  let pr := parse_tachograph_bytes seed bt fb content filename in
  User.role u ≠ VIEWER →
  Str.lower (extension_of filename) ∈ [".ddd"; ".tgd"] →
  (100 ≤ length content)%nat →
  Z.of_nat (length content) ≤ MAX_FILE_SIZE →
  drivers db !! d = Some driver →
  (∀ k row, driver_activities db !! k = Some row → DriverActivity.driver_id row ≠ d) →
  (String.length filename ≤ 255)%nat →
  (String.length fb ≤ 50)%nat →
  from_option (λ v, is_Some (vehicles db !! v)) True vid →
  card_number_free db d (TachographParseResult.card_number pr) →
  ∃ db1 resp1 driver1,
    upload_tachograph_file af seed bt fb db u file_filename content d vid
    = Returns (db1, resp1)
    ∧ TachographUploadResponse.success resp1 = true
    ∧ TachographUploadResponse.activities_created resp1 = 9%nat
    ∧ TachographUploadResponse.activities_skipped resp1 = 0%nat
    ∧ TachographUploadResponse.parse_result resp1 = pr
    ∧ size (driver_activities db1) = (size (driver_activities db) + 9)%nat
    ∧ vehicles db1 = vehicles db
    ∧ gps_positions db1 = gps_positions db
    ∧ (∀ d', d' ≠ d → drivers db1 !! d' = drivers db !! d')
    ∧ drivers db1 !! d = Some driver1
    ∧ Driver.card_number driver1
      = (if Str.truthy (TachographParseResult.card_number pr)
            && negb (Str.truthy (Driver.card_number driver))
         then TachographParseResult.card_number pr
         else Driver.card_number driver)
    ∧ ∀ bt2 fb2,
        (String.length fb2 ≤ 50)%nat →
        card_number_free db d
          (TachographParseResult.card_number
             (parse_tachograph_bytes seed bt2 fb2 content filename)) →
        (bt2 = bt →
         ∃ db2 resp2,
           upload_tachograph_file af seed bt2 fb2 db1 u file_filename content d vid
           = Returns (db2, resp2)
           ∧ TachographUploadResponse.success resp2 = true
           ∧ TachographUploadResponse.activities_created resp2 = 0%nat
           ∧ TachographUploadResponse.activities_skipped resp2 = 9%nat
           ∧ driver_activities db2 = driver_activities db1)
        ∧ (bt + timedelta_minutes 725 ≤ bt2 →
           ∃ db2 resp2,
             upload_tachograph_file af seed bt2 fb2 db1 u file_filename content d vid
             = Returns (db2, resp2)
             ∧ TachographUploadResponse.success resp2 = true
             ∧ TachographUploadResponse.activities_created resp2 = 9%nat
             ∧ TachographUploadResponse.activities_skipped resp2 = 0%nat
             ∧ size (driver_activities db2)
               = (size (driver_activities db) + 18)%nat).
Proof.
  cbv zeta. intros Hrole Hext Hlen Hmax Hdrv Hnone Hname Hfb Hvid Hfree.
  set (filename := file_name_of file_filename) in *.
  assert (content ≠ []) as Hne by (intros ->; simpl in Hlen; lia).
  pose proof (parse_card_fits seed bt fb content filename Hfb Hlen) as Hfit.
  pose proof (upload_passes af seed bt fb db u file_filename content d vid driver
                Hrole Hext Hne Hmax Hdrv) as Hpass1.
  cbv zeta in Hpass1. fold filename in Hpass1.
  pose proof (parse_large seed bt fb content filename Hlen) as Hpr.
  set (pr := parse_tachograph_bytes seed bt fb content filename) in *.
  assert (TachographParseResult.activities pr = _extract_activities seed bt) as Hacts
    by (rewrite Hpr; reflexivity).
  assert (TachographParseResult.success pr = true) as Hok
    by (rewrite Hpr; reflexivity).
  clear Hpr. clearbody pr.
  pose proof (extract_activities_window seed bt) as Hwin.
  pose proof (extract_activities_disjoint seed bt) as Hdis.
  rewrite <- Hacts in Hwin, Hdis.
  assert (length (TachographParseResult.activities pr) = 9%nat) as Hnine
    by (rewrite Hacts; apply length_extract_activities).
  assert (Forall (λ r, ¬ overlaps_any d (rows_of (driver_activities db)) r)
            (TachographParseResult.activities pr)) as Hvis.
  { apply Forall_forall. intros r _ Hov. apply Exists_exists in Hov as (row & Hin & Hov).
    apply elem_of_rows_of in Hin as (k & Hk). apply (Hnone k row Hk), Hov. }
  pose proof (store_clean af db d pr filename vid Hvis Hdis) as Hfirst.
  set (rows := new_activity d vid filename (TachographParseResult.card_number pr)
                 <$> TachographParseResult.activities pr) in *.
  set (db' := with_activities db (flush_pending (driver_activities db) rows)) in *.
  rewrite Hnine in Hfirst.
  set (cond := Str.truthy (TachographParseResult.card_number pr)
               && negb (Str.truthy (Driver.card_number driver))) in *.
  set (driver1 := if cond
                  then set_card_number driver (TachographParseResult.card_number pr)
                  else driver).
  set (db1 := if cond
              then with_drivers db'
                     (<[d := set_card_number driver
                               (TachographParseResult.card_number pr)]> (drivers db'))
              else db').
  assert (upload_tachograph_file af seed bt fb db u file_filename content d vid
          = Returns (db1, TachographUploadResponse.mk true filename (Some d)
                            9 0 pr [])) as Hup1.
  { rewrite Hpass1, Hok, Hfirst.
    rewrite (upload_refusal_none af db d driver vid filename pr Hdrv Hname Hfit
               Hvid Hfree).
    reflexivity. }
  clear Hpass1.
  assert (drivers db1 !! d = Some driver1) as Hdrv1.
  { unfold db1, driver1. destruct cond; [|exact Hdrv].
    cbn [drivers with_drivers]. apply lookup_insert_eq. }
  assert (driver_activities db1 = flush_pending (driver_activities db) rows
          ∧ vehicles db1 = vehicles db ∧ gps_positions db1 = gps_positions db)
    as (Hact1 & Hveh1 & Hgps1).
  { unfold db1. destruct cond; repeat split. }
  assert (∀ d', d' ≠ d → drivers db1 !! d' = drivers db !! d') as Hothers.
  { intros d' Hd'. unfold db1. destruct cond; [|reflexivity].
    cbn [drivers with_drivers]. by apply lookup_insert_ne. }
  eexists db1, _, driver1.
  split; [exact Hup1|]. split; [reflexivity|]. split; [reflexivity|].
  split; [reflexivity|]. split; [reflexivity|].
  split.
  { rewrite Hact1, flush_pending_size. unfold rows. by rewrite length_fmap, Hnine. }
  split; [exact Hveh1|]. split; [exact Hgps1|]. split; [exact Hothers|].
  split; [exact Hdrv1|]. split.
  { unfold driver1. destruct cond; reflexivity. }
  intros bt2 fb2 Hfb2 Hfree2.
  pose proof (parse_card_fits seed bt2 fb2 content filename Hfb2 Hlen) as Hfit2.
  pose proof (upload_passes af seed bt2 fb2 db1 u file_filename content d vid driver1
                Hrole Hext Hne Hmax Hdrv1) as Hpass2.
  cbv zeta in Hpass2. fold filename in Hpass2.
  pose proof (parse_large seed bt2 fb2 content filename Hlen) as Hpr2.
  set (pr2 := parse_tachograph_bytes seed bt2 fb2 content filename) in *.
  assert (TachographParseResult.activities pr2 = _extract_activities seed bt2) as Hacts2
    by (rewrite Hpr2; reflexivity).
  assert (TachographParseResult.success pr2 = true) as Hok2
    by (rewrite Hpr2; reflexivity).
  clear Hpr2. clearbody pr2.
  assert (length (TachographParseResult.activities pr2) = 9%nat) as Hnine2
    by (rewrite Hacts2; apply length_extract_activities).
  assert (upload_refusal af db1 d driver1 vid filename pr2 = None) as Href2.
  { apply upload_refusal_none; [exact Hdrv1|exact Hname|exact Hfit2| |].
    - destruct vid as [v|]; [|exact I]. simpl in *. by rewrite Hveh1.
    - by apply (card_number_free_same db). }
  rewrite Hpass2, Hok2, Href2. cbn [negb]. clear Hpass2.
  set (cond2 := Str.truthy (TachographParseResult.card_number pr2)
                && negb (Str.truthy (Driver.card_number driver1))).
  assert (∀ X : DB,
            driver_activities
              (if cond2
               then with_drivers X
                      (<[d := set_card_number driver1
                                (TachographParseResult.card_number pr2)]>
                         (drivers X))
               else X) = driver_activities X) as Hsame
    by (intros X; destruct cond2; reflexivity).
  split.
  - intros Heq. subst bt2.
    assert (store_activities_from_tachograph af db1 d pr2 filename vid
            = (db1, (0%nat, 9%nat))) as Hsecond.
    { rewrite <- Hnine2. apply store_all_overlap.
      rewrite Hacts2, <- Hacts. rewrite Forall_forall in Hwin.
      apply Forall_forall. intros r Hin. apply Exists_exists.
      exists (new_activity d vid filename (TachographParseResult.card_number pr) r).
      split.
      - apply elem_of_rows_of. rewrite Hact1.
        destruct (flush_pending_elem rows (driver_activities db)
                    (new_activity d vid filename
                       (TachographParseResult.card_number pr) r))
          as (k & _ & Hk); [|by exists k].
        apply list_elem_of_fmap. exists r. split; [reflexivity|exact Hin].
      - apply overlaps_new_activity. specialize (Hwin r Hin).
        unfold records_overlap. lia. }
    rewrite Hsecond. cbn [fst snd]. eexists _, _. split; [reflexivity|].
    cbn [TachographUploadResponse.success TachographUploadResponse.activities_created
         TachographUploadResponse.activities_skipped].
    split; [reflexivity|]. split; [reflexivity|]. split; [reflexivity|]. apply Hsame.
  - intros Hlater.
    pose proof (extract_activities_window seed bt2) as Hwin2.
    pose proof (extract_activities_disjoint seed bt2) as Hdis2.
    rewrite <- Hacts2 in Hwin2, Hdis2.
    assert (Forall (λ r, ¬ overlaps_any d (rows_of (driver_activities db1)) r)
              (TachographParseResult.activities pr2)) as Hvis2.
    { rewrite Forall_forall in Hwin, Hwin2. apply Forall_forall.
      intros r2 Hin2 Hov. apply Exists_exists in Hov as (row & Hin & Hov).
      apply elem_of_rows_of in Hin as (k & Hk). rewrite Hact1 in Hk.
      apply flush_pending_inv in Hk as [Hk|Hrow].
      - apply (Hnone k row Hk), Hov.
      - apply list_elem_of_fmap in Hrow as (r1 & -> & Hin1).
        apply overlaps_new_activity in Hov.
        specialize (Hwin r1 Hin1). specialize (Hwin2 r2 Hin2).
        unfold records_overlap in Hov. lia. }
    rewrite (store_clean af db1 d pr2 filename vid Hvis2 Hdis2), Hnine2.
    cbn [fst snd]. eexists _, _. split; [reflexivity|].
    cbn [TachographUploadResponse.success TachographUploadResponse.activities_created
         TachographUploadResponse.activities_skipped].
    split; [reflexivity|]. split; [reflexivity|]. split; [reflexivity|].
    rewrite Hsame. cbn [driver_activities with_activities].
    rewrite flush_pending_size, Hact1, flush_pending_size.
    unfold rows. rewrite !length_fmap, Hnine, Hnine2. lia.
Qed.
End upload_endpoint.

Section samples_of_uploads.
Import ActivityService TachographParser ParseFile UploadAPI.

(** X23 on the sample store: a driver card file uploaded for driver 1 and
    a vehicle 99 that does not exist is parsed, refused by the database,
    and leaves the store as it was. *)
Lemma upload_refusals_have_no_response_witness :
  ∃ resp,
    upload_tachograph_file false 7 0 "CARD20260101060000" sample_db
      (sample_user RH) (Some "card.DDD") sample_content 1 (Some 99)
    = Returns (sample_db, resp)
    ∧ TachographUploadResponse.success resp = false
    ∧ TachographUploadResponse.errors resp
      = [FailedToStoreActivities
           (DatabaseErrorText (IntegrityError "driver_activities" "vehicle_id"))].
Proof.
  destruct (upload_refusals_have_no_response false 7 0 "CARD20260101060000"
              sample_db (sample_user RH) (Some "card.DDD") sample_content 1 (Some 99))
    as (_ & H).
  destruct H as (_ & _ & H); [done|].
  eexists. split; [vm_compute; reflexivity|].
  edestruct (H sample_db) as (driver & Hdrv & _ & _ & _ & Hiff & _ & _ & Herr & _);
    [vm_compute; reflexivity|].
  injection Hdrv as <-. split.
  - apply Hiff. right. vm_compute. by eexists.
  - apply Herr; [vm_compute; lia|vm_compute; reflexivity].
Defined.

(** X24 on the sample store: a driver card file of 120 letters uploaded
    for driver 1 by an RH user, and again the day after. *)
Lemma upload_stores_the_parsed_day_witness :
  ∃ db1 resp1 driver1 db2 resp2,
    upload_tachograph_file false 7 0 "CARD20260101060000" sample_db
      (sample_user RH) (Some "card.DDD") sample_content 1 None
    = Returns (db1, resp1)
    ∧ TachographUploadResponse.activities_created resp1 = 9%nat
    ∧ drivers db1 !! 1 = Some driver1
    ∧ Driver.card_number driver1 = Some "AAAAAAAAAAAAAAAA"
    ∧ upload_tachograph_file false 7 (timedelta_days 1) "CARD20260102060000" db1
        (sample_user RH) (Some "card.DDD") sample_content 1 None
      = Returns (db2, resp2)
    ∧ TachographUploadResponse.activities_created resp2 = 9%nat
    ∧ size (driver_activities db2) = 18%nat.
Proof.
  destruct (upload_stores_the_parsed_day false 7 0 "CARD20260101060000" sample_db
              (sample_user RH) (Some "card.DDD") sample_content 1 None sample_driver)
    as (db1 & resp1 & driver1 & Hup & _ & Hc & _ & _ & _ & _ & _ & _ & Hd & Hcard
        & Hagain).
  - done.
  - vm_compute. left.
  - vm_compute. lia.
  - vm_compute. intros [=].
  - reflexivity.
  - intros k row Hk.
    change (driver_activities sample_db) with (∅ : gmap Z DriverActivity.t) in Hk.
    by rewrite lookup_empty in Hk.
  - vm_compute. lia.
  - vm_compute. lia.
  - exact I.
  - intros k other Hk Hne.
    change (drivers sample_db) with ({[1 := sample_driver]} : gmap Z Driver.t) in Hk.
    apply lookup_singleton_Some in Hk as [<- _]. exfalso. apply Hne. reflexivity.
  - destruct (Hagain (timedelta_days 1) "CARD20260102060000") as (_ & Hlater).
    + vm_compute. lia.
    + intros k other Hk Hne.
      change (drivers sample_db) with ({[1 := sample_driver]} : gmap Z Driver.t) in Hk.
      apply lookup_singleton_Some in Hk as [<- _]. exfalso. apply Hne. reflexivity.
    + destruct Hlater as (db2 & resp2 & Hup2 & _ & Hc2 & _ & Hsize);
        [vm_compute; intros [=]|].
      exists db1, resp1, driver1, db2, resp2.
      split; [exact Hup|]. split; [exact Hc|]. split; [exact Hd|].
      split; [rewrite Hcard; vm_compute; reflexivity|].
      split; [exact Hup2|]. split; [exact Hc2|]. exact Hsize.
Defined.
End samples_of_uploads.


